(** * apng: a shallow embedding of the encoder's core and its properties

    The development follows the Go sources: [writer.go] (chunk framing,
    sequence numbers, the IDAT/fdAT encoders, row transcoding) and the
    filter selector ([abs8], [filter]).

    Conventions.
    - A Go [uint8] is a [Z] in [0, 256); a [uint32] is a [Z] in [0, 2^32).
      Conversions and wrap-around are written out with [mod].
    - A Go slice is a [list Z]; an index expression that is out of range
      panics in Go and is [None] here.
    - A Go [int] used as a length or as an index of a row buffer is a
      [nat]; a Go [int] used as an accumulator, as a coordinate or as an
      offset into a pixel slice is an unbounded [Z].
    - A pointer to a shared object is an index into a store that is
      passed along: sequence counters, and the channels of the goroutines.
    - [hash/crc32], [bufio], [compress/zlib], [image] and [image/color]
      are Go's standard library; what the encoder uses of them is modelled
      after their sources, and the zlib coder is a parameter. *)

From Stdlib Require Import ZArith Lia.

From stdpp Require Import base option list.

Local Open Scope Z_scope.

(** ** Bytes and words *)

Definition uint8 (z : Z) : Z := z mod 256.

Definition uint32 (z : Z) : Z := z mod 2 ^ 32.

Definition is_byte (z : Z) : Prop := 0 <= z < 256.

Definition bytes (l : list Z) : Prop := Forall is_byte l.

(** [b[i]] and [b[i] = v] on a slice, with Go's bounds check. *)
Definition index (b : list Z) (i : nat) : option Z := b !! i.

Definition store (b : list Z) (i : nat) (v : Z) : option (list Z) :=
  if decide (i < length b)%nat then Some (<[i:=v]> b) else None.

(** [b[1:]], which panics on an empty slice. The first byte (the filter
    tag of a row buffer) is returned alongside the view. *)
Definition slice_from1 (b : list Z) : option (Z * list Z) :=
  match b with
  | [] => None
  | t :: d => Some (t, d)
  end.

(** ** Filter types *)

Definition ftNone : Z := 0.

Definition ftSub : Z := 1.

Definition ftUp : Z := 2.

Definition ftAverage : Z := 3.

Definition ftPaeth : Z := 4.

Definition nFilter : nat := 5.

(** The absolute value of a byte interpreted as a signed int8. *)
Definition abs8 (d : Z) : Z :=
  if d <? 128 then d else 256 - d.

(** ** The [for] loops of [filter]

    [for i := lo; i < lo + k; i++ { body }] where the body either panics,
    or yields the next state together with a flag saying that it executed
    [break]. *)
Fixpoint for_loop {S : Type} (body : nat -> S -> option (S * bool))
    (k : nat) (i : nat) (s : S) : option S :=
  match k with
  | O => Some s
  | Datatypes.S k' =>
      match body i s with
      | None => None
      | Some (s', true) => Some s'
      | Some (s', false) => for_loop body k' (Datatypes.S i) s'
      end
  end.

(** The five row buffers [cr[0..4]], each with its tag byte in front. *)
Record Rows : Type := mkRows {
  cr0 : list Z; cr1 : list Z; cr2 : list Z; cr3 : list Z; cr4 : list Z
}.

(** [cr[f]] for a filter type [f]. *)
Definition row_of (cr : Rows) (f : Z) : list Z :=
  if f =? 0 then cr0 cr
  else if f =? 1 then cr1 cr
  else if f =? 2 then cr2 cr
  else if f =? 3 then cr3 cr
  else cr4 cr.

Section Filter.

(** The Paeth predictor lives in a file of the package that is not part
    of the sources at hand; [filter] is parametric in it. *)
Variable paeth : Z -> Z -> Z -> Z.

(** One loop state: the destination view [cdatK] and the running [sum]. *)
Definition LoopSt : Type := (list Z * Z)%type.

(** [cdatK[i] = v; sum += abs8(cdatK[i])], optionally followed by
    [if sum >= best { break }]. *)
Definition put_and_add (check : option Z) (i : nat) (v : Z) (s : LoopSt)
    : option (LoopSt * bool) :=
  dst ← store s.1 i v;
  w ← index dst i;
  let sum := s.2 + abs8 w in
  Some ((dst, sum),
        match check with
        | Some best => bool_decide (sum >= best)
        | None => false
        end).

(** The up filter: [cdat2[i] = cdat0[i] - pdat[i]]. *)
Definition up_body (cdat0 pdat : list Z) (i : nat) (s : LoopSt) :=
  a ← index cdat0 i;
  b ← index pdat i;
  put_and_add None i (uint8 (a - b)) s.

(** The Paeth filter, first [bpp] bytes: [cdat4[i] = cdat0[i] - pdat[i]]. *)
Definition paeth_head_body (cdat0 pdat : list Z) (i : nat) (s : LoopSt) :=
  a ← index cdat0 i;
  b ← index pdat i;
  put_and_add None i (uint8 (a - b)) s.

(** The Paeth filter, from [bpp] on:
    [cdat4[i] = cdat0[i] - paeth(cdat0[i-bpp], pdat[i], pdat[i-bpp])]. *)
Definition paeth_tail_body (cdat0 pdat : list Z) (bpp : nat) (best : Z)
    (i : nat) (s : LoopSt) :=
  a ← index cdat0 i;
  l ← index cdat0 (i - bpp);
  b ← index pdat i;
  c ← index pdat (i - bpp);
  put_and_add (Some best) i (uint8 (a - paeth l b c)) s.

(** The none filter: [sum += abs8(cdat0[i]); if sum >= best { break }]. *)
Definition none_body (cdat0 : list Z) (best : Z) (i : nat) (sum : Z)
    : option (Z * bool) :=
  a ← index cdat0 i;
  let sum := sum + abs8 a in
  Some (sum, bool_decide (sum >= best)).

(** The sub filter, first [bpp] bytes: [cdat1[i] = cdat0[i]]. *)
Definition sub_head_body (cdat0 : list Z) (i : nat) (s : LoopSt) :=
  a ← index cdat0 i;
  put_and_add None i a s.

(** The sub filter, from [bpp] on: [cdat1[i] = cdat0[i] - cdat0[i-bpp]]. *)
Definition sub_tail_body (cdat0 : list Z) (bpp : nat) (best : Z)
    (i : nat) (s : LoopSt) :=
  a ← index cdat0 i;
  l ← index cdat0 (i - bpp);
  put_and_add (Some best) i (uint8 (a - l)) s.

(** The average filter, first [bpp] bytes:
    [cdat3[i] = cdat0[i] - pdat[i]/2]. *)
Definition avg_head_body (cdat0 pdat : list Z) (i : nat) (s : LoopSt) :=
  a ← index cdat0 i;
  b ← index pdat i;
  put_and_add None i (uint8 (a - b / 2)) s.

(** The average filter, from [bpp] on:
    [cdat3[i] = cdat0[i] - uint8((int(cdat0[i-bpp]) + int(pdat[i])) / 2)]. *)
Definition avg_tail_body (cdat0 pdat : list Z) (bpp : nat) (best : Z)
    (i : nat) (s : LoopSt) :=
  a ← index cdat0 i;
  l ← index cdat0 (i - bpp);
  b ← index pdat i;
  put_and_add (Some best) i (uint8 (a - uint8 ((l + b) / 2))) s.

(** [if sum < best { best = sum; filter = ft }]. *)
Definition keep_better (sum : Z) (ft : Z) (bf : Z * Z) : Z * Z :=
  if bool_decide (sum < bf.1) then (sum, ft) else bf.

(** Chooses the filter to use for encoding the current row, and applies
    it. The result is the row buffers after the call and the index of the
    chosen filter. *)
Definition filter (cr : Rows) (pr : list Z) (bpp : nat)
    : option (Rows * Z) :=
  '(t0, cdat0) ← slice_from1 (cr0 cr);
  '(t1, cdat1) ← slice_from1 (cr1 cr);
  '(t2, cdat2) ← slice_from1 (cr2 cr);
  '(t3, cdat3) ← slice_from1 (cr3 cr);
  '(t4, cdat4) ← slice_from1 (cr4 cr);
  '(_, pdat) ← slice_from1 pr;
  let n := length cdat0 in
  (* The up filter. *)
  '(cdat2, sum) ← for_loop (up_body cdat0 pdat) n 0 (cdat2, 0);
  let bf := (sum, ftUp) in
  (* The Paeth filter. *)
  '(cdat4, sum) ← for_loop (paeth_head_body cdat0 pdat) bpp 0 (cdat4, 0);
  '(cdat4, sum) ←
    for_loop (paeth_tail_body cdat0 pdat bpp bf.1) (n - bpp) bpp (cdat4, sum);
  let bf := keep_better sum ftPaeth bf in
  (* The none filter. *)
  sum ← for_loop (none_body cdat0 bf.1) n 0 0;
  let bf := keep_better sum ftNone bf in
  (* The sub filter. *)
  '(cdat1, sum) ← for_loop (sub_head_body cdat0) bpp 0 (cdat1, 0);
  '(cdat1, sum) ←
    for_loop (sub_tail_body cdat0 bpp bf.1) (n - bpp) bpp (cdat1, sum);
  let bf := keep_better sum ftSub bf in
  (* The average filter. *)
  '(cdat3, sum) ← for_loop (avg_head_body cdat0 pdat) bpp 0 (cdat3, 0);
  '(cdat3, sum) ←
    for_loop (avg_tail_body cdat0 pdat bpp bf.1) (n - bpp) bpp (cdat3, sum);
  let bf := keep_better sum ftAverage bf in
  Some (mkRows (t0 :: cdat0) (t1 :: cdat1) (t2 :: cdat2) (t3 :: cdat3)
               (t4 :: cdat4), bf.2).

End Filter.

(** ** The filtered rows, position by position

    What each rule stores at position [i] of its buffer when its loop is
    not cut short. Reads outside a slice cannot happen for [i] below the
    row length; [byte_at] gives them the value 0 to stay total. *)

Definition byte_at (l : list Z) (i : nat) : Z := default 0 (l !! i).

Definition none_at (cdat0 : list Z) (i : nat) : Z := byte_at cdat0 i.

Definition sub_at (cdat0 : list Z) (bpp : nat) (i : nat) : Z :=
  if decide (i < bpp)%nat then byte_at cdat0 i
  else uint8 (byte_at cdat0 i - byte_at cdat0 (i - bpp)).

Definition up_at (cdat0 pdat : list Z) (i : nat) : Z :=
  uint8 (byte_at cdat0 i - byte_at pdat i).

Definition avg_at (cdat0 pdat : list Z) (bpp : nat) (i : nat) : Z :=
  if decide (i < bpp)%nat then uint8 (byte_at cdat0 i - byte_at pdat i / 2)
  else uint8 (byte_at cdat0 i
              - uint8 ((byte_at cdat0 (i - bpp) + byte_at pdat i) / 2)).

Definition paeth_at (paeth : Z -> Z -> Z -> Z) (cdat0 pdat : list Z)
    (bpp : nat) (i : nat) : Z :=
  if decide (i < bpp)%nat then uint8 (byte_at cdat0 i - byte_at pdat i)
  else uint8 (byte_at cdat0 i
              - paeth (byte_at cdat0 (i - bpp)) (byte_at pdat i)
                      (byte_at pdat (i - bpp))).

(** The byte rule [f] stores at position [i]. *)
Definition filtered_at (paeth : Z -> Z -> Z -> Z) (cdat0 pdat : list Z)
    (bpp : nat) (f : Z) : nat -> Z :=
  if f =? 0 then none_at cdat0
  else if f =? 1 then sub_at cdat0 bpp
  else if f =? 2 then up_at cdat0 pdat
  else if f =? 3 then avg_at cdat0 pdat bpp
  else paeth_at paeth cdat0 pdat bpp.

(** The whole row filtered with rule [f]. *)
Definition filtered (paeth : Z -> Z -> Z -> Z) (cdat0 pdat : list Z)
    (bpp : nat) (f : Z) : list Z :=
  map (filtered_at paeth cdat0 pdat bpp f) (seq 0 (length cdat0)).

(** The sum of absolute signed-byte magnitudes of a byte sequence,
    computed in full (no early exit). *)
Definition sum_abs8 (l : list Z) : Z := foldr (fun d s => abs8 d + s) 0 l.

(** The same sum over [g i, g (i+1), ..., g (i+k-1)]. *)
Fixpoint sum_from (g : nat -> Z) (i k : nat) : Z :=
  match k with
  | O => 0
  | S k' => abs8 (g i) + sum_from g (S i) k'
  end.

(** The order in which [filter] tries the rules. *)
Definition evaluation_order : list Z := [ftUp; ftPaeth; ftNone; ftSub; ftAverage].

(** [before f g]: rule [f] is tried strictly before rule [g]. *)
Definition before (f g : Z) : Prop :=
  exists i j, evaluation_order !! i = Some f /\
              evaluation_order !! j = Some g /\ (i < j)%nat.

(** [written g n bpp best old new s]: starting from the buffer [old], a
    rule whose byte at position [p] is [g p] has left the buffer [new] and
    the sum [s]: the first [j] positions hold the rule's bytes, the others
    are untouched, [s] is the sum over the first [j] bytes, and [j] is the
    row length [n] or the first position after the first pixel at which
    the running sum has reached [best]. *)
Definition written (g : nat -> Z) (n bpp : nat) (best : Z)
    (old new : list Z) (s : Z) : Prop :=
  exists j : nat,
    (bpp <= j <= n)%nat /\ (bpp < n -> bpp < j)%nat /\
    length new = n /\
    (forall p, (p < j)%nat -> new !! p = Some (g p)) /\
    (forall p, (j <= p)%nat -> new !! p = old !! p) /\
    s = sum_from g 0 j /\
    (j = n \/ s >= best) /\
    (forall j', (bpp < j' < j)%nat -> sum_from g 0 j' < best).

(** The full sum of rule [f] on a row, computed without early exit. *)
Definition full_sum (paeth : Z -> Z -> Z -> Z) (cdat0 pdat : list Z)
    (bpp : nat) (f : Z) : Z :=
  sum_abs8 (filtered paeth cdat0 pdat bpp f).

(** The pair (best sum, best rule) after the up rule and the first [k] of
    the later rules have been compared on their full sums [S]. *)
Definition selection (S : Z -> Z) (k : nat) : Z * Z :=
  fold_left (fun bf ft => keep_better (S ft) ft bf)
            (take k [ftPaeth; ftNone; ftSub; ftAverage]) (S ftUp, ftUp).

Arguments selection : simpl never.

(** The buffers [filter] is called with in [writeImage]: the five rows and
    the previous row have one common length, tag byte included, the row
    holds at least one pixel ([bpp] data bytes), and the raw row holds
    bytes. *)
Definition well_sized (cr : Rows) (pr : list Z) (bpp : nat) : Prop :=
  length (cr1 cr) = length (cr0 cr) /\
  length (cr2 cr) = length (cr0 cr) /\
  length (cr3 cr) = length (cr0 cr) /\
  length (cr4 cr) = length (cr0 cr) /\
  length pr = length (cr0 cr) /\
  (bpp < length (cr0 cr))%nat /\
  bytes (cr0 cr).

(** ** Reversing a filter *)

(** Modelled from the spec: the Paeth predictor [paeth], whose source file
    is not among the sources at hand. It picks whichever of left, above and
    upper-left is closest to [left + above - upper-left] by absolute
    difference, with ties broken in the order left, above, upper-left. *)
Definition paeth_predict (left above upleft : Z) : Z :=
  let p := left + above - upleft in
  let pa := Z.abs (p - left) in
  let pb := Z.abs (p - above) in
  let pc := Z.abs (p - upleft) in
  if (pa <=? pb) && (pa <=? pc) then left
  else if pb <=? pc then above
  else upleft.

(** What the reverse of rule [f] adds back to a filtered byte: nothing for
    None, the left byte for Sub, the above byte for Up, the floor of the
    mean of left and above for Average, the Paeth prediction for Paeth. *)
Definition prediction (paeth : Z -> Z -> Z -> Z) (f : Z)
    (left above upleft : Z) : Z :=
  if f =? 0 then 0
  else if f =? 1 then left
  else if f =? 2 then above
  else if f =? 3 then (left + above) / 2
  else paeth left above upleft.

(** The reverse of rule [f], byte by byte from the left: [acc] holds the
    bytes reconstructed so far, [i] is the position of the next filtered
    byte. A neighbour that lies before the start of the row is 0. *)
Fixpoint unfilter_from (paeth : Z -> Z -> Z -> Z) (f : Z) (bpp : nat)
    (prev : list Z) (filt : list Z) (i : nat) (acc : list Z) : list Z :=
  match filt with
  | [] => acc
  | c :: rest =>
      let left := if decide (i < bpp)%nat then 0 else byte_at acc (i - bpp) in
      let above := byte_at prev i in
      let upleft := if decide (i < bpp)%nat then 0 else byte_at prev (i - bpp) in
      unfilter_from paeth f bpp prev rest (S i)
        (acc ++ [uint8 (c + prediction paeth f left above upleft)])
  end.

Definition unfilter (paeth : Z -> Z -> Z -> Z) (f : Z) (bpp : nat)
    (prev filt : list Z) : list Z :=
  unfilter_from paeth f bpp prev filt 0 [].

(** ** The buffers after a call *)

(** [prefix_written full old new bpp best]: the buffer went from [old] to
    [new] by having its first [j] bytes replaced with the first [j] bytes
    of the filtered row [full], where [j] covers at least the first pixel
    (and one more byte when the row is longer than a pixel) and is either
    the whole row or the first position after the first pixel at which
    the sum of the magnitudes written so far has reached [best]. *)
Definition prefix_written (full old new : list Z) (bpp : nat) (best : Z)
    : Prop :=
  exists j : nat,
    (bpp <= j <= length full)%nat /\
    (bpp < length full -> bpp < j)%nat /\
    new = take j full ++ drop j old /\
    (j = length full \/ sum_abs8 (take j full) >= best) /\
    (forall j', (bpp < j' < j)%nat -> sum_abs8 (take j' full) < best).

(** The number of later rules compared before rule [f] is tried. *)
Definition tried_before (f : Z) : nat :=
  if f =? ftPaeth then 0
  else if f =? ftNone then 1
  else if f =? ftSub then 2
  else 3.

(** The best sum when the loop of rule [f] starts, on the full sums [S]. *)
Definition best_before (S : Z -> Z) (f : Z) : Z :=
  (selection S (tried_before f)).1.

(** ** The selection in the words of the specification *)

(** The magnitude of a byte read as a signed 8-bit value, in the words of
    the specification: a byte below 128 counts as itself, any other byte
    [b] as [256 - b]. *)
Definition spec_magnitude (b : Z) : Z := if b <? 128 then b else 256 - b.

(** The sum of the magnitudes of a byte sequence, in those words. *)
Definition spec_sum (row : list Z) : Z :=
  foldr Z.add 0 (map spec_magnitude row).

(** The sum of rule [f] over the whole filtered row, in those words. *)
Definition spec_full_sum (paeth : Z -> Z -> Z -> Z) (cdat0 pdat : list Z)
    (bpp : nat) (f : Z) : Z :=
  spec_sum (filtered paeth cdat0 pdat bpp f).

(** [cut_short full old new bpp best]: how far the loop of a later rule
    went, measured with [spec_sum]. The buffer went from [old] to [new] by
    having its first [j] bytes replaced with the first [j] bytes of the
    filtered row [full]. The bytes of the first pixel are stored without
    any test, and so is the byte after them; the test is made after each
    byte past the first pixel, so that [j] is the whole row or the first
    position past [bpp] at which the sum of the magnitudes stored so far
    has reached [best]. *)
Definition cut_short (full old new : list Z) (bpp : nat) (best : Z)
    : Prop :=
  exists j : nat,
    (bpp <= j <= length full)%nat /\
    (bpp < length full -> bpp < j)%nat /\
    new = take j full ++ drop j old /\
    (j = length full \/ spec_sum (take j full) >= best) /\
    (forall j', (bpp < j' < j)%nat -> spec_sum (take j' full) < best).

(** The claim "a later candidate's partial sum is aborted as soon as it
    meets or exceeds the current best", for one call of [filter]: the
    buffer of a later rule holds a prefix of the rule's bytes, and no byte
    was stored after one at which the partial sum had met the best sum. *)
Definition aborted_as_soon_as (paeth : Z -> Z -> Z -> Z) (cr : Rows)
    (pr : list Z) (bpp : nat) : Prop :=
  let S := spec_full_sum paeth (tail (cr0 cr)) (tail pr) bpp in
  let full := filtered paeth (tail (cr0 cr)) (tail pr) bpp in
  forall cr' f, filter paeth cr pr bpp = Some (cr', f) ->
  forall k, k ∈ [ftSub; ftAverage; ftPaeth] ->
  exists j : nat,
    (j <= length (full k))%nat /\
    tail (row_of cr' k) = take j (full k) ++ drop j (tail (row_of cr k)) /\
    (forall j', (0 < j' < j)%nat ->
       spec_sum (take j' (full k)) < best_before S k).

(** A row of two 2-byte pixels, each byte one above the byte over it,
    with stale bytes (7) in the four candidate buffers. *)
Definition late_rows : Rows :=
  mkRows [0; 100; 100; 100; 100] [1; 7; 7; 7; 7] [2; 7; 7; 7; 7]
         [3; 7; 7; 7; 7] [4; 7; 7; 7; 7].

Definition late_prev : list Z := [0; 99; 99; 99; 99].

(** The claim "every candidate buffer is overwritten in full", for one
    call of [filter]. *)
Definition overwritten_in_full (paeth : Z -> Z -> Z -> Z) (cr : Rows)
    (pr : list Z) (bpp : nat) : Prop :=
  forall cr' f, filter paeth cr pr bpp = Some (cr', f) ->
  forall k, k ∈ [ftSub; ftUp; ftAverage; ftPaeth] ->
    tail (row_of cr' k) = filtered paeth (tail (cr0 cr)) (tail pr) bpp k.

(** A row of three bytes equal to the row above it, one byte per pixel,
    with stale bytes (7) in the four candidate buffers. *)
Definition stale_rows : Rows :=
  mkRows [0; 10; 20; 30] [1; 7; 7; 7] [2; 7; 7; 7] [3; 7; 7; 7] [4; 7; 7; 7].

Definition stale_prev : list Z := [0; 10; 20; 30].

(** A row of two 2-byte pixels below a different row. *)
Definition sample_rows : Rows :=
  mkRows [0; 200; 3; 190; 250] [1; 0; 0; 0; 0] [2; 0; 0; 0; 0]
         [3; 0; 0; 0; 0] [4; 0; 0; 0; 0].

Definition sample_prev : list Z := [0; 1; 2; 3; 4].

(* ================================================================== *)
(** * Chunk framing *)

(** A Go [error] value. *)
Inductive error : Type := mkError (code : nat).

(** [io.Writer]. A writer is modelled by what it answers to a call of
    [Write], as a function of the slices it was handed before (the call
    log) and of the slice it is handed now: the number of bytes it reports
    written and an optional error. The state threaded through the code is
    the call log itself, so that every call of [Write] is visible. *)
Definition Writer : Type := list (list Z) -> list Z -> Z * option error.

Definition Write (w : Writer) (log : list (list Z)) (p : list Z)
    : (Z * option error) * list (list Z) :=
  (w log p, log ++ [p]).

(** Big-endian. [b[0] = uint8(u >> 24); ...; b[3] = uint8(u >> 0)]. *)
Definition writeUint32 (b : list Z) (u : Z) : option (list Z) :=
  b ← store b 0 (uint8 (Z.shiftr u 24));
  b ← store b 1 (uint8 (Z.shiftr u 16));
  b ← store b 2 (uint8 (Z.shiftr u 8));
  store b 3 (uint8 (Z.shiftr u 0)).

(** Big-endian. [b[0] = uint8(u >> 8); b[1] = uint8(u >> 0)]. *)
Definition writeUint16 (b : list Z) (u : Z) : option (list Z) :=
  b ← store b 0 (uint8 (Z.shiftr u 8));
  store b 1 (uint8 (Z.shiftr u 0)).

(** ** CRC-32 (IEEE), as in Go's [hash/crc32]

    The package is part of Go's standard library; this is its byte-wise
    table algorithm for the reversed polynomial [0xedb88320]. *)

Definition crc32_poly : Z := 0xedb88320.

(** One entry of the table: eight shift-and-conditionally-xor steps. *)
Definition crc32_table_entry (i : Z) : Z :=
  Nat.iter 8 (fun crc =>
                if Z.testbit crc 0
                then Z.lxor (Z.shiftr crc 1) crc32_poly
                else Z.shiftr crc 1) i.

Definition crc32_table : list Z :=
  Eval vm_compute in map (fun i => crc32_table_entry (Z.of_nat i)) (seq 0 256).

Definition crc32_not (crc : Z) : Z := Z.lxor crc 0xffffffff.

(** [update(crc, tab, p)]: [crc = ^crc; for v in p { crc = tab[byte(crc)^v]
    ^ (crc >> 8) }; return ^crc]. *)
Definition crc32_update (crc : Z) (p : list Z) : Z :=
  crc32_not
    (fold_left
       (fun crc v =>
          Z.lxor (byte_at crc32_table (Z.to_nat (Z.lxor (uint8 crc) v)))
                 (Z.shiftr crc 8))
       p (crc32_not crc)).

(** [crc32.ChecksumIEEE(p)]. *)
Definition crc32_ChecksumIEEE (p : list Z) : Z := crc32_update 0 p.

(** [header[lo:hi]] on a fixed-size array. *)
Definition slice (b : list Z) (lo hi : nat) : list Z := take (hi - lo) (drop lo b).

(** [writeChunkTo(name, b, w)]. The result is [None] when the code panics
    (a name shorter than four bytes), and otherwise the returned byte count
    and error together with the call log of the writer. *)
Definition writeChunkTo (name : list Z) (b : list Z) (w : Writer)
    (log : list (list Z)) : option ((Z * option error) * list (list Z)) :=
  let header := replicate 8 0 in
  let footer := replicate 4 0 in
  header ← writeUint32 header (uint32 (Z.of_nat (length b)));
  n0 ← index name 0; header ← store header 4 n0;
  n1 ← index name 1; header ← store header 5 n1;
  n2 ← index name 2; header ← store header 6 n2;
  n3 ← index name 3; header ← store header 7 n3;
  let crc := 0 in                               (* crc32.NewIEEE() *)
  let crc := crc32_update crc (slice header 4 8) in  (* crc.Write(header[4:8]) *)
  let crc := crc32_update crc b in              (* crc.Write(b) *)
  footer ← writeUint32 footer crc;              (* crc.Sum32() *)
  let '((hl, err), log) := Write w log (slice header 0 8) in
  match err with
  | Some e => Some ((hl, Some e), log)
  | None =>
      let '((bl, err), log) := Write w log b in
      match err with
      | Some e => Some ((hl + bl, Some e), log)
      | None =>
          let '((fl, err), log) := Write w log (slice footer 0 4) in
          Some ((hl + bl + fl, err), log)
      end
  end.

(** The big-endian encoding of a 32-bit value, by division. *)
Definition be32 (u : Z) : list Z :=
  [u / 2 ^ 24 mod 256; u / 2 ^ 16 mod 256; u / 2 ^ 8 mod 256; u mod 256].

(** The value a reader of the format decodes from four big-endian bytes. *)
Definition be32_decode (l : list Z) : Z :=
  fold_left (fun acc d => acc * 256 + d) l 0.

(** The bytes of one chunk on the wire. *)
Definition chunk_bytes (tag payload : list Z) : list Z :=
  be32 (Z.of_nat (length payload)) ++ tag ++ payload
  ++ be32 (crc32_ChecksumIEEE (tag ++ payload)).

(** A writer that accepts everything, like [bytes.Buffer]. *)
Definition buffer_writer : Writer :=
  fun _ p => (Z.of_nat (length p), None).

(** A writer with room for [room] bytes in all: a call that does not fit
    writes what fits and fails. *)
Definition limited_writer (room : nat) : Writer :=
  fun log p =>
    let used := length (concat log) in
    if decide (used + length p <= room)%nat then (Z.of_nat (length p), None)
    else (Z.of_nat (room - used), Some (mkError 28)).

(* ================================================================== *)
(** * The header and the pixel layouts *)

(** [CompressionLevel] and its constants. *)
Definition DefaultCompression : Z := 0.

Definition NoCompression : Z := -1.

Definition BestSpeed : Z := -2.

Definition BestCompression : Z := -3.

(** [CompressionLevel.zlib]: the level handed to [zlib.NewWriterLevel]
    ([zlib.DefaultCompression] is -1, [zlib.NoCompression] 0,
    [zlib.BestSpeed] 1, [zlib.BestCompression] 9). *)
Definition CompressionLevel_zlib (l : Z) : Z :=
  if l =? DefaultCompression then -1
  else if l =? NoCompression then 0
  else if l =? BestSpeed then 1
  else if l =? BestCompression then 9
  else -1.

Definition ColorType_Grayscale : Z := 0.

Definition ColorType_TrueColor : Z := 2.

Definition ColorType_Paletted : Z := 3.

Definition ColorType_GrayscaleAlpha : Z := 4.

Definition ColorType_TrueColorAlpha : Z := 6.

Definition BitDepth_1 : Z := 1.

Definition BitDepth_2 : Z := 2.

Definition BitDepth_4 : Z := 4.

Definition BitDepth_8 : Z := 8.

Definition BitDepth_16 : Z := 16.

(** [Chunk_IHDR]. *)
Record Chunk_IHDR : Type := mkIHDR {
  Width : Z;
  Height : Z;
  BitDepth : Z;
  ColorType : Z;
  CompressionMethod : Z;
  FilterMethod : Z;
  InterlaceMethod : Z
}.

(** A cb is a combination of color type and bit depth ([iota] order). *)
Definition cbInvalid : Z := 0.

Definition cbG1 : Z := 1.

Definition cbG2 : Z := 2.

Definition cbG4 : Z := 3.

Definition cbG8 : Z := 4.

Definition cbGA8 : Z := 5.

Definition cbTC8 : Z := 6.

Definition cbP1 : Z := 7.

Definition cbP2 : Z := 8.

Definition cbP4 : Z := 9.

Definition cbP8 : Z := 10.

Definition cbTCA8 : Z := 11.

Definition cbG16 : Z := 12.

Definition cbGA16 : Z := 13.

Definition cbTC16 : Z := 14.

Definition cbTCA16 : Z := 15.

(** [Chunk_IHDR.cb]. *)
Definition cb (c : Chunk_IHDR) : Z :=
  if (ColorType c =? ColorType_Grayscale) && (BitDepth c =? BitDepth_8)
  then cbG8
  else if (ColorType c =? ColorType_TrueColor) && (BitDepth c =? BitDepth_8)
  then cbTC8
  else if (ColorType c =? ColorType_Paletted) && (BitDepth c =? BitDepth_8)
  then cbP8
  else if (ColorType c =? ColorType_TrueColorAlpha) && (BitDepth c =? BitDepth_8)
  then cbTCA8
  else if (ColorType c =? ColorType_TrueColor) && (BitDepth c =? BitDepth_16)
  then cbTC16
  else if (ColorType c =? ColorType_TrueColorAlpha) && (BitDepth c =? BitDepth_16)
  then cbTCA16
  else if (ColorType c =? ColorType_Grayscale) && (BitDepth c =? BitDepth_16)
  then cbG16
  else cbInvalid.

(** The seven supported (color type, bit depth) pairs. *)
Definition supported_pairs : list (Z * Z) :=
  [(ColorType_Grayscale, BitDepth_8); (ColorType_TrueColor, BitDepth_8);
   (ColorType_Paletted, BitDepth_8); (ColorType_TrueColorAlpha, BitDepth_8);
   (ColorType_TrueColor, BitDepth_16); (ColorType_TrueColorAlpha, BitDepth_16);
   (ColorType_Grayscale, BitDepth_16)].

Definition supported (c : Chunk_IHDR) : Prop :=
  (ColorType c, BitDepth c) ∈ supported_pairs.

(** Bytes per pixel, the first [switch] of [writeImage]. *)
Definition bytes_per_pixel (cb : Z) : nat :=
  if cb =? cbG8 then 1
  else if cb =? cbTC8 then 3
  else if cb =? cbP8 then 1
  else if cb =? cbTCA8 then 4
  else if cb =? cbTC16 then 6
  else if cb =? cbTCA16 then 8
  else if cb =? cbG16 then 2
  else 0.

(** ** Colors and images, as in Go's [image] and [image/color]

    These packages belong to Go's standard library. A color is one of the
    concrete color types the encoder can meet, or any other color, known
    through the alpha-premultiplied 16-bit channels its [RGBA] method
    returns. *)
Inductive Color : Type :=
  | Gray (y : Z)
  | Gray16 (y : Z)
  | RGBA (r g b a : Z)
  | NRGBA (r g b a : Z)
  | NRGBA64 (r g b a : Z)
  | OtherColor (r g b a : Z).

(** [Color.RGBA()]. *)
Definition Color_RGBA (c : Color) : Z * Z * Z * Z :=
  match c with
  | Gray y => let y := Z.lor y (Z.shiftl y 8) in (y, y, y, 0xffff)
  | Gray16 y => (y, y, y, 0xffff)
  | RGBA r g b a =>
      (Z.lor r (Z.shiftl r 8), Z.lor g (Z.shiftl g 8),
       Z.lor b (Z.shiftl b 8), Z.lor a (Z.shiftl a 8))
  | NRGBA r g b a =>
      let pre v := uint32 (Z.lor v (Z.shiftl v 8) * a) / 0xff in
      (pre r, pre g, pre b, Z.lor a (Z.shiftl a 8))
  | NRGBA64 r g b a =>
      let pre v := uint32 (v * a) / 0xffff in
      (pre r, pre g, pre b, a)
  | OtherColor r g b a => (r, g, b, a)
  end.

(** [color.GrayModel.Convert(c).(color.Gray).Y]. *)
Definition GrayModel_Y (c : Color) : Z :=
  match c with
  | Gray y => y
  | _ =>
      let '(r, g, b, _) := Color_RGBA c in
      uint8 (Z.shiftr (uint32 (19595 * r + 38470 * g + 7471 * b + 2 ^ 15)) 24)
  end.

(** [color.Gray16Model.Convert(c).(color.Gray16).Y]. *)
Definition Gray16Model_Y (c : Color) : Z :=
  match c with
  | Gray16 y => y
  | _ =>
      let '(r, g, b, _) := Color_RGBA c in
      Z.shiftr (uint32 (19595 * r + 38470 * g + 7471 * b + 2 ^ 15)) 16 mod 2 ^ 16
  end.

(** [color.NRGBAModel.Convert(c).(color.NRGBA)], as (R, G, B, A). *)
Definition NRGBAModel_Convert (c : Color) : Z * Z * Z * Z :=
  match c with
  | NRGBA r g b a => (r, g, b, a)
  | _ =>
      let '(r, g, b, a) := Color_RGBA c in
      if a =? 0xffff then
        (uint8 (Z.shiftr r 8), uint8 (Z.shiftr g 8), uint8 (Z.shiftr b 8), 0xff)
      else if a =? 0 then (0, 0, 0, 0)
      else
        let un v := uint32 (v * 0xffff) / a in
        (uint8 (Z.shiftr (un r) 8), uint8 (Z.shiftr (un g) 8),
         uint8 (Z.shiftr (un b) 8), uint8 (Z.shiftr a 8))
  end.

(** [color.NRGBA64Model.Convert(c).(color.NRGBA64)], as (R, G, B, A). *)
Definition NRGBA64Model_Convert (c : Color) : Z * Z * Z * Z :=
  match c with
  | NRGBA64 r g b a => (r, g, b, a)
  | _ =>
      let '(r, g, b, a) := Color_RGBA c in
      if a =? 0xffff then (r mod 2 ^ 16, g mod 2 ^ 16, b mod 2 ^ 16, 0xffff)
      else if a =? 0 then (0, 0, 0, 0)
      else
        let un v := uint32 (v * 0xffff) / a in
        (un r mod 2 ^ 16, un g mod 2 ^ 16, un b mod 2 ^ 16, a mod 2 ^ 16)
  end.

(** [image.Rectangle]. *)
Record Rectangle : Type := mkRect { MinX : Z; MinY : Z; MaxX : Z; MaxY : Z }.

Definition Dx (r : Rectangle) : Z := MaxX r - MinX r.

Definition Dy (r : Rectangle) : Z := MaxY r - MinY r.

(** The images [writeImage] tells apart with its type assertions: the four
    concrete types with native storage ([Pix], [Stride], [Rect]), and any
    other implementation of [image.Image], given by its [At] method and,
    when it implements [image.PalettedImage], its [ColorIndexAt] method. *)
Inductive Image : Type :=
  | ImageGray (pix : list Z) (stride : Z) (rect : Rectangle)
  | ImageRGBA (pix : list Z) (stride : Z) (rect : Rectangle)
  | ImagePaletted (pix : list Z) (stride : Z) (rect : Rectangle)
      (palette : list Color)
  | ImageNRGBA (pix : list Z) (stride : Z) (rect : Rectangle)
  | ImageOther (rect : Rectangle) (at_ : Z -> Z -> option Color)
      (color_index_at : option (Z -> Z -> Z)).

Definition Bounds (m : Image) : Rectangle :=
  match m with
  | ImageGray _ _ r | ImageRGBA _ _ r | ImagePaletted _ _ r _
  | ImageNRGBA _ _ r | ImageOther r _ _ => r
  end.

(** [(Point{x, y}).In(r)]. *)
Definition point_in (x y : Z) (r : Rectangle) : bool :=
  (MinX r <=? x) && (x <? MaxX r) && (MinY r <=? y) && (y <? MaxY r).

(** A slice indexed by a Go [int]. *)
Definition index_int (b : list Z) (i : Z) : option Z :=
  if i <? 0 then None else b !! Z.to_nat i.

(** [b[lo:hi]] with Go's checks (the capacity of a pixel slice is taken
    to be its length). *)
Definition slice_int (b : list Z) (lo hi : Z) : option (list Z) :=
  if (0 <=? lo) && (lo <=? hi) && (hi <=? Z.of_nat (length b))
  then Some (take (Z.to_nat (hi - lo)) (drop (Z.to_nat lo) b))
  else None.

(** [m.At(x, y)]; [None] stands for a panic. For the native types a point
    outside the rectangle gives the zero color. *)
Definition At (m : Image) (x y : Z) : option Color :=
  match m with
  | ImageGray pix stride r =>
      if point_in x y r then
        v ← index_int pix ((y - MinY r) * stride + (x - MinX r) * 1);
        Some (Gray v)
      else Some (Gray 0)
  | ImageRGBA pix stride r =>
      if point_in x y r then
        let i := (y - MinY r) * stride + (x - MinX r) * 4 in
        s ← slice_int pix i (i + 4);
        Some (RGBA (byte_at s 0) (byte_at s 1) (byte_at s 2) (byte_at s 3))
      else Some (RGBA 0 0 0 0)
  | ImagePaletted pix stride r palette =>
      if decide (length palette = 0)%nat then None
      else if point_in x y r then
        v ← index_int pix ((y - MinY r) * stride + (x - MinX r) * 1);
        palette !! Z.to_nat v
      else palette !! 0%nat
  | ImageNRGBA pix stride r =>
      if point_in x y r then
        let i := (y - MinY r) * stride + (x - MinX r) * 4 in
        s ← slice_int pix i (i + 4);
        Some (NRGBA (byte_at s 0) (byte_at s 1) (byte_at s 2) (byte_at s 3))
      else Some (NRGBA 0 0 0 0)
  | ImageOther _ at_ _ => at_ x y
  end.

(** ** [writeImage] *)

(** [make([]uint8, n)]; a negative length panics. *)
Definition make (n : Z) : option (list Z) :=
  if n <? 0 then None else Some (replicate (Z.to_nat n) 0).

(** [copy(dst, src)]: the first [min(len(dst), len(src))] bytes. *)
Definition copy (dst src : list Z) : list Z :=
  take (length dst) src ++ drop (length src) dst.

(** [copy(cr0[1:], src)] on the whole buffer [cr0]. *)
Definition copy_from1 (cr0 src : list Z) : option (list Z) :=
  '(t, d) ← slice_from1 cr0; Some (t :: copy d src).

(** [for x := b.Min.X; x < b.Max.X; x++ { body }], with a state. *)
Fixpoint for_each {A S : Type} (body : A -> S -> option S) (xs : list A)
    (s : S) : option S :=
  match xs with
  | [] => Some s
  | x :: xs' => s' ← body x s; for_each body xs' s'
  end.

(** The values [lo, lo + step, ...] below [lo + step * n]. *)
Definition steps (lo step n : Z) : list Z :=
  map (fun k => lo + step * Z.of_nat k) (seq 0 (Z.to_nat n)).

(** [cr0[i+0] = v0; cr0[i+1] = v1; ...; i += len(vs)]. *)
Definition put_pixel (vs : list Z) (s : list Z * nat) : option (list Z * nat) :=
  cr0 ← for_each (fun '(k, v) cr0 => store cr0 (s.2 + k) v)
                 (imap (fun k v => (k, v)) vs) s.1;
  Some (cr0, (s.2 + length vs)%nat).

(** The generic per-pixel loop: sample [m.At(x, y)], convert it with
    [conv] to the bytes of one pixel, store them. *)
Definition sample_row (m : Image) (y : Z) (conv : Color -> list Z)
    (cr0 : list Z) : option (list Z) :=
  let b := Bounds m in
  s ← for_each (fun x s => c ← At m x y; put_pixel (conv c) s)
               (steps (MinX b) 1 (Dx b)) (cr0, 1%nat);
  Some s.1.

(** "Convert from colors to bytes": the [switch cb] in the row loop of
    [writeImage], as a function from [cr[0]] to [cr[0]]. *)
Definition convert_row (m : Image) (cb : Z) (y : Z) (cr0 : list Z)
    : option (list Z) :=
  let b := Bounds m in
  if cb =? cbG8 then
    match m with
    | ImageGray pix stride _ =>
        let offset := (y - MinY b) * stride in
        src ← slice_int pix offset (offset + Dx b);
        copy_from1 cr0 src
    | _ => sample_row m y (fun c => [GrayModel_Y c]) cr0
    end
  else if cb =? cbTC8 then
    let '(stride, pix) :=
      match m with
      | ImageRGBA pix stride _ => (stride, pix)
      | ImageNRGBA pix stride _ => (stride, pix)
      | _ => (0, [])
      end in
    if negb (stride =? 0) then
      let j0 := (y - MinY b) * stride in
      s ← for_each
            (fun j s =>
               p0 ← index_int pix (j + 0);
               p1 ← index_int pix (j + 1);
               p2 ← index_int pix (j + 2);
               put_pixel [p0; p1; p2] s)
            (steps j0 4 (Dx b)) (cr0, 1%nat);
      Some s.1
    else
      sample_row m y
        (fun c => let '(r, g, b, _) := Color_RGBA c in
                  [uint8 (Z.shiftr r 8); uint8 (Z.shiftr g 8);
                   uint8 (Z.shiftr b 8)]) cr0
  else if cb =? cbP8 then
    match m with
    | ImagePaletted pix stride _ _ =>
        let offset := (y - MinY b) * stride in
        src ← slice_int pix offset (offset + Dx b);
        copy_from1 cr0 src
    | ImageOther _ _ (Some color_index_at) =>
        s ← for_each (fun x s => put_pixel [color_index_at x y] s)
                     (steps (MinX b) 1 (Dx b)) (cr0, 1%nat);
        Some s.1
    | _ => None
    end
  else if cb =? cbTCA8 then
    match m with
    | ImageNRGBA pix stride _ =>
        let offset := (y - MinY b) * stride in
        src ← slice_int pix offset (offset + Dx b * 4);
        copy_from1 cr0 src
    | _ =>
        sample_row m y
          (fun c => let '(r, g, b, a) := NRGBAModel_Convert c in [r; g; b; a])
          cr0
    end
  else if cb =? cbG16 then
    sample_row m y
      (fun c => let y := Gray16Model_Y c in [uint8 (Z.shiftr y 8); uint8 y])
      cr0
  else if cb =? cbTC16 then
    sample_row m y
      (fun c => let '(r, g, b, _) := Color_RGBA c in
                [uint8 (Z.shiftr r 8); uint8 r; uint8 (Z.shiftr g 8); uint8 g;
                 uint8 (Z.shiftr b 8); uint8 b]) cr0
  else if cb =? cbTCA16 then
    sample_row m y
      (fun c => let '(r, g, b, a) := NRGBA64Model_Convert c in
                [uint8 (Z.shiftr r 8); uint8 r; uint8 (Z.shiftr g 8); uint8 g;
                 uint8 (Z.shiftr b 8); uint8 b; uint8 (Z.shiftr a 8); uint8 a])
      cr0
  else Some cr0.

(** The generic branch of the [cbTCA8] case, taken for any image that is
    not an [*image.NRGBA]: sample each pixel, convert it to
    non-premultiplied RGBA, emit R, G, B, A. *)
Definition convert_row_TCA8_generic (m : Image) (y : Z) (cr0 : list Z)
    : option (list Z) :=
  sample_row m y
    (fun c => let '(r, g, b, a) := NRGBAModel_Convert c in [r; g; b; a]) cr0.

(** [cr[f] = row]. *)
Definition set_cr0 (cr : Rows) (row : list Z) : Rows :=
  mkRows row (cr1 cr) (cr2 cr) (cr3 cr) (cr4 cr).

Section WriteImage.

Variable paeth : Z -> Z -> Z -> Z.

(** The destination [w io.Writer] of [writeImage], with its state: the
    call returns the new state and the error ([writeImage] ignores the
    byte count). *)
Context {W : Type}.
Variable w_Write : W -> list Z -> W * option error.

(** The body of the row loop, from a state (row buffers, previous row,
    writer) to the next one; [inl e] is [return err]. *)
Definition write_row (m : Image) (cb : Z) (applyFilter : bool) (bpp : nat)
    (y : Z) (s : Rows * list Z * W) : option (W * error + Rows * list Z * W) :=
  let '(cr, pr, w) := s in
  (* Convert from colors to bytes. *)
  row ← convert_row m cb y (cr0 cr);
  let cr := set_cr0 cr row in
  (* Apply the filter. *)
  '(cr, f) ← (if applyFilter then filter paeth cr pr bpp
              else Some (cr, ftNone));
  (* Write the compressed bytes. *)
  let '(w, err) := w_Write w (row_of cr f) in
  match err with
  | Some e => Some (inl (w, e))
  | None =>
      (* The current row for y is the previous row for y+1. *)
      Some (inr (set_cr0 cr pr, cr0 cr, w))
  end.

Fixpoint row_loop (m : Image) (cb : Z) (applyFilter : bool) (bpp : nat)
    (ys : list Z) (s : Rows * list Z * W) : option (W * option error) :=
  match ys with
  | [] => Some (s.2, None)
  | y :: ys' =>
      r ← write_row m cb applyFilter bpp y s;
      match r with
      | inl (w, e) => Some (w, Some e)
      | inr s' => row_loop m cb applyFilter bpp ys' s'
      end
  end.

(** [cr[i] = make([]uint8, 1+bpp*b.Dx()); cr[i][0] = uint8(i)]. *)
Definition make_row (bpp : nat) (b : Rectangle) (i : Z) : option (list Z) :=
  r ← make (1 + Z.of_nat bpp * Dx b); store r 0 (uint8 i).

(** [writeImage(w, m, cb, applyFilter)]: the final state of the writer and
    the returned error, or [None] for a panic. *)
Definition writeImage (w : W) (m : Image) (cb : Z) (applyFilter : bool)
    : option (W * option error) :=
  let bpp := bytes_per_pixel cb in
  let b := Bounds m in
  c0 ← make_row bpp b 0;
  c1 ← make_row bpp b 1;
  c2 ← make_row bpp b 2;
  c3 ← make_row bpp b 3;
  c4 ← make_row bpp b 4;
  pr ← make (1 + Z.of_nat bpp * Dx b);
  row_loop m cb applyFilter bpp (steps (MinY b) 1 (Dy b))
           (mkRows c0 c1 c2 c3 c4, pr, w).

End WriteImage.

(* ================================================================== *)
(** * The streaming pipeline *)

(** [atom]: one hand-off from the background task to the consumer.
    [atomWriter.Write] sends the slice it is handed, not a copy of it: the
    [buf] of an atom shares its bytes with the buffer of its sender (the
    [bufio.Writer], or the coder when a write goes through), and the
    sender fills that buffer again once the receive has happened. An
    [atom] records the slice at the time of the send: its length, which
    stays, and its bytes, which a later read of [e.a.buf] need not find.
    What is said of the chunks a consumer reads is said of their number
    and lengths only. *)
Record atom : Type := mkAtom { buf : list Z; err : option error }.

(** ** The entropy coder and its buffered sink

    [compress/zlib] and [bufio] belong to Go's standard library. A coder
    is known here through what it does to the writer under it:
    [coder_new level] is [zlib.NewWriterLevel], which fails on a level it
    does not know; [coder_write] is [Write], which answers with the slices
    it writes to the writer under it and with an error or none;
    [coder_close] is [Close], which writes what is needed to end the
    compressed stream. *)
Record Coder : Type := mkCoder {
  coder_state : Type;
  coder_new : Z -> error + coder_state;
  coder_write : coder_state -> list Z -> coder_state * list (list Z) * option error;
  coder_close : coder_state -> list (list Z)
}.

(** The size of the [bufio.Writer]: [1<<15]. *)
Definition unit_size : nat := 2 ^ 15.

Arguments unit_size : simpl never.

(** [atomWriter.Write(b)]: [aw <- &atom{buf: b}]; the slice is sent as it
    is, without a copy. *)
Definition atomWriter_Write (sent : list atom) (b : list Z) : list atom :=
  sent ++ [mkAtom b None].

(** [bufio.Writer.Write(p)] over an [atomWriter], which never fails; the
    state is the buffered bytes and the atoms sent so far. A slice that
    fits is buffered. A slice that does not fit is written through when
    the buffer is empty; otherwise the buffer is filled up and flushed,
    and the rest of the slice is treated in the same way. *)
Definition bufio_Write (s : list Z * list atom) (p : list Z)
    : list Z * list atom :=
  let '(pending, sent) := s in
  let available := (unit_size - length pending)%nat in
  if decide (length p <= available)%nat then (pending ++ p, sent)
  else if decide (length pending = 0)%nat then ([], atomWriter_Write sent p)
  else
    let sent := atomWriter_Write sent (pending ++ take available p) in
    let p := drop available p in
    if decide (length p <= unit_size)%nat then (p, sent)
    else ([], atomWriter_Write sent p).

(** [bufio.Writer.Flush()]. *)
Definition bufio_Flush (s : list Z * list atom) : list Z * list atom :=
  let '(pending, sent) := s in
  if decide (length pending = 0)%nat then s
  else ([], atomWriter_Write sent pending).

(** ** The background task *)

(** How the goroutine of an encoder ends: with [close(aw)], by returning
    without closing the channel, or by a panic. *)
Inductive Ending : Type := Closes | Returns | Panics.

(** What a goroutine does on its channel from now on: the atoms it still
    sends, in order, and how it ends. The channel is unbuffered and has
    one receiver, so the receiver sees exactly these atoms in this
    order. *)
Record Task : Type := mkTask { sends : list atom; ending : Ending }.

(** The goroutines started so far; goroutine [i] owns channel [i]. *)
Abbreviation Runtime := (list Task) (only parsing).

Section Pipeline.

Variable paeth : Z -> Z -> Z -> Z.
Variable coder : Coder.

(** The state behind the [z] of the goroutine: the coder, the bytes in
    the [bufio.Writer] and the atoms sent. *)
Definition Sink : Type := (coder_state coder * (list Z * list atom))%type.

(** [z.Write(row)]. *)
Definition z_Write (s : Sink) (row : list Z) : Sink * option error :=
  let '(z, b) := s in
  let '(z, outs, e) := coder_write coder z row in
  ((z, fold_left bufio_Write outs b), e).

(** The body of the goroutine of [NewEncoder_IDAT]. *)
Definition goroutine (c : Chunk_IHDR) (m : Image) (cl : Z) : Task :=
  match coder_new coder (CompressionLevel_zlib cl) with
  | inl e =>
      (* aw <- &atom{err: err}; return *)
      mkTask [mkAtom [] (Some e)] Returns
  | inr z =>
      (* defer close(aw) *)
      match writeImage paeth z_Write (z, ([], [])) m (cb c)
                       (negb (cl =? NoCompression)) with
      | None => mkTask [] Panics
      | Some ((_, (_, sent)), Some e) =>
          (* aw <- &atom{err: err}; return *)
          mkTask (sent ++ [mkAtom [] (Some e)]) Closes
      | Some ((_, (_, sent)), None) => mkTask sent Closes
      end
  end.

(** [Encoder_IDAT]: the channel and the current atom ([nil] at first). *)
Record Encoder_IDAT : Type := mkEncoder_IDAT { aw : nat; a : option atom }.

(** [Chunk_IHDR.NewEncoder_IDAT]: make the channel, start the goroutine,
    return the encoder. *)
Definition NewEncoder_IDAT (c : Chunk_IHDR) (m : Image) (cl : Z)
    (rt : Runtime) : Encoder_IDAT * Runtime :=
  (mkEncoder_IDAT (length rt) None, rt ++ [goroutine c m cl]).

End Pipeline.

(** A receive on channel [ch]. *)
Inductive Received : Type :=
  | Got (x : atom) (rt : Runtime)   (* a value, [ok] true *)
  | ChannelClosed                   (* the zero value, [ok] false *)
  | BlocksForever
  | ProgramPanics.

Definition receive (rt : Runtime) (ch : nat) : Received :=
  match rt !! ch with
  | None => BlocksForever
  | Some t =>
      match sends t with
      | x :: rest => Got x (<[ch := mkTask rest (ending t)]> rt)
      | [] =>
          match ending t with
          | Closes => ChannelClosed
          | Returns => BlocksForever
          | Panics => ProgramPanics
          end
      end
  end.

(** [Encoder_IDAT.Err]. *)
Definition Encoder_IDAT_Err (e : Encoder_IDAT) : option error :=
  match a e with
  | Some x => err x
  | None => None
  end.

(** The outcome of a call that may receive from a channel. *)
Inductive Outcome (A : Type) : Type :=
  | Returned (r : A) (e : Encoder_IDAT) (rt : Runtime)
  | Blocked
  | Panicked.

Arguments Returned {A} r e rt.

Arguments Blocked {A}.

Arguments Panicked {A}.

(** [Encoder_IDAT.Next]. *)
Definition Encoder_IDAT_Next (e : Encoder_IDAT) (rt : Runtime) : Outcome bool :=
  if bool_decide (Encoder_IDAT_Err e <> None) then Returned false e rt
  else
    match receive rt (aw e) with
    | Got x rt' => Returned true (mkEncoder_IDAT (aw e) (Some x)) rt'
    | ChannelClosed => Returned false (mkEncoder_IDAT (aw e) None) rt
    | BlocksForever => Blocked
    | ProgramPanics => Panicked
    end.

(** [Encoder_IDAT.Chunk]: [Chunk_IDAT(e.a.buf)]; a nil [e.a] panics. *)
Definition Encoder_IDAT_Chunk (e : Encoder_IDAT) : option (list Z) :=
  x ← a e; Some (buf x).

(** ** Sequence numbers *)

(** The [SequenceNumbers] values allocated so far; a [*SequenceNumbers]
    is an index into this store. *)
Abbreviation SeqStore := (list Z) (only parsing).

(** [NewSequenceNumbers]. *)
Definition NewSequenceNumbers (h : SeqStore) : nat * SeqStore :=
  (length h, h ++ [0]).

(** [SequenceNumbers.Next]: read the counter as a [uint32], increment it
    (with wrap-around), return the value read. *)
Definition SequenceNumbers_Next (s : nat) (h : SeqStore)
    : option (Z * SeqStore) :=
  v ← h !! s; Some (uint32 v, <[s := uint32 (v + 1)]> h).

(** [Chunk_fdAT]. *)
Record Chunk_fdAT : Type := mkChunk_fdAT {
  SequenceNumber : Z;
  Chunk_IDAT : list Z
}.

(** [Encoder_fdAT]; the field [seq] is [seq_] here ([seq] is a list
    function). *)
Record Encoder_fdAT : Type := mkEncoder_fdAT {
  seq_ : nat;
  encoder_IDAT : Encoder_IDAT
}.

(** [Chunk_IHDR.NewEncoder_fdAT]: the encoder shares the counter [seq]
    with its caller. *)
Definition NewEncoder_fdAT (paeth : Z -> Z -> Z -> Z) (coder : Coder)
    (c : Chunk_IHDR) (seq : nat) (m : Image) (cl : Z) (rt : Runtime)
    : Encoder_fdAT * Runtime :=
  let started := NewEncoder_IDAT paeth coder c m cl rt in
  (mkEncoder_fdAT seq started.1, started.2).

(** [Encoder_fdAT.Next]: [e.encoder_IDAT.Next()]; the encoder in the
    outcome is the [encoder_IDAT] field after the call. *)
Definition Encoder_fdAT_Next (e : Encoder_fdAT) (rt : Runtime) : Outcome bool :=
  Encoder_IDAT_Next (encoder_IDAT e) rt.

(** [Encoder_fdAT.Err]: [e.encoder_IDAT.Err()]. *)
Definition Encoder_fdAT_Err (e : Encoder_fdAT) : option error :=
  Encoder_IDAT_Err (encoder_IDAT e).

(** [Encoder_fdAT.Chunk]. *)
Definition Encoder_fdAT_Chunk (e : Encoder_fdAT) (h : SeqStore)
    : option (Chunk_fdAT * SeqStore) :=
  '(n, h) ← SequenceNumbers_Next (seq_ e) h;
  c ← Encoder_IDAT_Chunk (encoder_IDAT e);
  Some (mkChunk_fdAT n c, h).

(** ** One session of draws *)

(** A draw from a sequence counter: for a frame-control chunk
    ([SequenceNumber: seq.Next()]) or by materializing a frame-data chunk
    ([Encoder_fdAT.Chunk]). *)
Inductive Draw : Type :=
  | DrawFcTL (s : nat)
  | DrawFdAT (e : Encoder_fdAT).

(** The sequence number a draw consumes. *)
Definition draw (d : Draw) (h : SeqStore) : option (Z * SeqStore) :=
  match d with
  | DrawFcTL s => SequenceNumbers_Next s h
  | DrawFdAT e =>
      '(c, h) ← Encoder_fdAT_Chunk e h; Some (SequenceNumber c, h)
  end.

(** The numbers consumed by a sequence of draws, in draw order. *)
Fixpoint draws (ds : list Draw) (h : SeqStore) : option (list Z * SeqStore) :=
  match ds with
  | [] => Some ([], h)
  | d :: ds' =>
      '(n, h) ← draw d h;
      '(ns, h) ← draws ds' h;
      Some (n :: ns, h)
  end.

(** [on_counter p d]: the draw [d] goes to the counter [p]; a frame-data
    chunk is drawn from an encoder that has a current unit. *)
Definition on_counter (p : nat) (d : Draw) : Prop :=
  match d with
  | DrawFcTL s => s = p
  | DrawFdAT e => seq_ e = p /\ is_Some (a (encoder_IDAT e))
  end.

(** [v, v+1, ..., v+k-1]. *)
Definition run_from (v : Z) (k : nat) : list Z :=
  map (fun i => v + Z.of_nat i) (seq 0 k).

(** A session of two frames: a frame-control chunk and two frame-data
    chunks, then a frame-control chunk and one frame-data chunk, drawn by
    two encoders that share the counter. *)
Definition sample_session : list Draw :=
  let e1 := mkEncoder_fdAT 0 (mkEncoder_IDAT 0 (Some (mkAtom [120; 156] None))) in
  let e2 := mkEncoder_fdAT 0 (mkEncoder_IDAT 1 (Some (mkAtom [99] None))) in
  [DrawFcTL 0; DrawFdAT e1; DrawFdAT e1; DrawFcTL 0; DrawFdAT e2].

(** ** The consumer *)

(** [n] calls of [Next] in a row, with their results. *)
Fixpoint pull (n : nat) (e : Encoder_IDAT) (rt : Runtime)
    : Outcome (list bool) :=
  match n with
  | O => Returned [] e rt
  | S n' =>
      match Encoder_IDAT_Next e rt with
      | Returned r e rt =>
          match pull n' e rt with
          | Returned rs e rt => Returned (r :: rs) e rt
          | Blocked => Blocked
          | Panicked => Panicked
          end
      | Blocked => Blocked
      | Panicked => Panicked
      end
  end.

(** The failure of the producer, if any: the error of the coder's
    construction, or the error [writeImage] returns. *)
Definition producer_failure (paeth : Z -> Z -> Z -> Z) (coder : Coder)
    (c : Chunk_IHDR) (m : Image) (cl : Z) : option error :=
  match coder_new coder (CompressionLevel_zlib cl) with
  | inl e => Some e
  | inr z =>
      match writeImage paeth (z_Write coder) (z, ([], [])) m (cb c)
                       (negb (cl =? NoCompression)) with
      | Some (_, Some e) => Some e
      | _ => None
      end
  end.

(** The producer panics: the coder is constructed and [writeImage] panics
    (an index out of range, a failed type assertion). The goroutine has no
    [recover]: a panic in it ends the program. *)
Definition producer_panics (paeth : Z -> Z -> Z -> Z) (coder : Coder)
    (c : Chunk_IHDR) (m : Image) (cl : Z) : Prop :=
  exists z,
    coder_new coder (CompressionLevel_zlib cl) = inr z /\
    writeImage paeth (z_Write coder) (z, ([], [])) m (cb c)
               (negb (cl =? NoCompression)) = None.

(** The claim "a producer-side failure is never thrown across the task
    boundary", for the encoders of one image: whatever the number of calls
    of [Next], the program does not end in a panic. *)
Definition never_thrown (paeth : Z -> Z -> Z -> Z) (coder : Coder)
    (c : Chunk_IHDR) (m : Image) (cl : Z) : Prop :=
  forall (rt : Runtime) (n : nat),
    pull n (NewEncoder_IDAT paeth coder c m cl rt).1
           (NewEncoder_IDAT paeth coder c m cl rt).2 <> Panicked.

(** Atoms that carry data and no error. *)
Definition units (sent : list atom) : Prop :=
  Forall (fun x => err x = None) sent.

(** ** Sample coders and images *)

(** A stand-in for a coder, in the shape of a compressed stream: two
    header bytes before the first row, the rows as they are, four closing
    bytes on [Close]. Like [zlib.NewWriterLevel] it knows the levels -2 to
    9. The state tells whether the header has been written. *)
Definition framing_coder : Coder :=
  mkCoder bool
    (fun level => if (-2 <=? level) && (level <=? 9) then inr false
                  else inl (mkError 22))
    (fun started row =>
       (true, (if started then [] else [[120; 156]]) ++ [row], None))
    (fun _ => [[0; 0; 255; 255]]).

(** A coder whose [Write] fails once more than [room] bytes have been
    handed to it. The state is the number of bytes taken so far. *)
Definition faulty_coder (room : nat) : Coder :=
  mkCoder nat
    (fun _ => inr 0%nat)
    (fun taken row =>
       if decide (taken + length row <= room)%nat
       then ((taken + length row)%nat, [row], None)
       else (taken, [], Some (mkError 5)))
    (fun _ => []).

(** A coder that cannot be constructed. *)
Definition absent_coder : Coder :=
  mkCoder unit (fun _ => inl (mkError 22)) (fun s _ => (s, [], None))
          (fun _ => []).

(** An [*image.NRGBA] of one column and two rows. *)
Definition two_pixels : Image :=
  ImageNRGBA [10; 20; 30; 255; 40; 50; 60; 128] 4 (mkRect 0 0 1 2).

(** The header of an 8-bit true-color image with alpha. *)
Definition header_TCA8 : Chunk_IHDR :=
  mkIHDR 1 2 BitDepth_8 ColorType_TrueColorAlpha 0 0 0.

(** The header of the scenario: true-color with bit depth 4. *)
Definition header_TC4 : Chunk_IHDR :=
  mkIHDR 1 2 BitDepth_4 ColorType_TrueColor 0 0 0.

(** The header of an 8-bit palette image. *)
Definition header_P8 : Chunk_IHDR :=
  mkIHDR 1 2 BitDepth_8 ColorType_Paletted 0 0 0.

(** An [*image.NRGBA] of one row and no column, [image.Rect(0, 0, 0, 1)]. *)
Definition no_columns : Image := ImageNRGBA [] 0 (mkRect 0 0 0 1).

(** The background task in the spec's words, to compare [goroutine]
    with: "on completion it closes the coder (flushing any partial
    buffered unit)". It differs from [goroutine] in one place: when the
    last row has been fed to the coder it closes the coder and flushes the
    buffered unit to the consumer. *)
Definition goroutine_closing (paeth : Z -> Z -> Z -> Z) (coder : Coder)
    (c : Chunk_IHDR) (m : Image) (cl : Z) : Task :=
  match coder_new coder (CompressionLevel_zlib cl) with
  | inl e => mkTask [mkAtom [] (Some e)] Returns
  | inr z =>
      match writeImage paeth (z_Write coder) (z, ([], [])) m (cb c)
                       (negb (cl =? NoCompression)) with
      | None => mkTask [] Panics
      | Some ((_, (_, sent)), Some e) =>
          mkTask (sent ++ [mkAtom [] (Some e)]) Closes
      | Some ((z, b), None) =>
          mkTask (bufio_Flush (fold_left bufio_Write (coder_close coder z) b)).2
                 Closes
      end
  end.

(** The bytes of the units a task delivers, concatenated. *)
Definition delivered (t : Task) : list Z := concat (map buf (sends t)).

(** ** What reaches the consumer *)

(** The bytes a [bufio.Writer] has taken: those sent on, then those it
    still holds. *)
Definition taken (s : list Z * list atom) : list Z :=
  concat (map buf s.2) ++ s.1.

(** ** Starting an encode *)

(** The claim "starting an encode fails with a configuration error before
    any background task starts", for one call of [NewEncoder_IDAT]: the
    encoder that is returned reports an error at once, and no goroutine
    has been started. ([NewEncoder_IDAT] returns an encoder and nothing
    else, so [Err] is where the caller could learn of a failure.) *)
Definition rejected_before_start (paeth : Z -> Z -> Z -> Z) (coder : Coder)
    (c : Chunk_IHDR) (m : Image) (cl : Z) (rt : Runtime) : Prop :=
  let started := NewEncoder_IDAT paeth coder c m cl rt in
  Encoder_IDAT_Err started.1 <> None /\ started.2 = rt.

(** ** The two paths of the 8-bit true-color+alpha layout *)

(** An [*image.NRGBA] whose pixel slice holds row [y] in full: the row
    lies in the rectangle, and its [4 * Dx] bytes, from the offset
    [(y - Min.Y) * Stride], lie in [Pix]. *)
Definition row_in_storage (pix : list Z) (stride : Z) (rect : Rectangle)
    (y : Z) : Prop :=
  MinY rect <= y < MaxY rect /\
  0 <= Dx rect /\
  0 <= (y - MinY rect) * stride /\
  (y - MinY rect) * stride + Dx rect * 4 <= Z.of_nat (length pix).

(* ================================================================== *)
(** * The chunk catalog *)

(** A write through a sub-slice [b[lo:hi]] lands in [b]: [f] is what the
    callee does to the sub-slice. Go checks the slice bounds. *)
Definition through_slice (b : list Z) (lo hi : nat)
    (f : list Z -> option (list Z)) : option (list Z) :=
  if decide (lo <= hi <= length b)%nat then
    sub ← f (slice b lo hi);
    Some (take lo b ++ sub ++ drop hi b)
  else None.

(** The chunk names, as the bytes of the Go string literals. *)
Definition name_IHDR : list Z := [73; 72; 68; 82].

Definition name_PLTE : list Z := [80; 76; 84; 69].

Definition name_tRNS : list Z := [116; 82; 78; 83].

Definition name_IEND : list Z := [73; 69; 78; 68].

Definition name_acTL : list Z := [97; 99; 84; 76].

Definition name_fcTL : list Z := [102; 99; 84; 76].

Definition name_IDAT : list Z := [73; 68; 65; 84].

Definition name_fdAT : list Z := [102; 100; 65; 84].

(** The result of a [WriteTo]: what [writeChunkTo] returns. *)
Definition Written : Type := option ((Z * option error) * list (list Z)).

(** [Chunk_IHDR.WriteTo]. *)
Definition Chunk_IHDR_WriteTo (c : Chunk_IHDR) (w : Writer)
    (log : list (list Z)) : Written :=
  let buf := replicate 13 0 in
  buf ← through_slice buf 0 4 (fun b => writeUint32 b (Width c));
  buf ← through_slice buf 4 8 (fun b => writeUint32 b (Height c));
  buf ← store buf 8 (uint8 (BitDepth c));
  buf ← store buf 9 (uint8 (ColorType c));
  buf ← store buf 10 (uint8 (CompressionMethod c));
  buf ← store buf 11 (uint8 (FilterMethod c));
  buf ← store buf 12 (uint8 (InterlaceMethod c));
  writeChunkTo name_IHDR (slice buf 0 (length buf)) w log.

(** [Chunk_IEND.WriteTo]: [writeChunkTo("IEND", nil, w)]. *)
Definition Chunk_IEND_WriteTo (w : Writer) (log : list (list Z)) : Written :=
  writeChunkTo name_IEND [] w log.

(** [Chunk_acTL]. *)
Record Chunk_acTL : Type := mkChunk_acTL { NumFrames : Z; NumPlays : Z }.

(** [Chunk_acTL.WriteTo]. *)
Definition Chunk_acTL_WriteTo (c : Chunk_acTL) (w : Writer)
    (log : list (list Z)) : Written :=
  let buf := replicate 8 0 in
  buf ← through_slice buf 0 4 (fun b => writeUint32 b (NumFrames c));
  buf ← through_slice buf 4 8 (fun b => writeUint32 b (NumPlays c));
  writeChunkTo name_acTL (slice buf 0 (length buf)) w log.

(** [Chunk_fcTL]; its fields carry the chunk's name in front, [Width],
    [Height] and [SequenceNumber] being fields of other records too. *)
Record Chunk_fcTL : Type := mkChunk_fcTL {
  fcTL_SequenceNumber : Z;
  fcTL_Width : Z;
  fcTL_Height : Z;
  fcTL_XOffset : Z;
  fcTL_YOffset : Z;
  fcTL_DelayNum : Z;
  fcTL_DelayDen : Z;
  fcTL_DisposeOp : Z;
  fcTL_BlendOp : Z
}.

(** [Chunk_fcTL.WriteTo]. *)
Definition Chunk_fcTL_WriteTo (c : Chunk_fcTL) (w : Writer)
    (log : list (list Z)) : Written :=
  let buf := replicate 26 0 in
  buf ← through_slice buf 0 4 (fun b => writeUint32 b (fcTL_SequenceNumber c));
  buf ← through_slice buf 4 8 (fun b => writeUint32 b (fcTL_Width c));
  buf ← through_slice buf 8 12 (fun b => writeUint32 b (fcTL_Height c));
  buf ← through_slice buf 12 16 (fun b => writeUint32 b (fcTL_XOffset c));
  buf ← through_slice buf 16 20 (fun b => writeUint32 b (fcTL_YOffset c));
  buf ← through_slice buf 20 22 (fun b => writeUint16 b (fcTL_DelayNum c));
  buf ← through_slice buf 22 24 (fun b => writeUint16 b (fcTL_DelayDen c));
  buf ← store buf 24 (uint8 (fcTL_DisposeOp c));
  buf ← store buf 25 (uint8 (fcTL_BlendOp c));
  writeChunkTo name_fcTL (slice buf 0 (length buf)) w log.

(** [Chunk_IDAT.WriteTo]: [writeChunkTo("IDAT", c, w)]. *)
Definition Chunk_IDAT_WriteTo (c : list Z) (w : Writer)
    (log : list (list Z)) : Written :=
  writeChunkTo name_IDAT c w log.

(** [Chunk_fdAT.WriteTo]: [buf := make([]byte, 4+len(c.Chunk_IDAT))], the
    sequence number in [buf[0:4]], a copy of the data in [buf[4:]]. *)
Definition Chunk_fdAT_WriteTo (c : Chunk_fdAT) (w : Writer)
    (log : list (list Z)) : Written :=
  let buf := replicate (4 + length (Chunk_IDAT c)) 0 in
  buf ← through_slice buf 0 4 (fun b => writeUint32 b (SequenceNumber c));
  buf ← through_slice buf 4 (length buf)
          (fun b => Some (copy b (Chunk_IDAT c)));
  writeChunkTo name_fdAT buf w log.

(** The big-endian encoding of a 16-bit value, by division. *)
Definition be16 (u : Z) : list Z := [u / 2 ^ 8 mod 256; u mod 256].

(** The header fields have the ranges of their Go types. *)
Definition IHDR_typed (c : Chunk_IHDR) : Prop :=
  0 <= Width c < 2 ^ 32 /\ 0 <= Height c < 2 ^ 32 /\
  is_byte (BitDepth c) /\ is_byte (ColorType c) /\
  is_byte (CompressionMethod c) /\ is_byte (FilterMethod c) /\
  is_byte (InterlaceMethod c).

Definition fcTL_typed (c : Chunk_fcTL) : Prop :=
  0 <= fcTL_SequenceNumber c < 2 ^ 32 /\
  0 <= fcTL_Width c < 2 ^ 32 /\ 0 <= fcTL_Height c < 2 ^ 32 /\
  0 <= fcTL_XOffset c < 2 ^ 32 /\ 0 <= fcTL_YOffset c < 2 ^ 32 /\
  0 <= fcTL_DelayNum c < 2 ^ 16 /\ 0 <= fcTL_DelayDen c < 2 ^ 16 /\
  is_byte (fcTL_DisposeOp c) /\ is_byte (fcTL_BlendOp c).

(** The frame-control chunk of the package's example: 100x100, delay
    100/1000. *)
Definition sample_fcTL : Chunk_fcTL :=
  mkChunk_fcTL 3 100 100 0 0 100 1000 0 0.

(* ================================================================== *)
(** * The consumer loop *)

(** The loop of the package's example, [for e.Next() { ... e.Chunk() ...
    }], collecting the chunks as [atom] records them: one for each call of
    [Next] that returns true, with the length of the slice received. The
    loop runs as long as the producer sends; [fuel] bounds the number of
    calls of [Next], and [None] is a loop that has not ended within it. *)
Fixpoint drain (fuel : nat) (e : Encoder_IDAT) (rt : Runtime)
    : option (Outcome (list (list Z))) :=
  match fuel with
  | O => None
  | S fuel' =>
      match Encoder_IDAT_Next e rt with
      | Returned true e rt =>
          match Encoder_IDAT_Chunk e with
          | None => Some Panicked
          | Some c =>
              match drain fuel' e rt with
              | Some (Returned cs e rt) => Some (Returned (c :: cs) e rt)
              | r => r
              end
          end
      | Returned false e rt => Some (Returned [] e rt)
      | Blocked => Some Blocked
      | Panicked => Some Panicked
      end
  end.

(** A task the consumer cannot get stuck on: if its goroutine returns
    without closing the channel, the last atom it sends carries an error
    and the atoms before it are units. *)
Definition ends_well (t : Task) : Prop :=
  ending t = Returns ->
  exists pre x, sends t = pre ++ [x] /\ units pre /\ err x <> None.

(** A consumer that cannot block for ever: its [Err] is non-nil, or its
    channel belongs to a task that [ends_well]. *)
Definition live (e : Encoder_IDAT) (rt : Runtime) : Prop :=
  Encoder_IDAT_Err e <> None \/
  exists t, rt !! aw e = Some t /\ ends_well t.

(* ================================================================== *)
(** * The size of the units *)

(** The state of the [bufio.Writer] between two writes: it holds at most
    [unit_size] bytes, and every atom it has sent carries no error and at
    least [unit_size] bytes. *)
Definition full_units (s : list Z * list atom) : Prop :=
  (length s.1 <= unit_size)%nat /\
  Forall (fun x => err x = None /\ (unit_size <= length (buf x))%nat) s.2.

(* ================================================================== *)
(** * The rows [writeImage] writes *)

(** A writer that keeps the rows it is handed and never fails. *)
Definition record_Write (w : list (list Z)) (row : list Z)
    : list (list Z) * option error :=
  (w ++ [row], None).

(** What a reader of the format does with the rows: the first byte of a
    row names the rule to reverse, against the row reconstructed before
    it. *)
Fixpoint decode_rows (paeth : Z -> Z -> Z -> Z) (bpp : nat) (prev : list Z)
    (rows : list (list Z)) : list (list Z) :=
  match rows with
  | [] => []
  | [] :: _ => []
  | (f :: filt) :: rows' =>
      let raw := unfilter paeth f bpp prev filt in
      raw :: decode_rows paeth bpp raw rows'
  end.

(** The buffers of [writeImage] between two rows: [cr[i]] starts with the
    tag [i], the previous row with 0, and all hold [n] data bytes. *)
Definition shaped (n : nat) (cr : Rows) (pr : list Z) : Prop :=
  (forall k, k ∈ [0; 1; 2; 3; 4] ->
     head (row_of cr k) = Some k /\ length (row_of cr k) = S n) /\
  head pr = Some 0 /\ length pr = S n.

(** A written row: a filter tag and [n] bytes. *)
Definition tagged_row (n : nat) (r : list Z) : Prop :=
  length r = S n /\ exists f, f ∈ evaluation_order /\ head r = Some f.

(** Row [y] of the storage of an [*image.NRGBA]. *)
Definition NRGBA_row (pix : list Z) (stride : Z) (rect : Rectangle) (y : Z)
    : list Z :=
  take (4 * Z.to_nat (Dx rect))
       (drop (Z.to_nat ((y - MinY rect) * stride)) pix).

(** A 2x2 image stored with a stride of 8 bytes. *)
Definition four_pixels : Image :=
  ImageNRGBA [10; 20; 30; 255; 40; 50; 60; 128; 1; 2; 3; 4; 5; 6; 7; 8]
             8 (mkRect 0 0 2 2).

(* ================================================================== *)
(** * A destination that fails *)

(** A destination given as a [Writer]: it keeps the rows it is handed, and
    answers each call as the [Writer] does on the calls before it. *)
Definition log_Write (wr : Writer) (log : list (list Z)) (row : list Z)
    : list (list Z) * option error :=
  (log ++ [row], (wr log row).2).

(** A [Writer] that fails on its second call. *)
Definition second_call_fails : Writer :=
  fun log p =>
    if decide (length log = 1)%nat then (0, Some (mkError 5))
    else (Z.of_nat (length p), None).

(* ================================================================== *)
(** * Properties of the filter selector *)

(** ** Bytes *)

Lemma uint8_is_byte z : is_byte (uint8 z).
Proof. unfold is_byte, uint8. apply Z.mod_pos_bound. lia. Qed.

Lemma uint8_of_byte z : is_byte z -> uint8 z = z.
Proof. unfold is_byte, uint8. intros H. apply Z.mod_small. lia. Qed.

Lemma abs8_nonneg d : is_byte d -> 0 <= abs8 d.
Proof. unfold is_byte, abs8. intros H. destruct (d <? 128) eqn:E; lia. Qed.

Lemma index_byte_at l i : (i < length l)%nat -> index l i = Some (byte_at l i).
Proof.
  intros H. unfold index, byte_at.
  destruct (lookup_lt_is_Some_2 l i H) as [x ->]. reflexivity.
Qed.

Lemma byte_at_is_byte l i : bytes l -> is_byte (byte_at l i).
Proof.
  intros Hl. unfold byte_at. destruct (l !! i) as [x|] eqn:E; simpl.
  - eapply Forall_lookup_1; eauto.
  - unfold is_byte. lia.
Qed.

(** ** Sums *)

Lemma sum_from_app g i a b :
  sum_from g i (a + b) = sum_from g i a + sum_from g (i + a) b.
Proof.
  revert i. induction a as [|a IH]; intros i; simpl.
  - replace (i + 0)%nat with i by lia. lia.
  - rewrite IH. replace (S i + a)%nat with (i + S a)%nat by lia. lia.
Qed.

Lemma sum_from_nonneg g i k :
  (forall p, is_byte (g p)) -> 0 <= sum_from g i k.
Proof.
  intros Hg. revert i. induction k as [|k IH]; intros i; simpl; [lia|].
  specialize (IH (S i)). pose proof (abs8_nonneg _ (Hg i)). lia.
Qed.

Lemma sum_from_mono g i a b :
  (forall p, is_byte (g p)) -> (a <= b)%nat -> sum_from g i a <= sum_from g i b.
Proof.
  intros Hg Hab. replace b with (a + (b - a))%nat by lia.
  rewrite sum_from_app. pose proof (sum_from_nonneg g (i + a) (b - a) Hg). lia.
Qed.

Lemma sum_abs8_map_seq g i k : sum_abs8 (map g (seq i k)) = sum_from g i k.
Proof.
  revert i. induction k as [|k IH]; intros i; simpl; [reflexivity|].
  rewrite <- IH. reflexivity.
Qed.

(** ** The loops *)

Lemma put_and_add_ok chk i v dst sum :
  (i < length dst)%nat ->
  put_and_add chk i v (dst, sum) =
    Some ((<[i:=v]> dst, sum + abs8 v),
          match chk with
          | Some best => bool_decide (sum + abs8 v >= best)
          | None => false
          end).
Proof.
  intros H. unfold put_and_add, store, index. simpl.
  rewrite decide_True by exact H. simpl.
  rewrite list_lookup_insert_eq by exact H. reflexivity.
Qed.

(** A loop that stores [g p] at every position it visits: it visits the
    positions [i .. i+m-1] for some [m <= k], leaves the others alone, and
    adds their magnitudes to the sum; it stops before [k] steps only on a
    sum that has reached [best]. *)
Lemma for_loop_put g chk body n :
  forall k i dst sum,
    (i + k <= n)%nat -> length dst = n ->
    (forall p s, (i <= p < i + k)%nat -> body p s = put_and_add chk p (g p) s) ->
    exists m dst',
      (m <= k)%nat /\
      for_loop body k i (dst, sum) = Some (dst', sum + sum_from g i m) /\
      length dst' = n /\
      (forall p, (i <= p < i + m)%nat -> dst' !! p = Some (g p)) /\
      (forall p, ~ (i <= p < i + m)%nat -> dst' !! p = dst !! p) /\
      (0 < k -> 0 < m)%nat /\
      match chk with
      | None => m = k
      | Some best =>
          (m = k \/ sum + sum_from g i m >= best) /\
          (forall m', (0 < m' < m)%nat -> sum + sum_from g i m' < best)
      end.
Proof.
  induction k as [|k IH]; intros i dst sum Hk Hlen Hbody.
  - exists 0%nat, dst. simpl. split_and!.
    + lia.
    + do 2 f_equal. lia.
    + exact Hlen.
    + intros p Hp. lia.
    + reflexivity.
    + lia.
    + destruct chk; [split; [auto|intros; lia]|reflexivity].
  - simpl. rewrite Hbody by lia.
    rewrite put_and_add_ok by lia.
    destruct (match chk with
              | Some best => bool_decide (sum + abs8 (g i) >= best)
              | None => false
              end) eqn:Hbrk.
    + exists 1%nat, (<[i:=g i]> dst). simpl. split_and!.
      * lia.
      * do 2 f_equal. lia.
      * rewrite length_insert. exact Hlen.
      * intros p Hp. assert (p = i) as -> by lia.
        apply list_lookup_insert_eq. lia.
      * intros p Hp. apply list_lookup_insert_ne. lia.
      * lia.
      * destruct chk as [best|]; [|discriminate].
        apply bool_decide_eq_true in Hbrk. split; [right; lia|intros; lia].
    + destruct (IH (S i) (<[i:=g i]> dst) (sum + abs8 (g i)))
        as (m & dst' & Hm & Hrun & Hlen' & Hin & Hout & Hpos & Hchk).
      * lia.
      * rewrite length_insert. exact Hlen.
      * intros p s Hp. apply Hbody. lia.
      * exists (S m), dst'. simpl. split_and!.
        -- lia.
        -- rewrite Hrun. do 2 f_equal. lia.
        -- exact Hlen'.
        -- intros p Hp. destruct (decide (p = i)) as [->|Hne].
           ++ rewrite Hout by lia. apply list_lookup_insert_eq. lia.
           ++ apply Hin. lia.
        -- intros p Hp. rewrite Hout by lia.
           apply list_lookup_insert_ne. lia.
        -- lia.
        -- destruct chk as [best|].
           ++ apply bool_decide_eq_false in Hbrk.
              destruct Hchk as [Hstop Hfirst]. split.
              ** destruct Hstop as [->|Hge]; [left; reflexivity|right; lia].
              ** intros [|m'] Hm'; [lia|]. simpl.
                 destruct m' as [|m'']; [simpl; lia|].
                 specialize (Hfirst (S m'') ltac:(lia)). simpl in *. lia.
           ++ lia.
Qed.

(** The none loop stores nothing; it stops early only on a sum that has
    reached [best]. *)
Lemma for_loop_none cdat0 best :
  forall k i sum,
    (i + k <= length cdat0)%nat ->
    exists m,
      (m <= k)%nat /\
      for_loop (none_body cdat0 best) k i sum
        = Some (sum + sum_from (none_at cdat0) i m) /\
      (m = k \/ sum + sum_from (none_at cdat0) i m >= best).
Proof.
  induction k as [|k IH]; intros i sum Hk.
  - exists 0%nat. simpl. split_and!; [lia|f_equal; lia|left; reflexivity].
  - simpl. unfold none_body at 1. rewrite index_byte_at by lia. simpl.
    fold (none_at cdat0 i).
    destruct (bool_decide (sum + abs8 (none_at cdat0 i) >= best)) eqn:Hbrk.
    + exists 1%nat. simpl. split_and!; [lia|f_equal; lia|].
      right. apply bool_decide_eq_true in Hbrk. lia.
    + destruct (IH (S i) (sum + abs8 (none_at cdat0 i))) as (m & Hm & Hrun & Hchk);
        [lia|].
      exists (S m). simpl. split_and!; [lia| |].
      * rewrite Hrun. f_equal. lia.
      * destruct Hchk as [->|Hge]; [left; reflexivity|right; lia].
Qed.

(** A head loop over the first [bpp] bytes followed by a tail loop with
    the early exit. *)
Lemma head_tail_written g head tail n bpp best dst :
  (bpp <= n)%nat -> length dst = n ->
  (forall p s, (p < bpp)%nat -> head p s = put_and_add None p (g p) s) ->
  (forall p s, (bpp <= p < n)%nat ->
     tail p s = put_and_add (Some best) p (g p) s) ->
  exists d1 s1 d2 s2,
    for_loop head bpp 0%nat (dst, 0) = Some (d1, s1) /\
    for_loop tail (n - bpp) bpp (d1, s1) = Some (d2, s2) /\
    written g n bpp best dst d2 s2.
Proof.
  intros Hbpp Hlen Hhead Htail.
  destruct (for_loop_put g None head n bpp 0%nat dst 0)
    as (m1 & d1 & Hm1 & Hrun1 & Hlen1 & Hin1 & Hout1 & _ & Hall1);
    [lia|exact Hlen|intros; apply Hhead; lia|].
  subst m1.
  destruct (for_loop_put g (Some best) tail n (n - bpp) bpp d1
              (0 + sum_from g 0 bpp))
    as (m2 & d2 & Hm2 & Hrun2 & Hlen2 & Hin2 & Hout2 & Hpos2 & Hchk2 & Hfirst2);
    [lia|exact Hlen1|intros; apply Htail; lia|].
  exists d1, (0 + sum_from g 0 bpp), d2,
    (0 + sum_from g 0 bpp + sum_from g bpp m2).
  split; [exact Hrun1|]. split; [exact Hrun2|].
  exists (bpp + m2)%nat. split_and!.
  - lia.
  - lia.
  - lia.
  - exact Hlen2.
  - intros p Hp. destruct (decide (p < bpp)%nat).
    + rewrite Hout2 by lia. apply Hin1. lia.
    + apply Hin2. lia.
  - intros p Hp. rewrite Hout2 by lia. apply Hout1. lia.
  - rewrite sum_from_app. simpl. lia.
  - destruct Hchk2 as [->|Hge]; [left; lia|right; exact Hge].
  - intros j' Hj'. specialize (Hfirst2 (j' - bpp)%nat ltac:(lia)).
    replace j' with (bpp + (j' - bpp))%nat by lia.
    rewrite sum_from_app. simpl in *. lia.
Qed.

(** The early exit never changes the comparison with [best]: a sum that
    was cut short is at least [best], and so is the full sum. *)
Lemma written_keep_better g n bpp old new s ft (bf : Z * Z) :
  (forall p, is_byte (g p)) ->
  written g n bpp bf.1 old new s ->
  keep_better s ft bf = keep_better (sum_from g 0 n) ft bf.
Proof.
  intros Hg (j & Hj & _ & _ & _ & _ & -> & Hstop & _).
  destruct Hstop as [->|Hge]; [reflexivity|].
  pose proof (sum_from_mono g 0 j n Hg ltac:(lia)).
  unfold keep_better. simpl.
  rewrite !bool_decide_eq_false_2 by lia. reflexivity.
Qed.

(** A rule that is kept had its loop run to the end. *)
Lemma written_full g n bpp best old new s :
  written g n bpp best old new s -> s < best ->
  new = map g (seq 0 n).
Proof.
  intros (j & Hj & _ & Hlen & Hin & _ & -> & Hstop & _) Hlt.
  destruct Hstop as [->|Hge]; [|lia].
  apply list_eq. intros p. destruct (decide (p < n)%nat) as [Hp|Hp].
  - rewrite Hin by exact Hp. rewrite list_lookup_fmap, lookup_seq_lt by exact Hp.
    reflexivity.
  - rewrite !lookup_ge_None_2; [reflexivity| |].
    + rewrite length_map, length_seq. lia.
    + lia.
Qed.

Lemma none_keep_better cdat0 s m ft (bf : Z * Z) :
  bytes cdat0 -> (m <= length cdat0)%nat ->
  s = sum_from (none_at cdat0) 0 m ->
  (m = length cdat0 \/ s >= bf.1) ->
  keep_better s ft bf
    = keep_better (sum_from (none_at cdat0) 0 (length cdat0)) ft bf.
Proof.
  intros Hb Hm -> [->|Hge]; [reflexivity|].
  assert (forall p, is_byte (none_at cdat0 p)) as Hg
    by (intros p; apply byte_at_is_byte, Hb).
  pose proof (sum_from_mono _ 0 m (length cdat0) Hg Hm).
  unfold keep_better. simpl.
  rewrite !bool_decide_eq_false_2 by lia. reflexivity.
Qed.

Lemma take_map_seq (g : nat -> Z) n j :
  (j <= n)%nat -> take j (map g (seq 0 n)) = map g (seq 0 j).
Proof.
  intros Hj. replace n with (j + (n - j))%nat by lia.
  rewrite seq_app, map_app, take_app_length'; [reflexivity|].
  rewrite length_map, length_seq. reflexivity.
Qed.

(** A [written] buffer, as lists. *)
Lemma written_prefix g n bpp best old new s :
  length old = n ->
  written g n bpp best old new s ->
  prefix_written (map g (seq 0 n)) old new bpp best.
Proof.
  intros Hold (j & Hj & Hpos & Hlen & Hin & Hout & -> & Hstop & Hfirst).
  exists j. rewrite length_map, length_seq. split_and!; [lia|lia|exact Hpos| | |].
  - apply list_eq. intros p.
    destruct (decide (p < j)%nat) as [Hlt|Hge].
    + rewrite lookup_app_l by (rewrite length_take, length_map, length_seq; lia).
      rewrite lookup_take_lt by exact Hlt.
      rewrite list_lookup_fmap, lookup_seq_lt by lia. apply Hin. exact Hlt.
    + rewrite lookup_app_r by (rewrite length_take, length_map, length_seq; lia).
      rewrite length_take, length_map, length_seq, lookup_drop.
      rewrite Hout by lia. f_equal. lia.
  - rewrite take_map_seq, sum_abs8_map_seq by lia. exact Hstop.
  - intros j' Hj'. rewrite take_map_seq, sum_abs8_map_seq by lia.
    apply Hfirst. exact Hj'.
Qed.

Section FilterProps.

Variable paeth : Z -> Z -> Z -> Z.

Lemma full_sum_sum_from cdat0 pdat bpp f :
  full_sum paeth cdat0 pdat bpp f
    = sum_from (filtered_at paeth cdat0 pdat bpp f) 0 (length cdat0).
Proof. unfold full_sum, filtered. apply sum_abs8_map_seq. Qed.

Lemma filtered_at_is_byte cdat0 pdat bpp f p :
  bytes cdat0 -> is_byte (filtered_at paeth cdat0 pdat bpp f p).
Proof.
  intros Hb. unfold filtered_at, none_at, sub_at, up_at, avg_at, paeth_at.
  repeat case_match; auto using uint8_is_byte, byte_at_is_byte.
Qed.

(** What one call of [filter] does on well-sized buffers: it returns, the
    raw row is untouched, the up buffer is filled, the three other buffers
    are [written], and the result is the [selection] over all five rules. *)
Lemma filter_run t0 t1 t2 t3 t4 tp cdat0 cdat1 cdat2 cdat3 cdat4 pdat bpp :
  let n := length cdat0 in
  let S := full_sum paeth cdat0 pdat bpp in
  let g := filtered_at paeth cdat0 pdat bpp in
  length cdat1 = n -> length cdat2 = n -> length cdat3 = n ->
  length cdat4 = n -> length pdat = n ->
  (bpp <= n)%nat -> bytes cdat0 ->
  exists d1 d3 d4 s1 s3 s4,
    filter paeth
      (mkRows (t0 :: cdat0) (t1 :: cdat1) (t2 :: cdat2) (t3 :: cdat3)
              (t4 :: cdat4)) (tp :: pdat) bpp
    = Some (mkRows (t0 :: cdat0) (t1 :: d1)
                   (t2 :: filtered paeth cdat0 pdat bpp ftUp)
                   (t3 :: d3) (t4 :: d4),
            (selection S 4).2) /\
    written (g ftPaeth) n bpp (selection S 0).1 cdat4 d4 s4 /\
    written (g ftSub) n bpp (selection S 2).1 cdat1 d1 s1 /\
    written (g ftAverage) n bpp (selection S 3).1 cdat3 d3 s3.
Proof.
  intros n S g H1 H2 H3 H4 Hp Hbpp Hb.
  assert (forall f p, is_byte (g f p)) as Hg
    by (intros; apply filtered_at_is_byte, Hb).
  assert (forall f, S f = sum_from (g f) 0 n) as HS
    by (intros; apply full_sum_sum_from).
  unfold filter. simpl. fold n.
  (* up *)
  destruct (for_loop_put (g ftUp) None (up_body cdat0 pdat) n n 0%nat cdat2 0)
    as (m & d2 & _ & Hrun & Hlen & Hin & _ & _ & ->); [lia|exact H2| |].
  { intros p s Hlt. unfold up_body.
    rewrite !index_byte_at by lia. reflexivity. }
  rewrite Hrun. simpl. rewrite Z.add_0_l, <- HS.
  assert (d2 = filtered paeth cdat0 pdat bpp ftUp) as ->.
  { apply list_eq. intros p. unfold filtered. fold n.
    destruct (decide (p < n)%nat) as [Hlt|Hge].
    - rewrite Hin by lia.
      rewrite list_lookup_fmap, lookup_seq_lt by exact Hlt. reflexivity.
    - rewrite !lookup_ge_None_2; [reflexivity| |lia].
      rewrite length_map, length_seq. lia. }
  change (S ftUp, ftUp) with (selection S 0).
  (* Paeth *)
  destruct (head_tail_written (g ftPaeth) (paeth_head_body cdat0 pdat)
              (paeth_tail_body paeth cdat0 pdat bpp (selection S 0).1) n bpp
              (selection S 0).1 cdat4)
    as (e4 & r4 & d4 & s4 & Hh4 & Ht4 & W4); [lia|exact H4| | |].
  { intros p s Hlt. unfold paeth_head_body.
    rewrite !index_byte_at by lia. simpl.
    unfold g, filtered_at, paeth_at. simpl. rewrite decide_True by lia.
    reflexivity. }
  { intros p s Hlt. unfold paeth_tail_body.
    rewrite !index_byte_at by lia. simpl.
    unfold g, filtered_at, paeth_at. simpl. rewrite decide_False by lia.
    reflexivity. }
  change ((selection S 0).1) with (S ftUp) in Ht4.
  rewrite Hh4. simpl. rewrite Ht4. simpl.
  rewrite (written_keep_better _ _ _ _ _ _ ftPaeth _ (Hg ftPaeth) W4).
  rewrite <- HS. change (keep_better _ _ (selection S 0)) with (selection S 1).
  (* none *)
  destruct (for_loop_none cdat0 (selection S 1).1 n 0%nat 0)
    as (m0 & Hm0 & Hrun0 & Hstop0); [lia|].
  rewrite Hrun0. simpl.
  rewrite (none_keep_better cdat0 _ m0 ftNone _ Hb Hm0 (Z.add_0_l _))
    by (rewrite Z.add_0_l in Hstop0; exact Hstop0).
  change (none_at cdat0) with (g ftNone). fold n. rewrite <- HS.
  change (keep_better _ _ (selection S 1)) with (selection S 2).
  (* sub *)
  destruct (head_tail_written (g ftSub) (sub_head_body cdat0)
              (sub_tail_body cdat0 bpp (selection S 2).1) n bpp
              (selection S 2).1 cdat1)
    as (e1 & r1 & d1 & s1 & Hh1 & Ht1 & W1); [lia|exact H1| | |].
  { intros p s Hlt. unfold sub_head_body.
    rewrite !index_byte_at by lia. simpl.
    unfold g, filtered_at, sub_at. simpl. rewrite decide_True by lia.
    reflexivity. }
  { intros p s Hlt. unfold sub_tail_body.
    rewrite !index_byte_at by lia. simpl.
    unfold g, filtered_at, sub_at. simpl. rewrite decide_False by lia.
    reflexivity. }
  rewrite Hh1. simpl. rewrite Ht1. simpl.
  rewrite (written_keep_better _ _ _ _ _ _ ftSub _ (Hg ftSub) W1).
  rewrite <- HS. change (keep_better _ _ (selection S 2)) with (selection S 3).
  (* average *)
  destruct (head_tail_written (g ftAverage) (avg_head_body cdat0 pdat)
              (avg_tail_body cdat0 pdat bpp (selection S 3).1) n bpp
              (selection S 3).1 cdat3)
    as (e3 & r3 & d3 & s3 & Hh3 & Ht3 & W3); [lia|exact H3| | |].
  { intros p s Hlt. unfold avg_head_body.
    rewrite !index_byte_at by lia. simpl.
    unfold g, filtered_at, avg_at. simpl. rewrite decide_True by lia.
    reflexivity. }
  { intros p s Hlt. unfold avg_tail_body.
    rewrite !index_byte_at by lia. simpl.
    unfold g, filtered_at, avg_at. simpl. rewrite decide_False by lia.
    reflexivity. }
  rewrite Hh3. simpl. rewrite Ht3. simpl.
  rewrite (written_keep_better _ _ _ _ _ _ ftAverage _ (Hg ftAverage) W3).
  rewrite <- HS. change (keep_better _ _ (selection S 3)) with (selection S 4).
  exists d1, d3, d4, s1, s3, s4. split_and!.
  - reflexivity.
  - exact W4.
  - exact W1.
  - exact W3.
Qed.

End FilterProps.

(** ** The selection *)

(** The fixed-order comparison returns the first rule, in evaluation
    order, whose full sum is minimal. *)
Lemma selection_first_min (S : Z -> Z) :
  let f := (selection S 4).2 in
  (selection S 4).1 = S f /\
  f ∈ evaluation_order /\
  (forall g, g ∈ evaluation_order -> S f <= S g) /\
  (forall g, before g f -> S f < S g).
Proof.
  assert (forall g (P : Z -> Prop),
            P ftUp -> P ftPaeth -> P ftNone -> P ftSub -> P ftAverage ->
            g ∈ evaluation_order -> P g) as Hcases.
  { intros g P ? ? ? ? ? Hg. unfold evaluation_order in Hg.
    repeat (apply elem_of_cons in Hg as [->|Hg]; [assumption|]).
    apply elem_of_nil in Hg. contradiction. }
  assert (forall g f (P : Prop),
            (forall i j, (i < j < 5)%nat ->
               evaluation_order !! i = Some g ->
               evaluation_order !! j = Some f -> P) ->
            before g f -> P) as Hbefore.
  { intros g f P HP (i & j & Hi & Hj & Hlt). apply (HP i j); auto.
    apply lookup_lt_Some in Hj. simpl in Hj. lia. }
  unfold selection, keep_better, ftUp, ftPaeth, ftNone, ftSub, ftAverage in *.
  simpl.
  repeat case_bool_decide; simpl in *; (split_and!;
    [ reflexivity
    | unfold evaluation_order, ftUp, ftPaeth, ftNone, ftSub, ftAverage;
      repeat first [apply list_elem_of_here | apply list_elem_of_further]
    | intros g Hg; pattern g; apply (Hcases g); auto; lia
    | intros g; apply Hbefore; intros i j Hij Hi Hj ]).
  all: unfold evaluation_order, ftUp, ftPaeth, ftNone, ftSub, ftAverage in *.
  all: do 5 (try destruct j as [|j]); try lia; simpl in Hj;
       try discriminate Hj.
  all: do 5 (try destruct i as [|i]); try lia; simpl in Hi;
       inversion Hi; subst; lia.
Qed.

(** ** The sums of the specification *)

Lemma spec_magnitude_abs8 d : spec_magnitude d = abs8 d.
Proof. reflexivity. Qed.

Lemma spec_sum_sum_abs8 l : spec_sum l = sum_abs8 l.
Proof.
  induction l as [|d l IH]; [reflexivity|].
  change (spec_sum (d :: l)) with (spec_magnitude d + spec_sum l).
  change (sum_abs8 (d :: l)) with (abs8 d + sum_abs8 l).
  rewrite IH, spec_magnitude_abs8. reflexivity.
Qed.

Lemma selection_ext (S S' : Z -> Z) k :
  (forall f, S f = S' f) -> selection S k = selection S' k.
Proof.
  intros H. unfold selection. rewrite (H ftUp).
  generalize (S' ftUp, ftUp).
  induction (take k [ftPaeth; ftNone; ftSub; ftAverage]) as [|ft l IH];
    intros bf; [reflexivity|].
  simpl. rewrite (H ft). apply IH.
Qed.

Lemma prefix_written_cut_short full old new bpp best :
  prefix_written full old new bpp best -> cut_short full old new bpp best.
Proof.
  intros (j & Hj & Hpix & Hnew & Hend & Hearly). exists j.
  split_and!; try assumption; try lia.
  - rewrite spec_sum_sum_abs8. exact Hend.
  - intros j' Hj'. rewrite spec_sum_sum_abs8. apply Hearly, Hj'.
Qed.

Section FilterRows.

Variable paeth : Z -> Z -> Z -> Z.

Lemma filter_run_rows cr pr bpp :
  well_sized cr pr bpp ->
  let cdat0 := tail (cr0 cr) in
  let pdat := tail pr in
  let n := length cdat0 in
  let S := full_sum paeth cdat0 pdat bpp in
  let g := filtered_at paeth cdat0 pdat bpp in
  exists cr' s1 s3 s4,
    filter paeth cr pr bpp = Some (cr', (selection S 4).2) /\
    cr0 cr' = cr0 cr /\
    (forall f, head (row_of cr' f) = head (row_of cr f)) /\
    tail (cr2 cr') = filtered paeth cdat0 pdat bpp ftUp /\
    written (g ftPaeth) n bpp (selection S 0).1 (tail (cr4 cr)) (tail (cr4 cr')) s4 /\
    written (g ftSub) n bpp (selection S 2).1 (tail (cr1 cr)) (tail (cr1 cr')) s1 /\
    written (g ftAverage) n bpp (selection S 3).1 (tail (cr3 cr)) (tail (cr3 cr')) s3.
Proof.
  destruct cr as [c0 c1 c2 c3 c4]. unfold well_sized. simpl.
  intros (H1 & H2 & H3 & H4 & Hp & Hbpp & Hb).
  destruct c0 as [|t0 cdat0]; [simpl in Hbpp; lia|].
  destruct c1 as [|t1 cdat1]; [discriminate|].
  destruct c2 as [|t2 cdat2]; [discriminate|].
  destruct c3 as [|t3 cdat3]; [discriminate|].
  destruct c4 as [|t4 cdat4]; [discriminate|].
  destruct pr as [|tp pdat]; [discriminate|].
  simpl in *.
  destruct (filter_run paeth t0 t1 t2 t3 t4 tp cdat0 cdat1 cdat2 cdat3 cdat4
              pdat bpp) as (d1 & d3 & d4 & s1 & s3 & s4 & Hrun & W4 & W1 & W3);
    try lia.
  { eapply Forall_cons_1, Hb. }
  eexists _, s1, s3, s4. split; [exact Hrun|]. simpl. split_and!; auto.
  intros f. unfold row_of. simpl. repeat case_match; reflexivity.
Qed.

(** One call of [filter], for the statements about it: the result, the
    raw row and the tags, the up buffer, and how far each later loop went
    in its buffer. *)
Lemma filter_run_prefixes cr pr bpp :
  well_sized cr pr bpp ->
  let S := full_sum paeth (tail (cr0 cr)) (tail pr) bpp in
  let full := filtered paeth (tail (cr0 cr)) (tail pr) bpp in
  exists cr',
    filter paeth cr pr bpp = Some (cr', (selection S 4).2) /\
    cr0 cr' = cr0 cr /\
    (forall k, head (row_of cr' k) = head (row_of cr k)) /\
    tail (row_of cr' ftUp) = full ftUp /\
    (forall k, k ∈ [ftSub; ftAverage; ftPaeth] ->
       prefix_written (full k) (tail (row_of cr k)) (tail (row_of cr' k)) bpp
                      (best_before S k)).
Proof.
  intros Hws S full.
  destruct (filter_run_rows cr pr bpp Hws)
    as (cr' & s1 & s3 & s4 & Hrun & H0 & Hhd & H2 & W4 & W1 & W3).
  exists cr'. split; [exact Hrun|]. split; [exact H0|]. split; [exact Hhd|].
  split; [exact H2|].
  destruct Hws as (L1 & L2 & L3 & L4 & Lp & Hbpp & Hb).
  assert (forall l : list Z, length l = length (cr0 cr) ->
            length (tail l) = length (tail (cr0 cr))) as Htl.
  { intros l Hl. destruct l, (cr0 cr); simpl in *; lia. }
  intros k Hk. repeat (apply elem_of_cons in Hk as [->|Hk]).
  - eapply written_prefix; [|exact W1]. apply Htl, L1.
  - eapply written_prefix; [|exact W3]. apply Htl, L3.
  - eapply written_prefix; [|exact W4]. apply Htl, L4.
  - apply elem_of_nil in Hk. contradiction.
Qed.

(** C2. On the buffers of a row that holds at least one pixel, [filter]
    returns, and the rule it returns is the outcome of comparing the five
    rules in the fixed order Up, Paeth, None, Sub, Average on their full
    sums of magnitudes, the magnitude of a byte being the byte itself
    below 128 and 256 minus the byte otherwise. The returned rule has a
    full sum that is at most the full sum of every rule, and strictly
    below the full sum of every rule tried before it, so that a tie keeps
    the rule tried first. The loop of a later rule is cut short, but not
    as soon as its partial sum meets the best sum: the bytes of the first
    pixel and the byte after them are stored without a test, and the loop
    stops at the first position past the first pixel where the sum
    stored so far has reached the best sum so far, as the buffer shows;
    this never changes the outcome. *)
Theorem filter_selects_first_minimum (cr : Rows) (pr : list Z) (bpp : nat) :
  well_sized cr pr bpp ->
  let S := spec_full_sum paeth (tail (cr0 cr)) (tail pr) bpp in
  let full := filtered paeth (tail (cr0 cr)) (tail pr) bpp in
  exists cr' f,
    filter paeth cr pr bpp = Some (cr', f) /\
    f = (selection S 4).2 /\
    f ∈ evaluation_order /\
    (forall g, g ∈ evaluation_order -> S f <= S g) /\
    (forall g, before g f -> S f < S g) /\
    (forall k, k ∈ [ftSub; ftAverage; ftPaeth] ->
       cut_short (full k) (tail (row_of cr k)) (tail (row_of cr' k)) bpp
                 (best_before S k)).
Proof.
  intros Hws S full.
  destruct (filter_run_prefixes cr pr bpp Hws) as (cr' & Hrun & _ & _ & _ & Hpre).
  destruct (selection_first_min S) as (_ & Hin & Hmin & Hfirst).
  assert (forall k,
            selection S k
            = selection (full_sum paeth (tail (cr0 cr)) (tail pr) bpp) k)
    as Hsel.
  { intros k. apply selection_ext. intros f. apply spec_sum_sum_abs8. }
  exists cr', (selection S 4).2. split_and!; auto.
  - rewrite Hsel. exact Hrun.
  - intros k Hk. apply prefix_written_cut_short.
    unfold best_before. rewrite Hsel. apply Hpre, Hk.
Qed.

End FilterRows.

(** ** The chosen rule's buffer *)

Lemma selection_kept (S : Z -> Z) :
  let f := (selection S 4).2 in
  (f = ftPaeth -> S ftPaeth < (selection S 0).1) /\
  (f = ftSub -> S ftSub < (selection S 2).1) /\
  (f = ftAverage -> S ftAverage < (selection S 3).1).
Proof.
  unfold selection, keep_better, ftUp, ftPaeth, ftNone, ftSub, ftAverage.
  simpl. repeat case_bool_decide; simpl in *; split_and!; intros Hf;
    try discriminate Hf; lia.
Qed.

(** A rule whose full sum is below [best] was not cut short. *)
Lemma written_below_best g n bpp best old new s :
  (forall p, is_byte (g p)) ->
  written g n bpp best old new s -> sum_from g 0 n < best ->
  new = map g (seq 0 n).
Proof.
  intros Hg W Hlt. eapply written_full; [exact W|].
  destruct W as (j & Hj & _ & _ & _ & _ & -> & _ & _).
  pose proof (sum_from_mono g 0 j n Hg ltac:(lia)). lia.
Qed.

Lemma filtered_none paeth cdat0 pdat bpp :
  filtered paeth cdat0 pdat bpp ftNone = cdat0.
Proof.
  unfold filtered. simpl. apply list_eq. intros p.
  rewrite list_lookup_fmap.
  destruct (decide (p < length cdat0)%nat) as [Hlt|Hge].
  - rewrite lookup_seq_lt by exact Hlt. simpl. unfold none_at.
    symmetry. apply index_byte_at. exact Hlt.
  - rewrite lookup_seq_ge by lia. simpl. symmetry.
    apply lookup_ge_None_2. lia.
Qed.

Section FilterChosen.

Variable paeth : Z -> Z -> Z -> Z.

(** After [filter], the buffer [cr[f]] of the returned rule [f] holds its
    tag byte followed by the whole row filtered with rule [f]. *)
Lemma filter_chosen_row cr pr bpp :
  well_sized cr pr bpp ->
  exists cr' f,
    filter paeth cr pr bpp = Some (cr', f) /\
    f ∈ evaluation_order /\
    tail (row_of cr' f) = filtered paeth (tail (cr0 cr)) (tail pr) bpp f.
Proof.
  intros Hws.
  destruct (filter_run_rows paeth cr pr bpp Hws)
    as (cr' & s1 & s3 & s4 & Hrun & H0 & _ & H2 & W4 & W1 & W3).
  set (S := full_sum paeth (tail (cr0 cr)) (tail pr) bpp) in *.
  destruct (selection_first_min S) as (_ & Hin & _).
  destruct (selection_kept S) as (K4 & K1 & K3).
  assert (bytes (tail (cr0 cr))) as Hb.
  { destruct Hws as (_ & _ & _ & _ & _ & _ & Hb).
    destruct (cr0 cr); [constructor|]. eapply Forall_cons_1, Hb. }
  assert (forall f p,
            is_byte (filtered_at paeth (tail (cr0 cr)) (tail pr) bpp f p))
    as Hg by (intros; apply filtered_at_is_byte, Hb).
  exists cr', (selection S 4).2. split; [exact Hrun|]. split; [exact Hin|].
  revert Hin K4 K1 K3. generalize ((selection S 4).2). intros f Hin K4 K1 K3.
  unfold evaluation_order in Hin.
  repeat (apply elem_of_cons in Hin as [->|Hin]).
  - exact H2.
  - unfold row_of. simpl.
    eapply written_below_best; [apply Hg|exact W4|].
    rewrite <- full_sum_sum_from. apply K4. reflexivity.
  - unfold row_of. simpl. rewrite H0. symmetry. apply filtered_none.
  - unfold row_of. simpl.
    eapply written_below_best; [apply Hg|exact W1|].
    rewrite <- full_sum_sum_from. apply K1. reflexivity.
  - unfold row_of. simpl.
    eapply written_below_best; [apply Hg|exact W3|].
    rewrite <- full_sum_sum_from. apply K3. reflexivity.
  - apply elem_of_nil in Hin. contradiction.
Qed.

End FilterChosen.

(** ** Reversing a filter *)

Lemma uint8_sub_add a x : uint8 (uint8 (a - x) + x) = uint8 a.
Proof.
  unfold uint8. rewrite Z.add_mod_idemp_l by lia.
  replace (a - x + x) with a by lia. reflexivity.
Qed.

Lemma uint8_sub_uint8 a x : uint8 (a - uint8 x) = uint8 (a - x).
Proof. unfold uint8. apply Zminus_mod_idemp_r. Qed.

Lemma paeth_predict_first_pixel b : paeth_predict 0 b 0 = b.
Proof.
  unfold paeth_predict.
  repeat match goal with
         | |- context [?x <=? ?y] => destruct (Z.leb_spec x y)
         end; simpl; lia.
Qed.

Section RoundTrip.

Variable paeth : Z -> Z -> Z -> Z.

(** The only fact about the predictor the round trip needs: on the first
    pixel of a row, where left and upper-left are 0, it predicts the byte
    above, which is what [filter] subtracts there. *)
Hypothesis paeth_first_pixel : forall b, paeth 0 b 0 = b.

(** One step: adding the prediction back to the filtered byte at position
    [i] gives the raw byte. *)
Lemma unfilter_step cdat0 pdat bpp f i :
  bytes cdat0 -> (1 <= bpp)%nat -> (i < length cdat0)%nat ->
  f ∈ evaluation_order ->
  let left := if decide (i < bpp)%nat then 0
              else byte_at (take i cdat0) (i - bpp) in
  let upleft := if decide (i < bpp)%nat then 0 else byte_at pdat (i - bpp) in
  uint8 (filtered_at paeth cdat0 pdat bpp f i
         + prediction paeth f left (byte_at pdat i) upleft)
  = byte_at cdat0 i.
Proof.
  intros Hb Hbpp Hi Hf left upleft.
  pose proof (byte_at_is_byte cdat0 i Hb) as Ha.
  assert (~ (i < bpp)%nat -> byte_at (take i cdat0) (i - bpp)
                             = byte_at cdat0 (i - bpp)) as Htake.
  { intros Hge. unfold byte_at. rewrite lookup_take_lt by lia. reflexivity. }
  unfold evaluation_order in Hf. subst left upleft.
  repeat (apply elem_of_cons in Hf as [->|Hf]).
  - (* up *) unfold filtered_at, prediction, up_at. simpl.
    rewrite uint8_sub_add. apply uint8_of_byte, Ha.
  - (* Paeth *) unfold filtered_at, prediction, paeth_at. simpl.
    destruct (decide (i < bpp)%nat) as [Hlt|Hge].
    + rewrite paeth_first_pixel, uint8_sub_add. apply uint8_of_byte, Ha.
    + rewrite Htake by exact Hge. rewrite uint8_sub_add.
      apply uint8_of_byte, Ha.
  - (* none *) unfold filtered_at, prediction, none_at. simpl.
    rewrite Z.add_0_r. apply uint8_of_byte, Ha.
  - (* sub *) unfold filtered_at, prediction, sub_at. simpl.
    destruct (decide (i < bpp)%nat) as [Hlt|Hge].
    + rewrite Z.add_0_r. apply uint8_of_byte, Ha.
    + rewrite Htake by exact Hge. rewrite uint8_sub_add.
      apply uint8_of_byte, Ha.
  - (* average *) unfold filtered_at, prediction, avg_at. simpl.
    destruct (decide (i < bpp)%nat) as [Hlt|Hge].
    + rewrite Z.add_0_l, uint8_sub_add. apply uint8_of_byte, Ha.
    + rewrite Htake by exact Hge. rewrite uint8_sub_uint8, uint8_sub_add.
      apply uint8_of_byte, Ha.
  - apply elem_of_nil in Hf. contradiction.
Qed.

Lemma unfilter_from_filtered cdat0 pdat bpp f :
  bytes cdat0 -> (1 <= bpp)%nat -> f ∈ evaluation_order ->
  forall k i, (i + k = length cdat0)%nat ->
    unfilter_from paeth f bpp pdat
      (map (filtered_at paeth cdat0 pdat bpp f) (seq i k)) i (take i cdat0)
    = cdat0.
Proof.
  intros Hb Hbpp Hf. induction k as [|k IH]; intros i Hik.
  - simpl. apply take_ge. lia.
  - simpl. rewrite unfilter_step by (auto; lia).
    rewrite <- (take_S_r cdat0 i (byte_at cdat0 i)).
    + apply IH. lia.
    + apply index_byte_at. lia.
Qed.

(** Reversing rule [f] on the whole row filtered with rule [f] gives the
    raw row back. *)
Lemma unfilter_filtered cdat0 pdat bpp f :
  bytes cdat0 -> (1 <= bpp)%nat -> f ∈ evaluation_order ->
  unfilter paeth f bpp pdat (filtered paeth cdat0 pdat bpp f) = cdat0.
Proof.
  intros Hb Hbpp Hf. unfold unfilter, filtered.
  apply (unfilter_from_filtered cdat0 pdat bpp f Hb Hbpp Hf _ 0%nat).
  reflexivity.
Qed.

(** C3. For the buffers of a row that holds at least one pixel and a
    bytes-per-pixel of at least 1, [filter] returns a rule [f] and leaves
    in [cr[f]] the filtered row; reversing rule [f] on those bytes (adding
    back, modulo 256, the left byte for Sub, the above byte for Up, the
    floor of the mean of left and above for Average, the Paeth prediction
    for Paeth, neighbours before the start of the row being 0) reproduces
    the raw row exactly. *)
Theorem filter_round_trip (cr : Rows) (pr : list Z) (bpp : nat) :
  well_sized cr pr bpp -> (1 <= bpp)%nat ->
  exists cr' f,
    filter paeth cr pr bpp = Some (cr', f) /\
    unfilter paeth f bpp (tail pr) (tail (row_of cr' f)) = tail (cr0 cr).
Proof.
  intros Hws Hbpp.
  destruct (filter_chosen_row paeth cr pr bpp Hws) as (cr' & f & Hrun & Hf & Hrow).
  exists cr', f. split; [exact Hrun|].
  rewrite Hrow. apply unfilter_filtered; auto.
  destruct Hws as (_ & _ & _ & _ & _ & _ & Hb).
  destruct (cr0 cr); [constructor|]. eapply Forall_cons_1, Hb.
Qed.

End RoundTrip.

(** ** The buffers after a call *)

Section FilterBuffers.

Variable paeth : Z -> Z -> Z -> Z.

(** C9, as the code has it. One call of [filter] on the buffers of a row
    that holds at least one pixel returns and leaves the raw row and every
    tag byte as they were; it overwrites the up buffer in full with the
    up-filtered row; the buffer of the rule it returns holds that rule's
    filtered row in full; and each of the sub, average and Paeth buffers
    has a prefix (at least the first pixel) overwritten with that rule's
    filtered bytes, the bytes after the prefix being left as they were;
    the prefix is the whole row, or ends at the first position after the
    first pixel where the rule's running sum has reached the best sum. *)
Theorem filter_overwrites_prefixes (cr : Rows) (pr : list Z) (bpp : nat) :
  well_sized cr pr bpp ->
  let S := full_sum paeth (tail (cr0 cr)) (tail pr) bpp in
  let full := filtered paeth (tail (cr0 cr)) (tail pr) bpp in
  exists cr' f,
    filter paeth cr pr bpp = Some (cr', f) /\
    cr0 cr' = cr0 cr /\
    (forall k, head (row_of cr' k) = head (row_of cr k)) /\
    tail (row_of cr' ftUp) = full ftUp /\
    tail (row_of cr' f) = full f /\
    (forall k, k ∈ [ftSub; ftAverage; ftPaeth] ->
       prefix_written (full k) (tail (row_of cr k)) (tail (row_of cr' k)) bpp
                      (best_before S k)).
Proof.
  intros Hws S full.
  destruct (filter_run_prefixes paeth cr pr bpp Hws)
    as (cr' & Hrun & H0 & Hhd & H2 & Hpre).
  destruct (filter_chosen_row paeth cr pr bpp Hws)
    as (cr'' & f & Hrun' & _ & Hrow).
  fold S in Hrun. rewrite Hrun in Hrun'. injection Hrun' as <- Hf.
  exists cr', f. rewrite <- Hf at 1. auto 10.
Qed.

End FilterBuffers.

Lemma stale_rows_well_sized : well_sized stale_rows stale_prev 1.
Proof.
  unfold well_sized, stale_rows, stale_prev. simpl.
  split_and!; try reflexivity; try lia.
  repeat constructor; unfold is_byte; lia.
Defined.

(** On [stale_rows] the up rule has sum 0, so every later loop stops at its
    first test: the sub buffer keeps a stale byte. *)
Lemma filter_leaves_stale_bytes :
  well_sized stale_rows stale_prev 1 /\
  ~ overwritten_in_full paeth_predict stale_rows stale_prev 1.
Proof.
  split; [exact stale_rows_well_sized|].
  intros H.
  specialize (H (mkRows [0; 10; 20; 30] [1; 10; 10; 7] [2; 0; 0; 0]
                        [3; 5; 5; 7] [4; 0; 0; 7]) ftUp eq_refl ftSub).
  assert (ftSub ∈ [ftSub; ftUp; ftAverage; ftPaeth]) as Hin
    by apply list_elem_of_here.
  specialize (H Hin). vm_compute in H. discriminate H.
Qed.

Lemma filter_overwrites_prefixes_witness :
  well_sized stale_rows stale_prev 1 /\
  exists cr' f,
    filter paeth_predict stale_rows stale_prev 1 = Some (cr', f) /\
    cr0 cr' = cr0 stale_rows /\
    (forall k, head (row_of cr' k) = head (row_of stale_rows k)) /\
    tail (row_of cr' ftUp)
      = filtered paeth_predict [10; 20; 30] [10; 20; 30] 1 ftUp /\
    tail (row_of cr' f)
      = filtered paeth_predict [10; 20; 30] [10; 20; 30] 1 f /\
    (forall k, k ∈ [ftSub; ftAverage; ftPaeth] ->
       prefix_written (filtered paeth_predict [10; 20; 30] [10; 20; 30] 1 k)
         (tail (row_of stale_rows k)) (tail (row_of cr' k)) 1
         (best_before (full_sum paeth_predict [10; 20; 30] [10; 20; 30] 1) k)).
Proof.
  split; [exact stale_rows_well_sized|].
  exact (filter_overwrites_prefixes paeth_predict stale_rows stale_prev 1
           stale_rows_well_sized).
Defined.

Lemma sample_rows_well_sized : well_sized sample_rows sample_prev 2.
Proof.
  unfold well_sized, sample_rows, sample_prev. simpl.
  split_and!; try reflexivity; try lia.
  repeat constructor; unfold is_byte; lia.
Defined.

Lemma filter_selects_first_minimum_witness :
  well_sized sample_rows sample_prev 2 /\
  let S := spec_full_sum paeth_predict [200; 3; 190; 250] [1; 2; 3; 4] 2 in
  exists cr' f,
    filter paeth_predict sample_rows sample_prev 2 = Some (cr', f) /\
    f = (selection S 4).2 /\
    f ∈ evaluation_order /\
    (forall g, g ∈ evaluation_order -> S f <= S g) /\
    (forall g, before g f -> S f < S g) /\
    (forall k, k ∈ [ftSub; ftAverage; ftPaeth] ->
       cut_short
         (filtered paeth_predict [200; 3; 190; 250] [1; 2; 3; 4] 2 k)
         (tail (row_of sample_rows k)) (tail (row_of cr' k)) 2
         (best_before S k)).
Proof.
  split; [exact sample_rows_well_sized|].
  exact (filter_selects_first_minimum paeth_predict sample_rows sample_prev 2
           sample_rows_well_sized).
Defined.

(** The full sums of the five rules on [sample_rows], in the words of the
    specification, by rule number: the bytes 200, 190 and 250 count as 56,
    66 and 6. *)
Example sample_rows_sums :
  map (spec_full_sum paeth_predict [200; 3; 190; 250] [1; 2; 3; 4] 2)
      [ftNone; ftSub; ftUp; ftAverage; ftPaeth]
  = [131; 78; 137; 156; 78].
Proof. vm_compute. reflexivity. Qed.

Lemma late_rows_well_sized : well_sized late_rows late_prev 2.
Proof.
  unfold well_sized, late_rows, late_prev. simpl.
  split_and!; try reflexivity; try lia.
  repeat constructor; unfold is_byte; lia.
Qed.

(** On [late_rows] the best sum is 2 when the sub loop starts (up has sum
    4, Paeth has sum 2). The first sub byte, 100, already exceeds it, yet
    the loop stores the second byte of the pixel and the byte after the
    pixel before its first test stops it: three bytes are stored. *)
Lemma filter_aborts_late :
  well_sized late_rows late_prev 2 /\
  filter paeth_predict late_rows late_prev 2
  = Some (mkRows [0; 100; 100; 100; 100] [1; 100; 100; 0; 7]
                 [2; 1; 1; 1; 1] [3; 51; 51; 1; 7] [4; 1; 1; 0; 0],
          ftPaeth) /\
  best_before (spec_full_sum paeth_predict [100; 100; 100; 100]
                             [99; 99; 99; 99] 2) ftSub = 2 /\
  ~ aborted_as_soon_as paeth_predict late_rows late_prev 2.
Proof.
  split; [exact late_rows_well_sized|].
  split; [vm_compute; reflexivity|].
  split; [vm_compute; reflexivity|].
  intros H.
  destruct (H (mkRows [0; 100; 100; 100; 100] [1; 100; 100; 0; 7]
                      [2; 1; 1; 1; 1] [3; 51; 51; 1; 7] [4; 1; 1; 0; 0])
              ftPaeth ltac:(vm_compute; reflexivity) ftSub
              ltac:(apply list_elem_of_here))
    as (j & Hj & Hnew & Hearly).
  destruct j as [|[|[|[|[|j]]]]]; try (vm_compute in Hnew; discriminate Hnew).
  specialize (Hearly 1%nat ltac:(lia)). vm_compute in Hearly.
  discriminate Hearly.
Qed.

Lemma filter_round_trip_witness :
  well_sized sample_rows sample_prev 2 /\ (1 <= 2)%nat /\
  exists cr' f,
    filter paeth_predict sample_rows sample_prev 2 = Some (cr', f) /\
    unfilter paeth_predict f 2 [1; 2; 3; 4] (tail (row_of cr' f))
      = [200; 3; 190; 250].
Proof.
  split; [exact sample_rows_well_sized|]. split; [lia|].
  apply (filter_round_trip paeth_predict paeth_predict_first_pixel
           sample_rows sample_prev 2 sample_rows_well_sized). lia.
Defined.

(** The sample row, run: Paeth and Sub both have the full sum 78; Paeth,
    tried first, is kept. The average loop stopped after three bytes. *)
Example filter_sample :
  filter paeth_predict sample_rows sample_prev 2
  = Some (mkRows [0; 200; 3; 190; 250] [1; 200; 3; 246; 247]
                 [2; 199; 1; 187; 246] [3; 200; 2; 89; 0]
                 [4; 199; 1; 246; 246], ftPaeth).
Proof. vm_compute. reflexivity. Qed.

(** A row of a zero-width image has no data bytes: with one byte per
    pixel the first store of the Paeth loop is out of range, and [filter]
    panics. *)
Example filter_zero_width_row :
  filter paeth_predict (mkRows [0] [1] [2] [3] [4]) [0] 1 = None.
Proof. reflexivity. Qed.

(* ================================================================== *)
(** * Properties of the chunk framing *)

Example crc32_IEND : crc32_ChecksumIEEE [73; 69; 78; 68] = 0xae426082.
Proof. vm_compute. reflexivity. Qed.

Example writeChunkTo_IEND :
  writeChunkTo [73; 69; 78; 68] [] buffer_writer []
  = Some ((12, None), [[0; 0; 0; 0; 73; 69; 78; 68]; []; [174; 66; 96; 130]]).
Proof. vm_compute. reflexivity. Qed.

(** ** Big-endian words *)

Lemma be32_shift u :
  be32 u = [uint8 (Z.shiftr u 24); uint8 (Z.shiftr u 16);
            uint8 (Z.shiftr u 8); uint8 (Z.shiftr u 0)].
Proof.
  unfold be32, uint8. rewrite !Z.shiftr_div_pow2 by lia.
  rewrite Z.pow_0_r, Z.div_1_r. reflexivity.
Qed.

Lemma writeUint32_be32 b u :
  (4 <= length b)%nat -> writeUint32 b u = Some (be32 u ++ drop 4 b).
Proof.
  intros Hb. rewrite be32_shift.
  destruct b as [|b0 [|b1 [|b2 [|b3 b]]]]; simpl in Hb; try lia.
  reflexivity.
Qed.

Lemma be32_decode_be32 u : 0 <= u < 2 ^ 32 -> be32_decode (be32 u) = u.
Proof.
  intros Hu. unfold be32_decode, be32. simpl.
  pose proof (Z.div_mod u (2 ^ 8) ltac:(lia)) as E1.
  pose proof (Z.div_mod (u / 2 ^ 8) (2 ^ 8) ltac:(lia)) as E2.
  pose proof (Z.div_mod (u / 2 ^ 8 / 2 ^ 8) (2 ^ 8) ltac:(lia)) as E3.
  rewrite !Z.div_div in E2, E3 by lia.
  rewrite Z.div_div in E3 by lia.
  change (2 ^ 8 * 2 ^ 8) with (2 ^ 16) in *.
  change (2 ^ 16 * 2 ^ 8) with (2 ^ 24) in *.
  change (2 ^ 8) with 256 in *.
  assert (u / 2 ^ 24 mod 256 = u / 2 ^ 24) as ->.
  { apply Z.mod_small. split; [apply Z.div_pos; lia|].
    apply Z.div_lt_upper_bound; lia. }
  lia.
Qed.

Lemma be32_length u : length (be32 u) = 4%nat.
Proof. reflexivity. Qed.

(** ** The checksum *)

Lemma crc32_not_involutive c : crc32_not (crc32_not c) = c.
Proof.
  unfold crc32_not. rewrite Z.lxor_assoc, Z.lxor_nilpotent, Z.lxor_0_r.
  reflexivity.
Qed.

(** Feeding a digest two slices in turn is feeding it their
    concatenation. *)
Lemma crc32_update_app c p q :
  crc32_update (crc32_update c p) q = crc32_update c (p ++ q).
Proof.
  unfold crc32_update. rewrite crc32_not_involutive, fold_left_app.
  reflexivity.
Qed.

(** ** [writeChunkTo] *)

(** The code of [writeChunkTo] with the header, the checksum and the
    footer computed: three calls of [Write] in sequence, each one made only
    if the one before reported no error. *)
Lemma writeChunkTo_writes n0 n1 n2 n3 rest b w log :
  let tag := [n0; n1; n2; n3] in
  let header := be32 (uint32 (Z.of_nat (length b))) ++ tag in
  let footer := be32 (crc32_ChecksumIEEE (tag ++ b)) in
  writeChunkTo (n0 :: n1 :: n2 :: n3 :: rest) b w log
  = Some
      match w log header with
      | (hl, Some e) => ((hl, Some e), log ++ [header])
      | (hl, None) =>
          match w (log ++ [header]) b with
          | (bl, Some e) => ((hl + bl, Some e), log ++ [header] ++ [b])
          | (bl, None) =>
              let '(fl, err) := w (log ++ [header] ++ [b]) footer in
              ((hl + bl + fl, err), log ++ [header] ++ [b] ++ [footer])
          end
      end.
Proof.
  intros tag header footer. unfold writeChunkTo. cbv zeta.
  rewrite writeUint32_be32 by (simpl; lia).
  rewrite be32_shift. simpl.
  unfold Write, slice. simpl.
  rewrite crc32_update_app. simpl.
  subst header footer tag. unfold crc32_ChecksumIEEE.
  rewrite !be32_shift. simpl.
  destruct (w log _) as [hl [e|]]; [reflexivity|].
  destruct (w (log ++ _) b) as [bl [e|]].
  - rewrite <- app_assoc. reflexivity.
  - rewrite <- !app_assoc. simpl.
    destruct (w _ _) as [fl err]. reflexivity.
Qed.

Lemma name_four (name : list Z) :
  (4 <= length name)%nat ->
  exists n0 n1 n2 n3 rest,
    name = n0 :: n1 :: n2 :: n3 :: rest /\ take 4 name = [n0; n1; n2; n3].
Proof.
  intros H. destruct name as [|n0 [|n1 [|n2 [|n3 rest]]]]; simpl in H; try lia.
  exists n0, n1, n2, n3, rest. split; reflexivity.
Qed.

(** C8. The bytes of a chunk are handed to the writer in three calls of
    [Write], in sequence: the 8-byte header (length and tag), the payload,
    the 4-byte checksum. If the first call reports an error nothing else is
    written, and the count of that call is returned with the error; if the
    second does, the third is not made, and the sum of the two counts is
    returned with the error; otherwise the sum of the three counts is
    returned with whatever the third call reported. *)
Theorem writeChunkTo_stops_at_first_error
    (name b : list Z) (w : Writer) (log : list (list Z)) :
  (4 <= length name)%nat ->
  let tag := take 4 name in
  let header := be32 (uint32 (Z.of_nat (length b))) ++ tag in
  let footer := be32 (crc32_ChecksumIEEE (tag ++ b)) in
  length header = 8%nat /\ length footer = 4%nat /\
  (forall hl e,
     w log header = (hl, Some e) ->
     writeChunkTo name b w log = Some ((hl, Some e), log ++ [header])) /\
  (forall hl bl e,
     w log header = (hl, None) ->
     w (log ++ [header]) b = (bl, Some e) ->
     writeChunkTo name b w log
       = Some ((hl + bl, Some e), log ++ [header; b])) /\
  (forall hl bl fl err,
     w log header = (hl, None) ->
     w (log ++ [header]) b = (bl, None) ->
     w (log ++ [header; b]) footer = (fl, err) ->
     writeChunkTo name b w log
       = Some ((hl + bl + fl, err), log ++ [header; b; footer])).
Proof.
  intros Hname.
  destruct (name_four name Hname) as (n0 & n1 & n2 & n3 & rest & -> & Htag).
  rewrite Htag. intros tag header footer.
  pose proof (writeChunkTo_writes n0 n1 n2 n3 rest b w log) as Hrun.
  cbv zeta in Hrun. fold tag header footer in Hrun.
  split; [reflexivity|]. split; [reflexivity|]. split_and!.
  - intros hl e H1. rewrite Hrun, H1. reflexivity.
  - intros hl bl e H1 H2. rewrite Hrun, H1, H2. reflexivity.
  - intros hl bl fl err H1 H2 H3. rewrite Hrun, H1, H2.
    change (log ++ [header] ++ [b]) with (log ++ [header; b]).
    rewrite H3. reflexivity.
Qed.

(** C1. When [writeChunkTo] succeeds (it returns a nil error), the bytes
    it handed to the writer are, in order and with nothing else: the
    payload length as four big-endian bytes, the four tag bytes, the
    payload, and four big-endian bytes of the CRC-32 (IEEE) of the tag
    bytes followed by the payload bytes. The four leading bytes decode to
    the exact payload byte count. *)
Theorem writeChunkTo_emits_chunk
    (name b : list Z) (w : Writer) (log log' : list (list Z)) (n : Z) :
  (4 <= length name)%nat ->
  Z.of_nat (length b) < 2 ^ 32 ->
  writeChunkTo name b w log = Some ((n, None), log') ->
  exists calls,
    log' = log ++ calls /\
    concat calls = chunk_bytes (take 4 name) b /\
    concat calls
      = be32 (Z.of_nat (length b)) ++ take 4 name ++ b
        ++ be32 (crc32_ChecksumIEEE (take 4 name ++ b)) /\
    be32_decode (take 4 (concat calls)) = Z.of_nat (length b).
Proof.
  intros Hname Hlen Hrun.
  destruct (name_four name Hname) as (n0 & n1 & n2 & n3 & rest & -> & Htag).
  rewrite Htag. rewrite writeChunkTo_writes in Hrun. cbv zeta in Hrun.
  assert (uint32 (Z.of_nat (length b)) = Z.of_nat (length b)) as Hu
    by (unfold uint32; apply Z.mod_small; lia).
  rewrite Hu in Hrun.
  destruct (w log _) as [hl [e|]]; [discriminate Hrun|].
  destruct (w (log ++ _) b) as [bl [e|]]; [discriminate Hrun|].
  destruct (w (log ++ _ ++ _) _) as [fl err].
  injection Hrun as _ -> <-.
  eexists. split; [reflexivity|].
  unfold chunk_bytes. simpl. rewrite ?app_nil_r.
  split; [reflexivity|]. split; [reflexivity|].
  apply (be32_decode_be32 (Z.of_nat (length b))). lia.
Qed.

Lemma writeChunkTo_emits_chunk_witness :
  (4 <= length [73; 68; 65; 84])%nat /\
  Z.of_nat (length [120; 156; 1]) < 2 ^ 32 /\
  exists calls,
    [[9]; [9; 9]] ++ [[0; 0; 0; 3; 73; 68; 65; 84]; [120; 156; 1];
                     [9; 219; 130; 202]]
      = [[9]; [9; 9]] ++ calls /\
    concat calls = chunk_bytes (take 4 [73; 68; 65; 84]) [120; 156; 1] /\
    concat calls
      = be32 (Z.of_nat (length [120; 156; 1])) ++ take 4 [73; 68; 65; 84]
        ++ [120; 156; 1]
        ++ be32 (crc32_ChecksumIEEE (take 4 [73; 68; 65; 84] ++ [120; 156; 1])) /\
    be32_decode (take 4 (concat calls)) = Z.of_nat (length [120; 156; 1]).
Proof.
  split; [simpl; lia|]. split; [simpl; lia|].
  apply (writeChunkTo_emits_chunk [73; 68; 65; 84] [120; 156; 1]
           buffer_writer [[9]; [9; 9]] _ 15).
  - simpl; lia.
  - simpl; lia.
  - vm_compute. reflexivity.
Defined.

Lemma writeChunkTo_stops_at_first_error_witness :
  (4 <= length [73; 68; 65; 84])%nat /\
  writeChunkTo [73; 68; 65; 84] [1; 2; 3; 4; 5] (limited_writer 10) []
  = Some ((10, Some (mkError 28)),
          [[0; 0; 0; 5; 73; 68; 65; 84]; [1; 2; 3; 4; 5]]).
Proof.
  assert (4 <= length [73; 68; 65; 84])%nat as H by (simpl; lia).
  split; [exact H|].
  destruct (writeChunkTo_stops_at_first_error [73; 68; 65; 84]
              [1; 2; 3; 4; 5] (limited_writer 10) [] H)
    as (_ & _ & _ & Hsecond & _).
  apply (Hsecond 8 2 (mkError 28)); reflexivity.
Defined.

(* ================================================================== *)
(** * Properties of the pipeline *)

(** ** Sequence numbers *)

Lemma SequenceNumbers_Next_spec p h v :
  h !! p = Some v -> 0 <= v < 2 ^ 32 ->
  SequenceNumbers_Next p h = Some (v, <[p := uint32 (v + 1)]> h).
Proof.
  intros Hp Hv. unfold SequenceNumbers_Next. rewrite Hp. simpl.
  unfold uint32 at 1. rewrite Z.mod_small by lia. reflexivity.
Qed.

(** Every draw on the counter [p] takes one number: the value of the
    counter, which goes up by one. *)
Lemma draw_on_counter p d h v :
  on_counter p d -> h !! p = Some v -> 0 <= v < 2 ^ 32 ->
  draw d h = Some (v, <[p := uint32 (v + 1)]> h).
Proof.
  intros Hd Hp Hv. destruct d as [s|e]; simpl in *.
  - subst s. apply SequenceNumbers_Next_spec; assumption.
  - destruct Hd as [Hs [x Hx]]. unfold Encoder_fdAT_Chunk. rewrite Hs.
    rewrite (SequenceNumbers_Next_spec _ _ _ Hp Hv). simpl.
    unfold Encoder_IDAT_Chunk. rewrite Hx. reflexivity.
Qed.

Lemma draws_run p ds :
  Forall (on_counter p) ds ->
  forall h v,
    h !! p = Some v -> 0 <= v < 2 ^ 32 ->
    v + Z.of_nat (length ds) <= 2 ^ 32 ->
    draws ds h
    = Some (run_from v (length ds),
            <[p := uint32 (v + Z.of_nat (length ds))]> h).
Proof.
  induction 1 as [|d ds Hd Hds IH]; intros h v Hp Hv Hk.
  - simpl. unfold run_from. simpl. rewrite Z.add_0_r.
    unfold uint32. rewrite Z.mod_small by lia.
    rewrite list_insert_id by exact Hp. reflexivity.
  - simpl length in *. simpl draws.
    rewrite (draw_on_counter p d h v Hd Hp) by lia. simpl.
    assert (run_from v (S (length ds)) = v :: run_from (v + 1) (length ds))
      as Hrun.
    { unfold run_from. simpl. rewrite Z.add_0_r. f_equal.
      rewrite <- seq_shift, map_map. apply map_ext. intros i. lia. }
    destruct ds as [|d' ds'].
    + rewrite Hrun. reflexivity.
    + simpl length in *.
      assert (uint32 (v + 1) = v + 1) as Hu
        by (unfold uint32; apply Z.mod_small; lia).
      rewrite Hu.
      rewrite (IH (<[p := v + 1]> h) (v + 1)); [| |lia|lia].
      * simpl. rewrite list_insert_insert_eq, Hrun. do 4 f_equal. lia.
      * apply list_lookup_insert_eq. eapply lookup_lt_Some, Hp.
Qed.

(** C6. In a session whose draws all go to one counter made by
    [NewSequenceNumbers], the numbers consumed by [k] draws, frame-control
    and frame-data chunks in any interleaving, are 0, 1, ..., k-1 in draw
    order, with no duplicate and none skipped, as long as the 32-bit
    counter does not wrap (k <= 2^32); the counter then holds k. A call of
    [Next] returns the value of the counter and adds one to it, and a
    frame-data chunk takes exactly one number. *)
Theorem sequence_numbers_contiguous
    (h0 h : SeqStore) (p : nat) (ds : list Draw) :
  NewSequenceNumbers h0 = (p, h) ->
  Forall (on_counter p) ds ->
  Z.of_nat (length ds) <= 2 ^ 32 ->
  draws ds h
    = Some (map Z.of_nat (seq 0 (length ds)),
            <[p := uint32 (Z.of_nat (length ds))]> h) /\
  NoDup (map Z.of_nat (seq 0 (length ds))) /\
  (forall v h1, h1 !! p = Some v -> 0 <= v < 2 ^ 32 ->
     SequenceNumbers_Next p h1 = Some (v, <[p := uint32 (v + 1)]> h1)) /\
  (forall e v h1, on_counter p (DrawFdAT e) -> h1 !! p = Some v ->
     0 <= v < 2 ^ 32 ->
     exists c, Encoder_fdAT_Chunk e h1 = Some (c, <[p := uint32 (v + 1)]> h1)
               /\ SequenceNumber c = v).
Proof.
  unfold NewSequenceNumbers. intros [= <- <-] Hds Hk. split_and!.
  - rewrite (draws_run (length h0) ds Hds (h0 ++ [0]) 0); [|
      rewrite lookup_app_r, Nat.sub_diag by lia; reflexivity | lia | lia].
    reflexivity.
  - apply NoDup_fmap_2; [intros x y; lia|apply NoDup_seq].
  - intros v h1. apply SequenceNumbers_Next_spec.
  - intros e v h1 He Hp Hv.
    pose proof (draw_on_counter _ _ _ _ He Hp Hv) as Hdraw. simpl in Hdraw.
    destruct (Encoder_fdAT_Chunk e h1) as [[c h2]|]; [|discriminate].
    simpl in Hdraw. injection Hdraw as <- <-. exists c. auto.
Qed.

Lemma sequence_numbers_contiguous_witness :
  NewSequenceNumbers [] = (0%nat, [0]) /\
  Forall (on_counter 0) sample_session /\
  Z.of_nat (length sample_session) <= 2 ^ 32 /\
  draws sample_session [0] = Some ([0; 1; 2; 3; 4], [5]).
Proof.
  assert (Forall (on_counter 0) sample_session) as Hon.
  { unfold sample_session. repeat constructor; simpl; eauto. }
  assert (Z.of_nat (length sample_session) <= 2 ^ 32) as Hk
    by (simpl; lia).
  split; [reflexivity|]. split; [exact Hon|]. split; [exact Hk|].
  exact (proj1 (sequence_numbers_contiguous [] [0] 0 sample_session
                  eq_refl Hon Hk)).
Defined.

(** ** Errors reach the consumer as data *)

Lemma Next_after_error e rt :
  Encoder_IDAT_Err e <> None -> Encoder_IDAT_Next e rt = Returned false e rt.
Proof.
  intros H. unfold Encoder_IDAT_Next. rewrite bool_decide_eq_true_2 by exact H.
  reflexivity.
Qed.

Lemma pull_after_error n e rt :
  Encoder_IDAT_Err e <> None -> pull n e rt = Returned (replicate n false) e rt.
Proof.
  intros H. induction n as [|n IH]; simpl; [reflexivity|].
  rewrite Next_after_error by exact H. rewrite IH. reflexivity.
Qed.

(** Receiving on the channel of the last goroutine started. *)
Lemma receive_last (rt : Runtime) x rest en :
  receive (rt ++ [mkTask (x :: rest) en]) (length rt)
  = Got x (rt ++ [mkTask rest en]).
Proof.
  unfold receive. rewrite lookup_app_r, Nat.sub_diag by lia. simpl.
  f_equal. rewrite insert_app_r_alt, Nat.sub_diag by lia. reflexivity.
Qed.

(** A consumer whose current atom carries no error takes the atoms of the
    task one by one; each call of [Next] returns true, none blocks. *)
Lemma pull_units (rt : Runtime) en :
  forall sent rest a0,
    units sent ->
    Encoder_IDAT_Err (mkEncoder_IDAT (length rt) a0) = None ->
    exists a1,
      pull (length sent) (mkEncoder_IDAT (length rt) a0)
           (rt ++ [mkTask (sent ++ rest) en])
      = Returned (replicate (length sent) true)
                 (mkEncoder_IDAT (length rt) a1) (rt ++ [mkTask rest en]) /\
      Encoder_IDAT_Err (mkEncoder_IDAT (length rt) a1) = None.
Proof.
  induction sent as [|y sent IH]; intros rest a0 Hu Ha.
  - exists a0. split; [reflexivity|exact Ha].
  - simpl. unfold Encoder_IDAT_Next.
    rewrite bool_decide_eq_false_2 by (rewrite Ha; auto).
    simpl. rewrite receive_last.
    apply Forall_cons_1 in Hu as [Hy Hu].
    destruct (IH rest (Some y) Hu Hy) as (a1 & Hpull & Ha1).
    exists a1. rewrite Hpull. split; [reflexivity|exact Ha1].
Qed.

Lemma pull_app n k e rt :
  pull (n + k) e rt
  = match pull n e rt with
    | Returned rs e rt =>
        match pull k e rt with
        | Returned rs' e rt => Returned (rs ++ rs') e rt
        | Blocked => Blocked
        | Panicked => Panicked
        end
    | Blocked => Blocked
    | Panicked => Panicked
    end.
Proof.
  revert e rt. induction n as [|n IH]; intros e rt; simpl.
  - destruct (pull k e rt); reflexivity.
  - destruct (Encoder_IDAT_Next e rt) as [r e' rt'| |]; try reflexivity.
    rewrite IH. destruct (pull n e' rt') as [rs e2 rt2| |]; try reflexivity.
    destruct (pull k e2 rt2); reflexivity.
Qed.

(** ** The atoms the producer sends *)

Lemma bufio_Write_units s p : units s.2 -> units (bufio_Write s p).2.
Proof.
  destruct s as [pending sent]. unfold bufio_Write, atomWriter_Write, units.
  simpl. intros H. repeat case_decide; simpl; auto;
    repeat (apply Forall_app; split; auto).
Qed.

Lemma fold_bufio_Write_units outs : forall s,
  units s.2 -> units (fold_left bufio_Write outs s).2.
Proof.
  induction outs as [|p outs IH]; intros s H; simpl; [exact H|].
  apply IH, bufio_Write_units, H.
Qed.

Lemma z_Write_units coder (s : Sink coder) row :
  units s.2.2 -> units (z_Write coder s row).1.2.2.
Proof.
  destruct s as [z b]. unfold z_Write. simpl.
  destruct (coder_write coder z row) as [[z' outs] e]. simpl.
  apply fold_bufio_Write_units.
Qed.

Section WriteImageInvariant.

Variable paeth : Z -> Z -> Z -> Z.
Context {W : Type}.
Variable w_Write : W -> list Z -> W * option error.
Variable P : W -> Prop.
Hypothesis P_Write : forall w row, P w -> P (w_Write w row).1.

(** A property of the writer that each [Write] keeps holds of the writer
    [writeImage] returns. *)
Lemma row_loop_invariant m cb applyFilter bpp ys :
  forall s r, P s.2 ->
    row_loop paeth w_Write m cb applyFilter bpp ys s = Some r -> P r.1.
Proof.
  induction ys as [|y ys IH]; intros [[cr pr] w] r Hw Hrun; simpl in *.
  - injection Hrun as <-. exact Hw.
  - destruct (convert_row m cb y (cr0 cr)) as [row|]; [|discriminate].
    simpl in Hrun.
    destruct (if applyFilter then _ else _) as [[cr' f]|]; [|discriminate].
    simpl in Hrun. pose proof (P_Write w (row_of cr' f) Hw) as Hw'.
    destruct (w_Write w (row_of cr' f)) as [w' [e|]]; simpl in *.
    + injection Hrun as <-. exact Hw'.
    + eapply IH; [|exact Hrun]. exact Hw'.
Qed.

Lemma writeImage_invariant w m cb applyFilter r :
  P w -> writeImage paeth w_Write w m cb applyFilter = Some r -> P r.1.
Proof.
  intros Hw Hrun. unfold writeImage in Hrun.
  repeat match type of Hrun with
         | context [make_row ?x ?y ?z] =>
             destruct (make_row x y z); simpl in Hrun; [|discriminate Hrun]
         end.
  destruct (make _); simpl in Hrun; [|discriminate Hrun].
  eapply row_loop_invariant; [|exact Hrun]. exact Hw.
Qed.

End WriteImageInvariant.

Section ErrorsAsData.

Variable paeth : Z -> Z -> Z -> Z.
Variable coder : Coder.

(** The task of a failing producer: units, then one atom that carries the
    error. *)
Lemma goroutine_of_failure c m cl e :
  producer_failure paeth coder c m cl = Some e ->
  exists sent en,
    goroutine paeth coder c m cl = mkTask (sent ++ [mkAtom [] (Some e)]) en /\
    units sent.
Proof.
  unfold producer_failure, goroutine.
  destruct (coder_new coder _) as [e0|z].
  - intros [= ->]. exists [], Returns. split; [reflexivity|constructor].
  - destruct (writeImage _ _ _ _ _ _) as [[[z' [pending sent]] [e0|]]|] eqn:Hw;
      try discriminate.
    intros [= ->]. exists sent, Closes. split; [reflexivity|].
    apply (writeImage_invariant paeth (z_Write coder) (fun s => units s.2.2))
      in Hw; simpl in *.
    + exact Hw.
    + intros w row. apply z_Write_units.
    + constructor.
Qed.

(** The task of a panicking producer: nothing is sent for the panic. *)
Lemma goroutine_of_panic c m cl :
  producer_panics paeth coder c m cl ->
  goroutine paeth coder c m cl = mkTask [] Panics /\
  producer_failure paeth coder c m cl = None.
Proof.
  intros (z & Hz & Hw). unfold goroutine, producer_failure.
  rewrite Hz, Hw. split; reflexivity.
Qed.

(** C7. What crosses the task boundary. An error value of the producer
    (returned by the construction of the coder, or by [writeImage]) is
    sent as an atom after the units: a consumer that calls [Next] receives
    the units and that atom, each call returning true without blocking,
    after which [Err] returns the error. A panic of the producer is not
    an error value and is not captured: no atom is sent for it, [Err]
    stays nil after every call of [Next] that returns, and the program
    panics. The level handed to the coder is always one of -1, 0, 1 and 9.
    Whenever [Err] is non-nil, [Next] returns false at once, without
    receiving from the channel, and leaves the encoder as it is, so that
    this holds for every later call; the same holds of a frame-data
    encoder, whose [Next] and [Err] are those of the image-data encoder in
    it. *)
Theorem producer_failure_reaches_consumer
    (c : Chunk_IHDR) (m : Image) (cl : Z) (rt : Runtime) :
  let started := NewEncoder_IDAT paeth coder c m cl rt in
  (forall e, producer_failure paeth coder c m cl = Some e ->
     exists k e1 rt1,
       pull k started.1 started.2 = Returned (replicate k true) e1 rt1 /\
       Encoder_IDAT_Err e1 = Some e /\
       forall n, pull n e1 rt1 = Returned (replicate n false) e1 rt1) /\
  (producer_panics paeth coder c m cl ->
     producer_failure paeth coder c m cl = None /\
     (forall n rs e1 rt1,
        pull n started.1 started.2 = Returned rs e1 rt1 ->
        Encoder_IDAT_Err e1 = None) /\
     exists n, pull n started.1 started.2 = Panicked) /\
  CompressionLevel_zlib cl ∈ [-1; 0; 1; 9] /\
  (forall e' rt',
     Encoder_IDAT_Err e' <> None ->
     Encoder_IDAT_Next e' rt' = Returned false e' rt') /\
  (forall f rt',
     Encoder_fdAT_Err f <> None ->
     Encoder_fdAT_Next f rt' = Returned false (encoder_IDAT f) rt').
Proof.
  intros started.
  split_and!; try (intros; apply Next_after_error; assumption).
  - intros e Hfail.
    destruct (goroutine_of_failure c m cl e Hfail) as (sent & en & Htask & Hu).
    subst started. unfold NewEncoder_IDAT. simpl. rewrite Htask.
    destruct (pull_units rt en sent [mkAtom [] (Some e)] None Hu eq_refl)
      as (a1 & Hpull & Ha1).
    exists (length sent + 1)%nat,
      (mkEncoder_IDAT (length rt) (Some (mkAtom [] (Some e)))),
      (rt ++ [mkTask [] en]).
    split_and!.
    + rewrite pull_app, Hpull. simpl. unfold Encoder_IDAT_Next.
      rewrite bool_decide_eq_false_2 by (rewrite Ha1; auto).
      simpl. rewrite receive_last.
      rewrite replicate_add. reflexivity.
    + reflexivity.
    + intros n. apply pull_after_error. discriminate.
  - intros Hpanic.
    destruct (goroutine_of_panic c m cl Hpanic) as [Htask Hnone].
    assert (forall n, pull (S n) started.1 started.2 = Panicked) as Hcrash.
    { intros n. subst started. unfold NewEncoder_IDAT. cbn [fst snd].
      rewrite Htask. cbn [pull]. unfold Encoder_IDAT_Next. cbn [a aw].
      rewrite bool_decide_eq_false_2 by (unfold Encoder_IDAT_Err; simpl; auto).
      unfold receive. rewrite lookup_app_r, Nat.sub_diag by lia.
      reflexivity. }
    split_and!.
    + exact Hnone.
    + intros [|n] rs e1 rt1 Hpull.
      * simpl in Hpull. injection Hpull as _ <- _. reflexivity.
      * rewrite Hcrash in Hpull. discriminate.
    + exists 1%nat. apply Hcrash.
  - unfold CompressionLevel_zlib.
    repeat case_match;
      repeat first [apply list_elem_of_here | apply list_elem_of_further].
Qed.

End ErrorsAsData.

Lemma producer_failure_reaches_consumer_witness :
  (producer_panics paeth_predict framing_coder header_P8 two_pixels
                   DefaultCompression /\
   exists n,
     pull n (mkEncoder_IDAT 0 None)
          [goroutine paeth_predict framing_coder header_P8 two_pixels
                     DefaultCompression]
     = Panicked) /\
  (producer_failure paeth_predict (faulty_coder 5) header_TCA8 two_pixels
                    DefaultCompression = Some (mkError 5) /\
   exists k e1 rt1,
     pull k (mkEncoder_IDAT 0 None)
          [goroutine paeth_predict (faulty_coder 5) header_TCA8 two_pixels
                     DefaultCompression]
     = Returned (replicate k true) e1 rt1 /\
     Encoder_IDAT_Err e1 = Some (mkError 5) /\
     forall n, pull n e1 rt1 = Returned (replicate n false) e1 rt1).
Proof.
  assert (producer_panics paeth_predict framing_coder header_P8 two_pixels
                          DefaultCompression) as Hp
    by (exists false; split; vm_compute; reflexivity).
  assert (producer_failure paeth_predict (faulty_coder 5) header_TCA8
            two_pixels DefaultCompression = Some (mkError 5)) as Hf
    by (vm_compute; reflexivity).
  split; (split; [assumption|]).
  - exact (proj2 (proj2 (proj1 (proj2
             (producer_failure_reaches_consumer paeth_predict framing_coder
                header_P8 two_pixels DefaultCompression [])) Hp))).
  - exact (proj1 (producer_failure_reaches_consumer paeth_predict
                    (faulty_coder 5) header_TCA8 two_pixels
                    DefaultCompression []) (mkError 5) Hf).
Defined.

(** Two producers that fail in the row loop, with a coder that accepts
    every level and never fails. A palette layout asked of an
    [*image.NRGBA]: the type assertion [m.(image.PalettedImage)] panics. An
    image of one row and no column, with filtering: [filter] indexes the
    first pixel of a row that has none. Neither failure is delivered as
    data; both end the program. *)
Lemma producer_panic_crosses_boundary :
  producer_panics paeth_predict framing_coder header_P8 two_pixels
                  DefaultCompression /\
  ~ never_thrown paeth_predict framing_coder header_P8 two_pixels
                 DefaultCompression /\
  producer_panics paeth_predict framing_coder header_TCA8 no_columns
                  DefaultCompression /\
  ~ never_thrown paeth_predict framing_coder header_TCA8 no_columns
                 DefaultCompression.
Proof.
  split_and!.
  - exists false. split; vm_compute; reflexivity.
  - intros H. apply (H [] 1%nat). vm_compute. reflexivity.
  - exists false. split; vm_compute; reflexivity.
  - intros H. apply (H [] 1%nat). vm_compute. reflexivity.
Qed.

(** The same failure, run: the first row stays in the buffer, the second
    row fails, the only atom the consumer gets is the error. *)
Example faulty_coder_run :
  goroutine paeth_predict (faulty_coder 5) header_TCA8 two_pixels
            DefaultCompression
  = mkTask [mkAtom [] (Some (mkError 5))] Closes.
Proof. vm_compute. reflexivity. Qed.

(** A coder that cannot be constructed: the error is sent and the
    goroutine returns, leaving the channel open. *)
Example absent_coder_run :
  goroutine paeth_predict absent_coder header_TCA8 two_pixels
            DefaultCompression
  = mkTask [mkAtom [] (Some (mkError 22))] Returns.
Proof. vm_compute. reflexivity. Qed.

(** A palette layout asked of an image that has no palette index
    accessor: the type assertion of [writeImage] panics in the goroutine.
    A panic is not an error value; nothing is sent for it. *)
Example goroutine_panics :
  goroutine paeth_predict framing_coder
            (mkIHDR 1 2 BitDepth_8 ColorType_Paletted 0 0 0) two_pixels
            DefaultCompression
  = mkTask [] Panics.
Proof. vm_compute. reflexivity. Qed.

(** ** What reaches the consumer *)

Lemma bufio_Write_taken s p : taken (bufio_Write s p) = taken s ++ p.
Proof.
  destruct s as [pending sent].
  unfold bufio_Write, atomWriter_Write, taken. simpl.
  repeat case_decide; simpl;
    rewrite ?map_app, ?concat_app; simpl; rewrite ?app_nil_r, <- ?app_assoc;
    try reflexivity.
  - destruct pending; [|discriminate]. reflexivity.
  - rewrite take_drop. reflexivity.
  - rewrite take_drop. reflexivity.
Qed.

Lemma fold_bufio_Write_taken outs : forall s,
  taken (fold_left bufio_Write outs s) = taken s ++ concat outs.
Proof.
  induction outs as [|p outs IH]; intros s; simpl.
  - rewrite app_nil_r. reflexivity.
  - rewrite IH, bufio_Write_taken, <- app_assoc. reflexivity.
Qed.

Lemma bufio_Flush_taken s :
  concat (map buf (bufio_Flush s).2) = taken s.
Proof.
  destruct s as [pending sent]. unfold bufio_Flush, atomWriter_Write, taken.
  simpl. case_decide; simpl.
  - destruct pending; [|discriminate]. rewrite app_nil_r. reflexivity.
  - rewrite map_app, concat_app. simpl. rewrite app_nil_r. reflexivity.
Qed.

Section NeverClosed.

Variable paeth : Z -> Z -> Z -> Z.
Variable coder : Coder.

(** C5, what the code does. When [writeImage] has fed the last row and
    returned no error, the goroutine ends with [close(aw)] alone: it does
    not close the coder and does not flush the [bufio.Writer]. The units
    it has delivered are those sent while the rows were written; the
    bytes still in the buffer and the bytes the coder writes on [Close],
    which a task that closes the coder delivers after them, never reach
    the consumer. *)
Theorem goroutine_drops_stream_end
    (c : Chunk_IHDR) (m : Image) (cl : Z) z z' pending sent :
  coder_new coder (CompressionLevel_zlib cl) = inr z ->
  writeImage paeth (z_Write coder) (z, ([], [])) m (cb c)
             (negb (cl =? NoCompression))
    = Some ((z', (pending, sent)), None) ->
  goroutine paeth coder c m cl = mkTask sent Closes /\
  delivered (goroutine_closing paeth coder c m cl)
    = delivered (goroutine paeth coder c m cl)
      ++ pending ++ concat (coder_close coder z').
Proof.
  intros Hnew Hrun. unfold goroutine, goroutine_closing, delivered.
  rewrite Hnew, Hrun. simpl. split; [reflexivity|].
  rewrite bufio_Flush_taken, fold_bufio_Write_taken. unfold taken. simpl.
  rewrite <- app_assoc. reflexivity.
Qed.

End NeverClosed.

(** Whenever [Close] would write anything, as a zlib coder's always does
    (the final block and the checksum), the units of the code are not the
    complete stream. *)
Lemma goroutine_stream_incomplete paeth coder c m cl z z' pending sent :
  coder_new coder (CompressionLevel_zlib cl) = inr z ->
  writeImage paeth (z_Write coder) (z, ([], [])) m (cb c)
             (negb (cl =? NoCompression))
    = Some ((z', (pending, sent)), None) ->
  concat (coder_close coder z') <> [] ->
  delivered (goroutine paeth coder c m cl)
    <> delivered (goroutine_closing paeth coder c m cl).
Proof.
  intros Hnew Hrun Hclose Heq.
  pose proof (f_equal length Heq) as Hlen.
  unfold goroutine, goroutine_closing, delivered in Hlen.
  rewrite Hnew, Hrun in Hlen. simpl in Hlen.
  rewrite bufio_Flush_taken, fold_bufio_Write_taken in Hlen.
  unfold taken in Hlen. simpl in Hlen. rewrite !length_app in Hlen.
  destruct (concat (coder_close coder z')); [congruence|simpl in Hlen; lia].
Qed.

Lemma goroutine_drops_stream_end_witness :
  coder_new framing_coder (CompressionLevel_zlib DefaultCompression)
    = inr false /\
  writeImage paeth_predict (z_Write framing_coder) (false, ([], []))
             two_pixels (cb header_TCA8)
             (negb (DefaultCompression =? NoCompression))
    = Some ((true, ([120; 156; 2; 10; 20; 30; 255; 3; 35; 40; 45; 1], [])),
            None) /\
  goroutine paeth_predict framing_coder header_TCA8 two_pixels
            DefaultCompression = mkTask [] Closes /\
  delivered (goroutine_closing paeth_predict framing_coder header_TCA8
               two_pixels DefaultCompression)
    = delivered (goroutine paeth_predict framing_coder header_TCA8 two_pixels
                   DefaultCompression)
      ++ [120; 156; 2; 10; 20; 30; 255; 3; 35; 40; 45; 1]
      ++ concat (coder_close framing_coder true).
Proof.
  assert (writeImage paeth_predict (z_Write framing_coder) (false, ([], []))
            two_pixels (cb header_TCA8)
            (negb (DefaultCompression =? NoCompression))
          = Some ((true, ([120; 156; 2; 10; 20; 30; 255; 3; 35; 40; 45; 1],
                          [])), None)) as Hrun
    by (vm_compute; reflexivity).
  split; [reflexivity|]. split; [exact Hrun|].
  exact (goroutine_drops_stream_end paeth_predict framing_coder header_TCA8
           two_pixels DefaultCompression false true _ _ eq_refl Hrun).
Defined.

(** On the two-pixel image nothing at all is delivered: the twelve bytes
    the coder has written stay in the buffer and the closing bytes are
    never written, where a task that closes the coder delivers one unit of
    sixteen bytes. *)
Example goroutine_delivers_nothing :
  goroutine paeth_predict framing_coder header_TCA8 two_pixels
            DefaultCompression
  = mkTask [] Closes /\
  goroutine_closing paeth_predict framing_coder header_TCA8 two_pixels
                    DefaultCompression
  = mkTask [mkAtom [120; 156; 2; 10; 20; 30; 255; 3; 35; 40; 45; 1;
                    0; 0; 255; 255] None] Closes.
Proof. vm_compute. split; reflexivity. Qed.

(** ** Starting an encode *)

Lemma cb_invalid_iff c : cb c = cbInvalid <-> ~ supported c.
Proof.
  destruct c as [wd ht bd ct cm fm im].
  unfold cb, supported, supported_pairs. simpl.
  unfold ColorType_Grayscale, ColorType_TrueColor, ColorType_Paletted,
    ColorType_TrueColorAlpha, BitDepth_8, BitDepth_16.
  split.
  - intros Hcb Hin.
    repeat (apply elem_of_cons in Hin as [[= -> ->]|Hin];
            [vm_compute in Hcb; discriminate Hcb|]).
    apply elem_of_nil in Hin. exact Hin.
  - intros Hno.
    repeat match goal with
           | |- context [Z.eqb ?x ?y] =>
               destruct (Z.eqb_spec x y); try lia; subst; simpl
           end;
      try reflexivity; exfalso; apply Hno;
      repeat first [apply list_elem_of_here | apply list_elem_of_further].
Qed.

Lemma convert_row_invalid m y cr0 : convert_row m cbInvalid y cr0 = Some cr0.
Proof. reflexivity. Qed.

Section Start.

Variable paeth : Z -> Z -> Z -> Z.
Variable coder : Coder.

(** C4, as the code has it. A header whose (color type, bit depth) pair
    is not one of the seven supported ones is classified [cbInvalid], and
    that is all: [NewEncoder_IDAT] does not look at the classification. It
    returns an encoder whose [Err] is nil and starts the goroutine, which
    runs [writeImage] with the invalid layout, that is with zero bytes per
    pixel and rows that take nothing from the image. *)
Theorem unsupported_pair_is_not_rejected
    (c : Chunk_IHDR) (m : Image) (cl : Z) (rt : Runtime) :
  ~ supported c ->
  cb c = cbInvalid /\
  (let started := NewEncoder_IDAT paeth coder c m cl rt in
   Encoder_IDAT_Err started.1 = None /\
   started.2 = rt ++ [goroutine paeth coder c m cl]) /\
  bytes_per_pixel (cb c) = 0%nat /\
  (forall y cr0, convert_row m (cb c) y cr0 = Some cr0).
Proof.
  intros Hno. apply cb_invalid_iff in Hno. rewrite Hno.
  split; [reflexivity|]. split; [split; reflexivity|].
  split; [reflexivity|]. intros y cr0. apply convert_row_invalid.
Qed.

End Start.

Lemma header_TC4_unsupported : ~ supported header_TC4.
Proof. apply cb_invalid_iff. reflexivity. Defined.

(** True-color with bit depth 4: the encode starts. *)
Lemma unsupported_pair_starts_encoding :
  ~ supported header_TC4 /\
  ~ rejected_before_start paeth_predict framing_coder header_TC4 two_pixels
      DefaultCompression [].
Proof.
  split; [exact header_TC4_unsupported|].
  unfold rejected_before_start. simpl. intros [Herr _]. apply Herr.
  reflexivity.
Qed.

Lemma unsupported_pair_is_not_rejected_witness :
  ~ supported header_TC4 /\
  cb header_TC4 = cbInvalid /\
  (let started := NewEncoder_IDAT paeth_predict framing_coder header_TC4
                    two_pixels DefaultCompression [] in
   Encoder_IDAT_Err started.1 = None /\
   started.2 = [] ++ [goroutine paeth_predict framing_coder header_TC4
                        two_pixels DefaultCompression]) /\
  bytes_per_pixel (cb header_TC4) = 0%nat /\
  (forall y cr0, convert_row two_pixels (cb header_TC4) y cr0 = Some cr0).
Proof.
  split; [exact header_TC4_unsupported|].
  exact (unsupported_pair_is_not_rejected paeth_predict framing_coder
           header_TC4 two_pixels DefaultCompression []
           header_TC4_unsupported).
Defined.

(** What the started task does with the invalid layout on the two-row
    image: it feeds the coder two rows of one byte, the tag of the up
    filter. *)
Example invalid_layout_rows :
  goroutine_closing paeth_predict framing_coder header_TC4 two_pixels
                    DefaultCompression
  = mkTask [mkAtom [120; 156; 2; 2; 0; 0; 255; 255] None] Closes.
Proof. vm_compute. reflexivity. Qed.

(** ** The two paths of the 8-bit true-color+alpha layout *)




Lemma convert_row_TCA8_NRGBA pix stride rect y cr0 :
  convert_row (ImageNRGBA pix stride rect) cbTCA8 y cr0
  = (src ← slice_int pix ((y - MinY rect) * stride)
                     ((y - MinY rect) * stride + Dx rect * 4);
     copy_from1 cr0 src).
Proof. reflexivity. Qed.



(** Both paths on the second row of a 2x2 image. *)
Example TCA8_both_paths :
  convert_row
    (ImageNRGBA [10; 20; 30; 255; 40; 50; 60; 128; 1; 2; 3; 4; 5; 6; 7; 8]
                8 (mkRect 0 0 2 2)) cbTCA8 1 [0; 9; 9; 9; 9; 9; 9; 9; 9]
  = Some [0; 1; 2; 3; 4; 5; 6; 7; 8] /\
  convert_row_TCA8_generic
    (ImageNRGBA [10; 20; 30; 255; 40; 50; 60; 128; 1; 2; 3; 4; 5; 6; 7; 8]
                8 (mkRect 0 0 2 2)) 1 [0; 9; 9; 9; 9; 9; 9; 9; 9]
  = Some [0; 1; 2; 3; 4; 5; 6; 7; 8].
Proof. vm_compute. split; reflexivity. Qed.

(* ================================================================== *)
(** * Properties of the chunk catalog *)

Lemma be16_shift u :
  be16 u = [uint8 (Z.shiftr u 8); uint8 (Z.shiftr u 0)].
Proof.
  unfold be16, uint8. rewrite !Z.shiftr_div_pow2 by lia.
  rewrite Z.pow_0_r, Z.div_1_r. reflexivity.
Qed.

Lemma writeUint16_be16 b u :
  (2 <= length b)%nat -> writeUint16 b u = Some (be16 u ++ drop 2 b).
Proof.
  intros Hb. rewrite be16_shift.
  destruct b as [|b0 [|b1 b]]; simpl in Hb; try lia.
  reflexivity.
Qed.

Lemma be32_decode_be16 u : 0 <= u < 2 ^ 16 -> be32_decode (be16 u) = u.
Proof.
  intros Hu. unfold be32_decode, be16. simpl.
  pose proof (Z.div_mod u (2 ^ 8) ltac:(lia)) as E1.
  change (2 ^ 8) with 256 in *.
  assert (u / 256 mod 256 = u / 256) as ->.
  { apply Z.mod_small. split; [apply Z.div_pos; lia|].
    apply Z.div_lt_upper_bound; lia. }
  lia.
Qed.

Lemma writeUint32_short b u : (length b < 4)%nat -> writeUint32 b u = None.
Proof.
  intros Hb. destruct b as [|b0 [|b1 [|b2 [|b3 b]]]]; simpl in Hb;
    try lia; reflexivity.
Qed.

(** X1. [writeUint32] panics exactly on a slice shorter than four bytes.
    On any other slice it stores the four big-endian bytes of the value in
    front, which decode to the value, and leaves the rest of the slice as
    it was. *)
Theorem writeUint32_round_trip (b : list Z) (u : Z) :
  0 <= u < 2 ^ 32 ->
  (writeUint32 b u = None <-> (length b < 4)%nat) /\
  ((4 <= length b)%nat ->
   exists b',
     writeUint32 b u = Some b' /\
     length b' = length b /\
     be32_decode (take 4 b') = u /\
     drop 4 b' = drop 4 b).
Proof.
  intros Hu. split.
  - split.
    + intros Hnone. destruct (decide (length b < 4)%nat) as [|Hge]; [assumption|].
      rewrite writeUint32_be32 in Hnone by lia. discriminate Hnone.
    + apply writeUint32_short.
  - intros Hb. exists (be32 u ++ drop 4 b).
    split; [apply writeUint32_be32, Hb|]. split_and!.
    + rewrite length_app, length_drop. simpl. lia.
    + change (take 4 (be32 u ++ drop 4 b)) with (be32 u).
      apply be32_decode_be32, Hu.
    + reflexivity.
Qed.

Lemma writeUint32_round_trip_witness :
  0 <= 100000 < 2 ^ 32 /\
  (4 <= length [9; 9; 9; 9; 7; 7])%nat /\
  exists b',
    writeUint32 [9; 9; 9; 9; 7; 7] 100000 = Some b' /\
    length b' = length [9; 9; 9; 9; 7; 7] /\
    be32_decode (take 4 b') = 100000 /\
    drop 4 b' = drop 4 [9; 9; 9; 9; 7; 7].
Proof.
  assert (0 <= 100000 < 2 ^ 32) as Hu by lia.
  split; [exact Hu|]. split; [simpl; lia|].
  apply (proj2 (writeUint32_round_trip [9; 9; 9; 9; 7; 7] 100000 Hu)).
  simpl; lia.
Defined.

(** X2. [writeUint16] stores the two big-endian bytes of a 16-bit value in
    front of a slice of at least two bytes, leaving the rest as it was, and
    panics on a shorter slice. *)
Theorem writeUint16_round_trip (b : list Z) (u : Z) :
  0 <= u < 2 ^ 16 ->
  (writeUint16 b u = None <-> (length b < 2)%nat) /\
  ((2 <= length b)%nat ->
   exists b',
     writeUint16 b u = Some b' /\
     length b' = length b /\
     be32_decode (take 2 b') = u /\
     drop 2 b' = drop 2 b).
Proof.
  intros Hu. split.
  - split.
    + intros Hnone. destruct (decide (length b < 2)%nat) as [|Hge]; [assumption|].
      rewrite writeUint16_be16 in Hnone by lia. discriminate Hnone.
    + intros Hb. destruct b as [|b0 [|b1 b]]; simpl in Hb; try lia;
        reflexivity.
  - intros Hb. exists (be16 u ++ drop 2 b).
    split; [apply writeUint16_be16, Hb|]. split_and!.
    + rewrite length_app, length_drop. simpl. lia.
    + change (take 2 (be16 u ++ drop 2 b)) with (be16 u).
      apply be32_decode_be16, Hu.
    + reflexivity.
Qed.

Lemma writeUint16_round_trip_witness :
  0 <= 1000 < 2 ^ 16 /\
  (2 <= length [9; 9; 7])%nat /\
  exists b',
    writeUint16 [9; 9; 7] 1000 = Some b' /\
    length b' = length [9; 9; 7] /\
    be32_decode (take 2 b') = 1000 /\
    drop 2 b' = drop 2 [9; 9; 7].
Proof.
  assert (0 <= 1000 < 2 ^ 16) as Hu by lia.
  split; [exact Hu|]. split; [simpl; lia|].
  apply (proj2 (writeUint16_round_trip [9; 9; 7] 1000 Hu)). simpl; lia.
Defined.

(** X3. [Chunk_IHDR.WriteTo] frames, under the name IHDR, a payload of
    exactly 13 bytes: the width and the height as four big-endian bytes
    each, then bit depth, color type, compression method, filter method
    and interlace method, one byte each. A reader decodes the width and
    the height it was given. *)
Theorem Chunk_IHDR_WriteTo_payload
    (c : Chunk_IHDR) (w : Writer) (log : list (list Z)) :
  IHDR_typed c ->
  let payload :=
    be32 (Width c) ++ be32 (Height c)
    ++ [BitDepth c; ColorType c; CompressionMethod c; FilterMethod c;
        InterlaceMethod c] in
  Chunk_IHDR_WriteTo c w log = writeChunkTo name_IHDR payload w log /\
  length payload = 13%nat /\
  be32_decode (take 4 payload) = Width c /\
  be32_decode (take 4 (drop 4 payload)) = Height c.
Proof.
  intros (Hw & Hh & Hbd & Hct & Hcm & Hfm & Him) payload. split_and!.
  - unfold Chunk_IHDR_WriteTo, through_slice, slice. simpl.
    subst payload. rewrite !be32_shift.
    rewrite !(uint8_of_byte (BitDepth c)), !(uint8_of_byte (ColorType c)),
      !(uint8_of_byte (CompressionMethod c)),
      !(uint8_of_byte (FilterMethod c)),
      !(uint8_of_byte (InterlaceMethod c)) by assumption.
    reflexivity.
  - reflexivity.
  - apply (be32_decode_be32 (Width c)), Hw.
  - apply (be32_decode_be32 (Height c)), Hh.
Qed.

Lemma Chunk_IHDR_WriteTo_payload_witness :
  IHDR_typed header_TCA8 /\
  Chunk_IHDR_WriteTo header_TCA8 buffer_writer []
  = writeChunkTo name_IHDR [0; 0; 0; 1; 0; 0; 0; 2; 8; 6; 0; 0; 0]
                 buffer_writer [].
Proof.
  assert (IHDR_typed header_TCA8) as H
    by (unfold IHDR_typed, is_byte, header_TCA8, BitDepth_8,
          ColorType_TrueColorAlpha; simpl; lia).
  split; [exact H|].
  exact (proj1 (Chunk_IHDR_WriteTo_payload header_TCA8 buffer_writer [] H)).
Defined.

(** X4. [Chunk_acTL.WriteTo] frames, under the name acTL, a payload of
    exactly 8 bytes: the number of frames, then the number of plays, as
    four big-endian bytes each, which a reader decodes to the two values
    it was given. *)
Theorem Chunk_acTL_WriteTo_payload
    (c : Chunk_acTL) (w : Writer) (log : list (list Z)) :
  0 <= NumFrames c < 2 ^ 32 -> 0 <= NumPlays c < 2 ^ 32 ->
  let payload := be32 (NumFrames c) ++ be32 (NumPlays c) in
  Chunk_acTL_WriteTo c w log = writeChunkTo name_acTL payload w log /\
  length payload = 8%nat /\
  be32_decode (take 4 payload) = NumFrames c /\
  be32_decode (drop 4 payload) = NumPlays c.
Proof.
  intros Hf Hp payload. split_and!.
  - unfold Chunk_acTL_WriteTo, through_slice, slice. simpl.
    subst payload. rewrite !be32_shift. reflexivity.
  - reflexivity.
  - apply (be32_decode_be32 (NumFrames c)), Hf.
  - apply (be32_decode_be32 (NumPlays c)), Hp.
Qed.

Lemma Chunk_acTL_WriteTo_payload_witness :
  Chunk_acTL_WriteTo (mkChunk_acTL 10 1) buffer_writer []
  = writeChunkTo name_acTL [0; 0; 0; 10; 0; 0; 0; 1] buffer_writer [].
Proof.
  exact (proj1 (Chunk_acTL_WriteTo_payload (mkChunk_acTL 10 1) buffer_writer []
                  ltac:(simpl; lia) ltac:(simpl; lia))).
Defined.

(** X5. [Chunk_fcTL.WriteTo] frames, under the name fcTL, a payload of
    exactly 26 bytes: sequence number, width, height, x offset and y
    offset as four big-endian bytes each, the delay numerator and
    denominator as two big-endian bytes each, then the dispose and blend
    operators, one byte each. *)
Theorem Chunk_fcTL_WriteTo_payload
    (c : Chunk_fcTL) (w : Writer) (log : list (list Z)) :
  fcTL_typed c ->
  let payload :=
    be32 (fcTL_SequenceNumber c) ++ be32 (fcTL_Width c)
    ++ be32 (fcTL_Height c) ++ be32 (fcTL_XOffset c)
    ++ be32 (fcTL_YOffset c) ++ be16 (fcTL_DelayNum c)
    ++ be16 (fcTL_DelayDen c) ++ [fcTL_DisposeOp c; fcTL_BlendOp c] in
  Chunk_fcTL_WriteTo c w log = writeChunkTo name_fcTL payload w log /\
  length payload = 26%nat /\
  be32_decode (take 4 payload) = fcTL_SequenceNumber c /\
  be32_decode (take 2 (drop 20 payload)) = fcTL_DelayNum c /\
  be32_decode (take 2 (drop 22 payload)) = fcTL_DelayDen c.
Proof.
  intros (Hs & Hw & Hh & Hx & Hy & Hn & Hd & Hdo & Hbo) payload. split_and!.
  - unfold Chunk_fcTL_WriteTo, through_slice, slice. simpl.
    subst payload. rewrite !be32_shift, !be16_shift.
    rewrite !(uint8_of_byte (fcTL_DisposeOp c)),
      !(uint8_of_byte (fcTL_BlendOp c)) by assumption.
    reflexivity.
  - reflexivity.
  - apply (be32_decode_be32 (fcTL_SequenceNumber c)), Hs.
  - apply (be32_decode_be16 (fcTL_DelayNum c)), Hn.
  - apply (be32_decode_be16 (fcTL_DelayDen c)), Hd.
Qed.

Lemma Chunk_fcTL_WriteTo_payload_witness :
  fcTL_typed sample_fcTL /\
  Chunk_fcTL_WriteTo sample_fcTL buffer_writer []
  = writeChunkTo name_fcTL
      [0; 0; 0; 3; 0; 0; 0; 100; 0; 0; 0; 100; 0; 0; 0; 0; 0; 0; 0; 0;
       0; 100; 3; 232; 0; 0] buffer_writer [].
Proof.
  assert (fcTL_typed sample_fcTL) as H
    by (unfold fcTL_typed, is_byte, sample_fcTL; simpl; lia).
  split; [exact H|].
  exact (proj1 (Chunk_fcTL_WriteTo_payload sample_fcTL buffer_writer [] H)).
Defined.

Lemma replicate_split (n k : nat) (x : Z) :
  replicate (n + k) x = replicate n x ++ replicate k x.
Proof. apply replicate_add. Qed.

(** X6. [Chunk_fdAT.WriteTo] is a wrapper: it frames, under the name fdAT,
    the sequence number as four big-endian bytes followed by the
    image-data bytes as they are, so that the payload without its first
    four bytes is the image-data payload. *)
Theorem Chunk_fdAT_WriteTo_wraps
    (c : Chunk_fdAT) (w : Writer) (log : list (list Z)) :
  0 <= SequenceNumber c < 2 ^ 32 ->
  let payload := be32 (SequenceNumber c) ++ Chunk_IDAT c in
  Chunk_fdAT_WriteTo c w log = writeChunkTo name_fdAT payload w log /\
  length payload = (4 + length (Chunk_IDAT c))%nat /\
  be32_decode (take 4 payload) = SequenceNumber c /\
  drop 4 payload = Chunk_IDAT c.
Proof.
  intros Hs payload. split_and!.
  - unfold Chunk_fdAT_WriteTo, through_slice.
    rewrite decide_True by (rewrite length_replicate; lia).
    rewrite writeUint32_be32
      by (unfold slice; rewrite length_take, length_drop, length_replicate; lia).
    cbn [mbind option_bind]. unfold slice.
    rewrite replicate_split.
    change (take 0 ?l) with (@nil Z). rewrite drop_0.
    change (4 - 0)%nat with 4%nat.
    rewrite (take_app_length' (replicate 4 0)) by reflexivity.
    change (drop 4 (replicate 4 0)) with (@nil Z).
    rewrite (drop_app_length' (replicate 4 0)) by reflexivity.
    cbn [app].
    rewrite decide_True
      by (rewrite length_app, length_replicate; simpl; lia).
    cbn [mbind option_bind].
    rewrite app_nil_r. change (length (be32 (SequenceNumber c))) with 4%nat.
    rewrite length_app, length_replicate.
    change (length (be32 (SequenceNumber c))) with 4%nat.
    replace (4 + length (Chunk_IDAT c) - 4)%nat
      with (length (Chunk_IDAT c)) by lia.
    change (take 4 (be32 (SequenceNumber c) ++ ?r))
      with (be32 (SequenceNumber c)).
    change (drop 4 (be32 (SequenceNumber c) ++ ?r)) with r.
    rewrite (drop_ge (be32 _ ++ _))
      by (rewrite length_app, length_replicate; simpl; lia).
    rewrite app_nil_r.
    rewrite (take_ge (replicate _ 0)) by (rewrite length_replicate; lia).
    unfold copy. rewrite length_replicate.
    rewrite take_ge by lia.
    rewrite drop_ge by (rewrite length_replicate; lia).
    rewrite app_nil_r. reflexivity.
  - subst payload. rewrite length_app. reflexivity.
  - change (take 4 payload) with (be32 (SequenceNumber c)).
    apply be32_decode_be32, Hs.
  - reflexivity.
Qed.

Lemma Chunk_fdAT_WriteTo_wraps_witness :
  0 <= SequenceNumber (mkChunk_fdAT 7 [120; 156; 1]) < 2 ^ 32 /\
  Chunk_fdAT_WriteTo (mkChunk_fdAT 7 [120; 156; 1]) buffer_writer []
  = writeChunkTo name_fdAT [0; 0; 0; 7; 120; 156; 1] buffer_writer [].
Proof.
  assert (0 <= SequenceNumber (mkChunk_fdAT 7 [120; 156; 1]) < 2 ^ 32) as H
    by (simpl; lia).
  split; [exact H|].
  exact (proj1 (Chunk_fdAT_WriteTo_wraps (mkChunk_fdAT 7 [120; 156; 1])
                  buffer_writer [] H)).
Defined.

(* ================================================================== *)
(** * Properties of the consumer *)

(** X7. Exhaustion is stable: once [Next] has returned false, the next
    call returns false again and changes nothing. After an error it does
    so without receiving from the channel, whatever the state of the
    goroutines. After the close of the channel [e.a] is nil and [Err] is
    nil again, so the call does receive, from the closed channel, which
    answers at once. *)
Theorem Next_false_stays_false
    (e e' : Encoder_IDAT) (rt rt' : Runtime) :
  Encoder_IDAT_Next e rt = Returned false e' rt' ->
  Encoder_IDAT_Next e' rt' = Returned false e' rt' /\
  ((Encoder_IDAT_Err e' <> None /\
    forall rt'', Encoder_IDAT_Next e' rt'' = Returned false e' rt'') \/
   (Encoder_IDAT_Err e' = None /\ a e' = None /\
    receive rt' (aw e') = ChannelClosed)).
Proof.
  unfold Encoder_IDAT_Next. case_bool_decide as Herr.
  - intros [= <- <-]. rewrite bool_decide_eq_true_2 by exact Herr.
    split; [reflexivity|]. left. split; [exact Herr|].
    intros rt''. reflexivity.
  - destruct (receive rt (aw e)) as [x rt1| | |] eqn:Hrecv; try discriminate.
    intros [= <- <-]. simpl. rewrite Hrecv.
    split; [reflexivity|]. right. split_and!; reflexivity.
Qed.

Lemma Next_false_stays_false_witness :
  Encoder_IDAT_Next (mkEncoder_IDAT 0 (Some (mkAtom [1] None)))
                    [mkTask [] Closes]
  = Returned false (mkEncoder_IDAT 0 None) [mkTask [] Closes] /\
  Encoder_IDAT_Next (mkEncoder_IDAT 0 None) [mkTask [] Closes]
  = Returned false (mkEncoder_IDAT 0 None) [mkTask [] Closes].
Proof.
  assert (Encoder_IDAT_Next (mkEncoder_IDAT 0 (Some (mkAtom [1] None)))
            [mkTask [] Closes]
          = Returned false (mkEncoder_IDAT 0 None) [mkTask [] Closes]) as H
    by reflexivity.
  split; [exact H|].
  exact (proj1 (Next_false_stays_false _ _ _ _ H)).
Defined.

Lemma Next_live e rt :
  live e rt ->
  Encoder_IDAT_Next e rt <> Blocked /\
  (forall r e' rt', Encoder_IDAT_Next e rt = Returned r e' rt' -> live e' rt').
Proof.
  intros Hl. unfold Encoder_IDAT_Next. case_bool_decide as Herr.
  - split; [discriminate|]. intros r e' rt' [= _ <- <-]. left. exact Herr.
  - destruct Hl as [Hl|(t & Ht & Hgood)]; [contradiction|].
    unfold receive. rewrite Ht.
    destruct (sends t) as [|x rest] eqn:Hs.
    + destruct (ending t) eqn:Hen.
      * split; [discriminate|]. intros r e' rt' [= _ <- <-].
        right. exists t. split; [exact Ht|].
        intros Hr. congruence.
      * destruct (Hgood Hen) as (pre & x & Hpre & _).
        rewrite Hs in Hpre. destruct pre; discriminate Hpre.
      * split; discriminate.
    + split; [discriminate|]. intros r e' rt' [= _ <- <-].
      destruct (err x) as [ex|] eqn:Hx.
      * left. unfold Encoder_IDAT_Err. simpl. rewrite Hx. discriminate.
      * right. exists (mkTask rest (ending t)). simpl. split.
        -- apply list_lookup_insert_eq. eapply lookup_lt_Some, Ht.
        -- intros Hr. simpl in *.
           destruct (Hgood Hr) as (pre & x0 & Hpre & Hu & Hx0).
           rewrite Hs in Hpre.
           destruct pre as [|p pre]; simpl in Hpre.
           ++ injection Hpre as -> _. congruence.
           ++ injection Hpre as -> ->. exists pre, x0.
              apply Forall_cons_1 in Hu as [_ Hu]. auto.
Qed.

Lemma pull_live n : forall e rt, live e rt -> pull n e rt <> Blocked.
Proof.
  induction n as [|n IH]; intros e rt Hl; simpl; [discriminate|].
  destruct (Next_live e rt Hl) as [Hnb Hstep].
  destruct (Encoder_IDAT_Next e rt) as [r e' rt'| |];
    [|contradiction|discriminate].
  specialize (IH e' rt' (Hstep r e' rt' eq_refl)).
  destruct (pull n e' rt'); [discriminate|contradiction|discriminate].
Qed.

Section Consumer.

Variable paeth : Z -> Z -> Z -> Z.
Variable coder : Coder.

Lemma goroutine_ends_well c m cl : ends_well (goroutine paeth coder c m cl).
Proof.
  unfold ends_well, goroutine.
  destruct (coder_new coder _) as [e0|z].
  - intros _. exists [], (mkAtom [] (Some e0)).
    split; [reflexivity|]. split; [constructor|discriminate].
  - destruct (writeImage _ _ _ _ _ _) as [[[z' [pending sent]] [e0|]]|];
      discriminate.
Qed.

(** X8. On an encoder made by [NewEncoder_IDAT], no call of [Next] blocks
    for ever, however many calls are made and whatever the producer did:
    each call returns (or the program has panicked in the producer). When
    the coder could not be constructed the goroutine returns without
    closing the channel, but the atom it has sent carries the error, and
    [Next] does not receive again once [Err] is non-nil. *)
Theorem Next_never_blocks
    (c : Chunk_IHDR) (m : Image) (cl : Z) (rt : Runtime) (n : nat) :
  let started := NewEncoder_IDAT paeth coder c m cl rt in
  pull n started.1 started.2 <> Blocked.
Proof.
  intros started. apply pull_live. right.
  exists (goroutine paeth coder c m cl). split.
  - subst started. unfold NewEncoder_IDAT. simpl.
    rewrite lookup_app_r, Nat.sub_diag by lia. reflexivity.
  - apply goroutine_ends_well.
Qed.

End Consumer.

Lemma receive_closed (rt : Runtime) :
  receive (rt ++ [mkTask [] Closes]) (length rt) = ChannelClosed.
Proof.
  unfold receive. rewrite lookup_app_r, Nat.sub_diag by lia. reflexivity.
Qed.

Lemma drain_until_closed (rt : Runtime) :
  forall sent a0,
    units sent ->
    Encoder_IDAT_Err (mkEncoder_IDAT (length rt) a0) = None ->
    drain (S (length sent)) (mkEncoder_IDAT (length rt) a0)
          (rt ++ [mkTask sent Closes])
    = Some (Returned (map buf sent) (mkEncoder_IDAT (length rt) None)
                     (rt ++ [mkTask [] Closes])).
Proof.
  induction sent as [|y sent IH]; intros a0 Hu Ha.
  - simpl. unfold Encoder_IDAT_Next.
    rewrite bool_decide_eq_false_2 by (rewrite Ha; auto).
    simpl. rewrite receive_closed. reflexivity.
  - cbn [drain length]. unfold Encoder_IDAT_Next at 1.
    rewrite bool_decide_eq_false_2 by (rewrite Ha; auto).
    cbn [aw]. rewrite receive_last.
    apply Forall_cons_1 in Hu as [Hy Hu].
    cbn [Encoder_IDAT_Chunk a mbind option_bind].
    pose proof (IH (Some y) Hu Hy) as IH'. cbn [drain] in IH'.
    rewrite IH'. reflexivity.
Qed.

Lemma drain_until_error (rt : Runtime) en x :
  err x <> None ->
  forall sent a0,
    units sent ->
    Encoder_IDAT_Err (mkEncoder_IDAT (length rt) a0) = None ->
    drain (S (S (length sent))) (mkEncoder_IDAT (length rt) a0)
          (rt ++ [mkTask (sent ++ [x]) en])
    = Some (Returned (map buf sent ++ [buf x])
                     (mkEncoder_IDAT (length rt) (Some x))
                     (rt ++ [mkTask [] en])).
Proof.
  intros Hx. induction sent as [|y sent IH]; intros a0 Hu Ha.
  - cbn [drain length app]. unfold Encoder_IDAT_Next at 1.
    rewrite bool_decide_eq_false_2 by (rewrite Ha; auto).
    cbn [aw]. rewrite receive_last.
    cbn [Encoder_IDAT_Chunk a mbind option_bind].
    rewrite Next_after_error by exact Hx. reflexivity.
  - cbn [length app]. cbn [drain]. unfold Encoder_IDAT_Next at 1.
    rewrite bool_decide_eq_false_2 by (rewrite Ha; auto).
    cbn [aw]. rewrite receive_last.
    apply Forall_cons_1 in Hu as [Hy Hu].
    cbn [Encoder_IDAT_Chunk a mbind option_bind].
    pose proof (IH (Some y) Hu Hy) as IH'. cbn [drain] in IH'.
    rewrite IH'. reflexivity.
Qed.

Section Drain.

Variable paeth : Z -> Z -> Z -> Z.
Variable coder : Coder.

(** X9. The consumer loop [for e.Next() { ... e.Chunk() ... }] on an
    encoder made by [NewEncoder_IDAT], whose producer does not panic,
    ends after one call of [Next] more than the producer sends atoms (one
    call less when the producer returns without closing the channel). It
    sees one chunk for each atom sent, in the order they were sent, each
    of the length of the slice that was sent; nothing is said of the bytes,
    which the chunk shares with the buffer the producer goes on filling.
    After the loop [Err] is the producer's failure, or nil. The atom that
    carries a failure is itself taken by a call of [Next] that returns
    true, so that on a failure the loop sees one more chunk, an empty
    one, at the end. *)
Theorem drain_sees_every_unit
    (c : Chunk_IHDR) (m : Image) (cl : Z) (rt : Runtime) :
  let task := goroutine paeth coder c m cl in
  let started := NewEncoder_IDAT paeth coder c m cl rt in
  ending task <> Panics ->
  exists chunks e1 rt1,
    drain (S (length (sends task))) started.1 started.2
    = Some (Returned chunks e1 rt1) /\
    map length chunks = map (fun x => length (buf x)) (sends task) /\
    Encoder_IDAT_Err e1 = producer_failure paeth coder c m cl /\
    (forall e, producer_failure paeth coder c m cl = Some e ->
       last chunks = Some []).
Proof.
  intros task started Hen. exists (map buf (sends task)).
  assert (map length (map buf (sends task))
          = map (fun x => length (buf x)) (sends task)) as Hlen
    by apply map_map.
  subst task started.
  unfold NewEncoder_IDAT, producer_failure, goroutine in *.
  cbn [fst snd] in *.
  destruct (coder_new coder _) as [e0|z].
  - cbn [sends] in *. eexists _, _. split_and!.
    + apply (drain_until_error rt Returns (mkAtom [] (Some e0))
               ltac:(discriminate) [] None); [constructor|reflexivity].
    + reflexivity.
    + reflexivity.
    + reflexivity.
  - destruct (writeImage _ _ _ _ _ _) as [[[z' [pending sent]] [e0|]]|] eqn:Hw.
    + assert (units sent) as Hu.
      { apply (writeImage_invariant paeth (z_Write coder)
                 (fun s => units s.2.2)) in Hw; simpl in *.
        - exact Hw.
        - intros w row. apply z_Write_units.
        - constructor. }
      cbn [sends] in *. eexists _, _. split_and!.
      * rewrite length_app, Nat.add_1_r, map_app.
        apply (drain_until_error rt Closes (mkAtom [] (Some e0))
                 ltac:(discriminate) sent None Hu). reflexivity.
      * exact Hlen.
      * reflexivity.
      * intros e _. rewrite map_app. apply last_snoc.
    + assert (units sent) as Hu.
      { apply (writeImage_invariant paeth (z_Write coder)
                 (fun s => units s.2.2)) in Hw; simpl in *.
        - exact Hw.
        - intros w row. apply z_Write_units.
        - constructor. }
      cbn [sends] in *. eexists _, _. split_and!.
      * apply (drain_until_closed rt sent None Hu). reflexivity.
      * exact Hlen.
      * reflexivity.
      * discriminate.
    + cbn [ending] in Hen. contradiction.
Qed.

End Drain.

Lemma drain_sees_every_unit_witness :
  let c := mkIHDR 8200 1 BitDepth_8 ColorType_TrueColorAlpha 0 0 0 in
  let m := ImageNRGBA (replicate (Z.to_nat 32800) 0) 32800
                      (mkRect 0 0 8200 1) in
  let task := goroutine paeth_predict framing_coder c m NoCompression in
  ending task <> Panics /\
  exists chunks e1 rt1,
    drain 2 (mkEncoder_IDAT 0 None) [task] = Some (Returned chunks e1 rt1) /\
    map (fun ch => Z.of_nat (length ch)) chunks = [32768] /\
    Encoder_IDAT_Err e1 = None.
Proof.
  intros c m task.
  assert (ending task <> Panics) as H by (vm_compute; discriminate).
  assert (length (sends task) = 1%nat) as H1 by (vm_compute; reflexivity).
  split; [exact H|].
  destruct (drain_sees_every_unit paeth_predict framing_coder c m
              NoCompression [] H) as (chunks & e1 & rt1 & Hd & Hlen & He & _).
  exists chunks, e1, rt1. split_and!.
  - fold task in Hd. rewrite H1 in Hd. exact Hd.
  - rewrite <- (map_map length Z.of_nat), Hlen, map_map.
    vm_compute. reflexivity.
  - rewrite He. vm_compute. reflexivity.
Defined.

(* ================================================================== *)
(** * Properties of the units *)

Lemma bufio_Write_full_units s p :
  full_units s -> full_units (bufio_Write s p).
Proof.
  destruct s as [pending sent].
  unfold full_units, bufio_Write, atomWriter_Write. simpl.
  generalize unit_size. intros size [Hpend Hsent].
  repeat case_decide; simpl.
  - split; [rewrite length_app; lia|exact Hsent].
  - split; [lia|]. apply Forall_app. split; [exact Hsent|].
    repeat constructor. simpl. lia.
  - split; [assumption|]. apply Forall_app. split; [exact Hsent|].
    repeat constructor. simpl. rewrite length_app, length_take. lia.
  - split; [lia|]. apply Forall_app. split.
    + apply Forall_app. split; [exact Hsent|].
      repeat constructor. simpl. rewrite length_app, length_take. lia.
    + repeat constructor. simpl. lia.
Qed.

Lemma fold_bufio_Write_full_units outs : forall s,
  full_units s -> full_units (fold_left bufio_Write outs s).
Proof.
  induction outs as [|p outs IH]; intros s H; simpl; [exact H|].
  apply IH, bufio_Write_full_units, H.
Qed.

Section UnitSize.

Variable paeth : Z -> Z -> Z -> Z.
Variable coder : Coder.

(** X10. Every unit of data the consumer of an encoder receives holds at
    least [1<<15] bytes: an atom is sent only when the [bufio.Writer] is
    full (exactly [1<<15] bytes) or when a write larger than its buffer
    goes through it; nothing flushes a buffer that is not full. The only
    atom that can be shorter is the one that carries an error. *)
Theorem units_hold_a_full_buffer (c : Chunk_IHDR) (m : Image) (cl : Z) :
  Forall (fun x => err x = None -> (unit_size <= length (buf x))%nat)
         (sends (goroutine paeth coder c m cl)).
Proof.
  unfold goroutine.
  destruct (coder_new coder _) as [e0|z].
  - repeat constructor. simpl. discriminate.
  - destruct (writeImage _ _ _ _ _ _) as [[[z' [pending sent]] e]|] eqn:Hw;
      [|constructor].
    apply (writeImage_invariant paeth (z_Write coder)
             (fun s => full_units s.2)) in Hw.
    + destruct Hw as [_ Hsent]. simpl in Hsent.
      assert (Forall (fun x => err x = None ->
                               (unit_size <= length (buf x))%nat) sent)
        as Hall.
      { eapply Forall_impl; [exact Hsent|]. intros x [_ Hx] _. exact Hx. }
      destruct e as [e0|]; simpl; [|exact Hall].
      apply Forall_app. split; [exact Hall|].
      repeat constructor. simpl. discriminate.
    + intros [z0 b] row Hb. unfold z_Write. simpl in *.
      destruct (coder_write coder z0 row) as [[z1 outs] e1]. simpl.
      apply fold_bufio_Write_full_units, Hb.
    + split; [simpl; lia|constructor].
Qed.

End UnitSize.

(** One row of 8200 transparent pixels, stored without filtering: the
    first 32768 bytes the coder writes are delivered as one unit, the last
    35 stay in the buffer. *)
Example one_full_unit :
  let t := goroutine paeth_predict framing_coder
             (mkIHDR 8200 1 BitDepth_8 ColorType_TrueColorAlpha 0 0 0)
             (ImageNRGBA (replicate (Z.to_nat 32800) 0) 32800
                         (mkRect 0 0 8200 1))
             NoCompression in
  (map (fun x => (Z.of_nat (length (buf x)), err x)) (sends t), ending t)
  = ([(32768, None)], Closes).
Proof. vm_compute. reflexivity. Qed.

(* ================================================================== *)
(** * More properties of the filter selector *)

Lemma selection_zero_up (S : Z -> Z) :
  S ftUp = 0 -> (forall f, 0 <= S f) -> (selection S 4).2 = ftUp.
Proof.
  intros H0 Hpos. unfold selection, keep_better. simpl.
  pose proof (Hpos ftPaeth). pose proof (Hpos ftNone).
  pose proof (Hpos ftSub). pose proof (Hpos ftAverage).
  rewrite H0. simpl.
  rewrite (bool_decide_eq_false_2 (S ftPaeth < 0)) by lia. simpl.
  rewrite (bool_decide_eq_false_2 (S ftNone < 0)) by lia. simpl.
  rewrite (bool_decide_eq_false_2 (S ftSub < 0)) by lia. simpl.
  rewrite (bool_decide_eq_false_2 (S ftAverage < 0)) by lia. reflexivity.
Qed.

Lemma sum_from_zero g i k :
  (forall p, g p = 0) -> sum_from g i k = 0.
Proof.
  intros Hg. revert i. induction k as [|k IH]; intros i; simpl; [reflexivity|].
  rewrite Hg, IH. reflexivity.
Qed.

Section FilterSameRow.

Variable paeth : Z -> Z -> Z -> Z.

(** X11. A row equal to the row above it is always given the up filter:
    [filter] returns [ftUp] and the up buffer holds zeros only. No other
    rule can win, as a rule is kept only when its sum is strictly below
    the best one, and the up rule, tried first, has sum 0. *)
Theorem filter_same_row_is_up (cr : Rows) (pr : list Z) (bpp : nat) :
  well_sized cr pr bpp ->
  tail (cr0 cr) = tail pr ->
  exists cr',
    filter paeth cr pr bpp = Some (cr', ftUp) /\
    tail (row_of cr' ftUp) = replicate (length (tail pr)) 0.
Proof.
  intros Hws Hsame.
  destruct (filter_run_prefixes paeth cr pr bpp Hws)
    as (cr' & Hrun & _ & _ & Hup & _).
  assert (bytes (tail (cr0 cr))) as Hb.
  { destruct Hws as (_ & _ & _ & _ & _ & _ & Hb).
    destruct (cr0 cr); [constructor|]. eapply Forall_cons_1, Hb. }
  assert (forall p, up_at (tail (cr0 cr)) (tail pr) p = 0) as Hz.
  { intros p. unfold up_at. rewrite Hsame, Z.sub_diag. reflexivity. }
  exists cr'. split.
  - rewrite Hrun. do 2 f_equal. apply selection_zero_up.
    + rewrite full_sum_sum_from. apply sum_from_zero. exact Hz.
    + intros f. rewrite full_sum_sum_from. apply sum_from_nonneg.
      intros p. apply filtered_at_is_byte, Hb.
  - rewrite Hup. unfold filtered.
    replace (length (tail pr)) with (length (tail (cr0 cr)))
      by (rewrite Hsame; reflexivity).
    apply list_eq. intros p. rewrite list_lookup_fmap.
    destruct (decide (p < length (tail (cr0 cr)))%nat) as [Hlt|Hge].
    + rewrite lookup_seq_lt, lookup_replicate_2 by lia. simpl.
      f_equal. apply Hz.
    + rewrite lookup_seq_ge by lia. simpl. symmetry.
      apply lookup_replicate_None. lia.
Qed.

End FilterSameRow.

Lemma filter_same_row_is_up_witness :
  well_sized stale_rows stale_prev 1 /\
  tail (cr0 stale_rows) = tail stale_prev /\
  exists cr',
    filter paeth_predict stale_rows stale_prev 1 = Some (cr', ftUp) /\
    tail (row_of cr' ftUp) = replicate (length (tail stale_prev)) 0.
Proof.
  split; [exact stale_rows_well_sized|]. split; [reflexivity|].
  exact (filter_same_row_is_up paeth_predict stale_rows stale_prev 1
           stale_rows_well_sized eq_refl).
Defined.

(* ================================================================== *)
(** * Properties of rows shorter than one pixel *)

Lemma paeth_head_short cdat0 pdat :
  forall k i s,
    (i <= length cdat0 < i + k)%nat ->
    for_loop (paeth_head_body cdat0 pdat) k i s = None.
Proof.
  induction k as [|k IH]; intros i s Hk; [lia|].
  simpl. unfold paeth_head_body at 1.
  destruct (decide (i = length cdat0)) as [->|Hne].
  - unfold index.
    rewrite (lookup_ge_None_2 cdat0 (length cdat0)) by apply Nat.le_refl.
    reflexivity.
  - destruct (index cdat0 i); simpl; [|reflexivity].
    destruct (index pdat i); simpl; [|reflexivity].
    unfold put_and_add. destruct (store s.1 i _); simpl; [|reflexivity].
    destruct (index l i); simpl; [|reflexivity].
    apply IH. lia.
Qed.

Lemma filter_short_row paeth cr pr bpp :
  (length (cr0 cr) <= bpp)%nat -> filter paeth cr pr bpp = None.
Proof.
  intros Hlen. unfold filter.
  destruct (cr0 cr) as [|t0 cdat0]; [reflexivity|].
  destruct (cr1 cr) as [|t1 cdat1]; [reflexivity|].
  destruct (cr2 cr) as [|t2 cdat2]; [reflexivity|].
  destruct (cr3 cr) as [|t3 cdat3]; [reflexivity|].
  destruct (cr4 cr) as [|t4 cdat4]; [reflexivity|].
  destruct pr as [|tp pdat]; [reflexivity|].
  cbn [slice_from1 mbind option_bind].
  destruct (for_loop (up_body cdat0 pdat) _ _ _) as [[c2 s2]|];
    cbn [mbind option_bind]; [|reflexivity].
  rewrite paeth_head_short by (simpl in Hlen; lia). reflexivity.
Qed.

(** X12. On buffers of one common length, [filter] panics exactly when the
    row holds fewer data bytes than one pixel has ([len(cr[0])-1 < bpp]):
    the loops over the first [bpp] bytes index the row without looking at
    its length. On any longer row it returns. *)
Theorem filter_panics_iff_short
    (paeth : Z -> Z -> Z -> Z) (cr : Rows) (pr : list Z) (bpp : nat) :
  length (cr1 cr) = length (cr0 cr) ->
  length (cr2 cr) = length (cr0 cr) ->
  length (cr3 cr) = length (cr0 cr) ->
  length (cr4 cr) = length (cr0 cr) ->
  length pr = length (cr0 cr) ->
  bytes (cr0 cr) ->
  (filter paeth cr pr bpp = None <-> (length (cr0 cr) <= bpp)%nat).
Proof.
  intros H1 H2 H3 H4 Hp Hb. split; [|apply filter_short_row].
  intros Hnone. destruct (decide (length (cr0 cr) <= bpp)%nat) as [|Hlong];
    [assumption|exfalso].
  destruct cr as [c0 c1 c2 c3 c4]. cbn [cr0 cr1 cr2 cr3 cr4] in *.
  destruct c0 as [|t0 d0]; [simpl in Hlong; lia|].
  destruct c1 as [|t1 d1]; [discriminate|].
  destruct c2 as [|t2 d2]; [discriminate|].
  destruct c3 as [|t3 d3]; [discriminate|].
  destruct c4 as [|t4 d4]; [discriminate|].
  destruct pr as [|tp pd]; [discriminate|].
  simpl in H1, H2, H3, H4, Hp, Hlong.
  destruct (filter_run paeth t0 t1 t2 t3 t4 tp d0 d1 d2 d3 d4 pd bpp)
    as (? & ? & ? & ? & ? & ? & Hrun & _); try lia.
  - apply Forall_cons in Hb as [_ Hb]. exact Hb.
  - rewrite Hrun in Hnone. discriminate.
Qed.

Lemma filter_panics_iff_short_witness :
  filter paeth_predict (mkRows [0; 7] [1; 0] [2; 0] [3; 0] [4; 0]) [0; 0] 2
  = None <-> (2 <= 2)%nat.
Proof.
  apply (filter_panics_iff_short paeth_predict
           (mkRows [0; 7] [1; 0] [2; 0] [3; 0] [4; 0]) [0; 0] 2);
    try reflexivity.
  repeat constructor; unfold is_byte; lia.
Defined.

(* ================================================================== *)
(** * Properties of [writeImage] *)

Lemma head_tail_cons (l t : list Z) (x : Z) :
  head l = Some x -> tail l = t -> l = x :: t.
Proof. destruct l; simpl; [discriminate|]. intros [= ->] ->. reflexivity. Qed.

Lemma shaped_row n cr pr k :
  shaped n cr pr -> k ∈ [0; 1; 2; 3; 4] ->
  exists d, row_of cr k = k :: d /\ length d = n.
Proof.
  intros [Hcr _] Hk. destruct (Hcr k Hk) as [Hh Hl].
  destruct (row_of cr k) as [|x d]; [discriminate|].
  simpl in *. injection Hh as ->. exists d. split; [reflexivity|lia].
Qed.

Section FilterShape.

Variable paeth : Z -> Z -> Z -> Z.

(** [filter] keeps the shape of the buffers. *)
Lemma filter_keeps_shape n cr pr bpp :
  shaped n cr pr -> (bpp <= n)%nat -> bytes (cr0 cr) ->
  exists cr' f,
    filter paeth cr pr bpp = Some (cr', f) /\
    f ∈ evaluation_order /\
    cr0 cr' = cr0 cr /\
    shaped n cr' pr /\
    row_of cr' f = f :: filtered paeth (tail (cr0 cr)) (tail pr) bpp f.
Proof.
  intros Hsh Hbpp Hb.
  pose proof Hsh as [Hcr [Hph Hpl]].
  assert (forall k, k ∈ [0; 1; 2; 3; 4] -> length (row_of cr k) = S n)
    as Hlen by (intros k Hk; apply Hcr, Hk).
  assert (well_sized cr pr bpp) as Hws.
  { unfold well_sized.
    pose proof (Hlen 0 ltac:(repeat constructor)) as L0.
    pose proof (Hlen 1 ltac:(repeat constructor)) as L1.
    pose proof (Hlen 2 ltac:(repeat constructor)) as L2.
    pose proof (Hlen 3 ltac:(repeat constructor)) as L3.
    pose proof (Hlen 4 ltac:(repeat constructor)) as L4.
    unfold row_of in *. simpl in *. split_and!; try lia. exact Hb. }
  destruct (filter_run_rows paeth cr pr bpp Hws)
    as (cr' & s1 & s3 & s4 & Hrun & H0 & Hhd & H2 & W4 & W1 & W3).
  destruct (filter_chosen_row paeth cr pr bpp Hws)
    as (cr'' & f & Hrun' & Hf & Hrow).
  rewrite Hrun in Hrun'. injection Hrun' as <- Hsel.
  exists cr', f. rewrite <- Hsel at 1. split; [exact Hrun|].
  split; [exact Hf|]. split; [exact H0|].
  assert (length (tail (cr0 cr)) = n) as Hn.
  { pose proof (Hlen 0 ltac:(repeat constructor)) as L0.
    unfold row_of in L0. simpl in L0. destruct (cr0 cr); simpl in *; lia. }
  assert (forall l : list Z, length (tail l) = n -> l <> [] -> length l = S n)
    as Htl.
  { intros l Hl Hne. destruct l; [contradiction|]. simpl in *. lia. }
  assert (forall k, k ∈ [0; 1; 2; 3; 4] ->
            head (row_of cr' k) = Some k /\ length (row_of cr' k) = S n)
    as Hcr'.
  { intros k Hk. split; [rewrite Hhd; apply Hcr, Hk|].
    assert (row_of cr' k <> []) as Hne.
    { intros E. pose proof (Hhd k) as Hh. rewrite E in Hh.
      destruct (Hcr k Hk) as [Hk1 _]. rewrite Hk1 in Hh. discriminate Hh. }
    apply Htl; [|exact Hne].
    destruct W4 as (j4 & _ & _ & L4 & _).
    destruct W1 as (j1 & _ & _ & L1 & _).
    destruct W3 as (j3 & _ & _ & L3 & _).
    repeat (apply elem_of_cons in Hk as [->|Hk]); unfold row_of; simpl.
    - rewrite H0. exact Hn.
    - rewrite L1. exact Hn.
    - rewrite H2. unfold filtered. rewrite length_map, length_seq. exact Hn.
    - rewrite L3. exact Hn.
    - rewrite L4. exact Hn.
    - apply elem_of_nil in Hk. contradiction. }
  split; [split; [exact Hcr'|split; assumption]|].
  apply head_tail_cons; [|exact Hrow].
  apply Hcr'. unfold evaluation_order, ftUp, ftPaeth, ftNone, ftSub, ftAverage in Hf.
  repeat (apply elem_of_cons in Hf as [->|Hf]);
    try (repeat first [apply list_elem_of_here | apply list_elem_of_further]).
  apply elem_of_nil in Hf. contradiction.
Qed.

End FilterShape.

Section RowsDecode.

Variable paeth : Z -> Z -> Z -> Z.
Hypothesis paeth_first_pixel : forall b, paeth 0 b 0 = b.

Variable m : Image.
Variable cb : Z.
Variable applyFilter : bool.
Variable bpp n : nat.
Variable raw : Z -> list Z.

Hypothesis bpp_pos : (1 <= bpp)%nat.
Hypothesis bpp_le : (bpp <= n)%nat.

(** The row loop, for rows that the conversion step can produce: the rows
    handed to the writer are tagged rows, one per image row, and a reader
    gets the raw rows back from them. *)
Lemma row_loop_decodes :
  forall ys cr pr prev w,
    (forall y d, y ∈ ys -> length d = n ->
       convert_row m cb y (0 :: d) = Some (0 :: raw y) /\
       length (raw y) = n /\ bytes (raw y)) ->
    shaped n cr pr -> pr = 0 :: prev ->
    exists rows,
      row_loop paeth record_Write m cb applyFilter bpp ys (cr, pr, w)
      = Some (w ++ rows, None) /\
      length rows = length ys /\
      Forall (tagged_row n) rows /\
      decode_rows paeth bpp prev rows = map raw ys.
Proof.
  induction ys as [|y ys IH]; intros cr pr prev w Hconv Hsh Hpr.
  - exists []. simpl. rewrite app_nil_r. auto.
  - destruct (shaped_row n cr pr 0 Hsh ltac:(repeat constructor))
      as (d0 & Hc0 & Hd0).
    change (row_of cr 0) with (cr0 cr) in Hc0.
    destruct (Hconv y d0 ltac:(apply list_elem_of_here) Hd0)
      as (Hrow & Hlen & Hb).
    assert (shaped n (set_cr0 cr (0 :: raw y)) pr) as Hsh1.
    { destruct Hsh as [Hcr Hp]. split; [|exact Hp].
      intros k Hk. destruct (Hcr k Hk) as [Hh Hl].
      repeat (apply elem_of_cons in Hk as [->|Hk]); unfold row_of in *;
        simpl in *; auto.
      apply elem_of_nil in Hk. contradiction. }
    assert (exists cr' f,
              (if applyFilter
               then filter paeth (set_cr0 cr (0 :: raw y)) pr bpp
               else Some (set_cr0 cr (0 :: raw y), ftNone)) = Some (cr', f) /\
              f ∈ evaluation_order /\
              cr0 cr' = 0 :: raw y /\
              shaped n cr' pr /\
              row_of cr' f = f :: filtered paeth (raw y) prev bpp f)
      as (cr' & f & Hf & Hfin & Hcr0 & Hsh' & Hout).
    { destruct applyFilter.
      - destruct (filter_keeps_shape paeth n (set_cr0 cr (0 :: raw y)) pr bpp
                    Hsh1 bpp_le) as (cr' & f & H1 & H2 & H3 & H4 & H5).
        + simpl. constructor; [unfold is_byte; lia|exact Hb].
        + exists cr', f. simpl in H5. rewrite Hpr in H5. simpl in H5. auto.
      - exists (set_cr0 cr (0 :: raw y)), ftNone. split; [reflexivity|].
        split; [repeat first [apply list_elem_of_here
                             | apply list_elem_of_further]|].
        split; [reflexivity|]. split; [exact Hsh1|].
        unfold row_of. simpl. rewrite filtered_none. reflexivity. }
    assert (shaped n (set_cr0 cr' pr) (cr0 cr')) as Hsh2.
    { destruct Hsh' as [Hcr [Hph Hpl]]. split.
      - intros k Hk. destruct (Hcr k Hk) as [Hh Hl].
        repeat (apply elem_of_cons in Hk as [->|Hk]); unfold row_of in *;
          simpl in *; auto.
        apply elem_of_nil in Hk. contradiction.
      - rewrite Hcr0. simpl. split; [reflexivity|]. f_equal. exact Hlen. }
    destruct (IH (set_cr0 cr' pr) (cr0 cr') (raw y) (w ++ [row_of cr' f]))
      as (rows & Hrun & Hn & Htag & Hdec).
    + intros y' d Hy' Hd. apply Hconv; [|exact Hd].
      apply list_elem_of_further, Hy'.
    + exact Hsh2.
    + exact Hcr0.
    + exists (row_of cr' f :: rows). split_and!.
      * simpl. rewrite Hc0, Hrow. simpl. rewrite Hf. simpl.
        rewrite Hrun, <- app_assoc. reflexivity.
      * simpl. f_equal. exact Hn.
      * constructor; [|exact Htag]. split.
        -- rewrite Hout. simpl. unfold filtered.
           rewrite length_map, length_seq. f_equal. exact Hlen.
        -- exists f. rewrite Hout. auto.
      * rewrite Hout. simpl. f_equal.
        -- apply unfilter_filtered; auto.
        -- rewrite unfilter_filtered by auto. exact Hdec.
Qed.

End RowsDecode.

Lemma make_row_ok bpp b i :
  0 <= Dx b -> is_byte i ->
  make_row bpp b i = Some (i :: replicate (bpp * Z.to_nat (Dx b)) 0).
Proof.
  intros HDx Hi. unfold make_row, make.
  rewrite (proj2 (Z.ltb_ge _ _)) by nia. cbn [mbind option_bind].
  replace (Z.to_nat (1 + Z.of_nat bpp * Dx b))
    with (S (bpp * Z.to_nat (Dx b))) by nia.
  rewrite uint8_of_byte by exact Hi. reflexivity.
Qed.

Lemma steps_in lo n y : y ∈ steps lo 1 n -> lo <= y < lo + n.
Proof.
  unfold steps. intros Hy. apply list_elem_of_fmap_1 in Hy as (k & -> & Hk).
  apply list_elem_of_In, in_seq in Hk. lia.
Qed.

Lemma convert_row_TCA8_NRGBA_row pix stride rect y t d :
  row_in_storage pix stride rect y ->
  length d = (4 * Z.to_nat (Dx rect))%nat ->
  convert_row (ImageNRGBA pix stride rect) cbTCA8 y (t :: d)
  = Some (t :: NRGBA_row pix stride rect y).
Proof.
  intros (Hy & HDx & Hoff & Hfit) Hd.
  rewrite convert_row_TCA8_NRGBA. unfold slice_int.
  rewrite !(proj2 (Z.leb_le _ _)) by lia. cbn [andb mbind option_bind].
  replace (Z.to_nat ((y - MinY rect) * stride + Dx rect * 4
                     - (y - MinY rect) * stride))
    with (4 * Z.to_nat (Dx rect))%nat by lia.
  fold (NRGBA_row pix stride rect y).
  assert (length (NRGBA_row pix stride rect y) = (4 * Z.to_nat (Dx rect))%nat)
    as Hsrc.
  { unfold NRGBA_row. rewrite length_take, length_drop. lia. }
  unfold copy_from1, slice_from1, copy. cbn [mbind option_bind].
  rewrite (take_ge (NRGBA_row pix stride rect y)) by lia.
  rewrite (drop_ge d) by lia. rewrite app_nil_r. reflexivity.
Qed.

Section WriteImageDecodes.

Variable paeth : Z -> Z -> Z -> Z.
Hypothesis paeth_first_pixel : forall b, paeth 0 b 0 = b.

(** X13. [writeImage] on an [*image.NRGBA] of at least one column, in the
    8-bit true-color+alpha layout, with or without filtering: it returns
    no error, hands the writer one row per image row, each a filter tag
    (0 to 4) followed by [4 * Dx] bytes, and a reader that reverses the
    tagged rule of each row against the row it reconstructed before (all
    zeros before the first) gets back the rows of the pixel storage,
    byte for byte. *)
Theorem writeImage_NRGBA_decodes
    (pix : list Z) (stride : Z) (rect : Rectangle) (applyFilter : bool) :
  bytes pix -> 1 <= Dx rect ->
  (forall y, MinY rect <= y < MaxY rect -> row_in_storage pix stride rect y) ->
  let n := (4 * Z.to_nat (Dx rect))%nat in
  exists rows,
    writeImage paeth record_Write [] (ImageNRGBA pix stride rect) cbTCA8
               applyFilter
    = Some (rows, None) /\
    length rows = Z.to_nat (Dy rect) /\
    Forall (tagged_row n) rows /\
    decode_rows paeth 4 (replicate n 0) rows
    = map (NRGBA_row pix stride rect) (steps (MinY rect) 1 (Dy rect)).
Proof.
  intros Hb HDx Hin n. unfold writeImage.
  change (bytes_per_pixel cbTCA8) with 4%nat. cbn [Bounds].
  rewrite !make_row_ok by (unfold is_byte; lia).
  cbn [mbind option_bind]. unfold make.
  rewrite (proj2 (Z.ltb_ge _ _)) by lia. cbn [mbind option_bind].
  replace (Z.to_nat (1 + Z.of_nat 4 * Dx rect)) with (S n) by lia.
  fold n. change (replicate (S n) 0) with (0 :: replicate n 0).
  destruct (row_loop_decodes paeth paeth_first_pixel
              (ImageNRGBA pix stride rect) cbTCA8 applyFilter 4 n
              (NRGBA_row pix stride rect) ltac:(lia) ltac:(lia)
              (steps (MinY rect) 1 (Dy rect))
              (mkRows (0 :: replicate n 0) (1 :: replicate n 0)
                      (2 :: replicate n 0) (3 :: replicate n 0)
                      (4 :: replicate n 0))
              (0 :: replicate n 0) (replicate n 0) [])
    as (rows & Hrun & Hlen & Htag & Hdec).
  - intros y d Hy Hd. apply steps_in in Hy.
    assert (row_in_storage pix stride rect y) as Hrow
      by (apply Hin; unfold Dy in Hy; lia).
    split; [apply convert_row_TCA8_NRGBA_row; assumption|].
    unfold NRGBA_row. destruct Hrow as (_ & _ & Hoff & Hfit). split.
    + rewrite length_take, length_drop. lia.
    + apply Forall_take, Forall_drop, Hb.
  - split.
    + intros k Hk.
      repeat (apply elem_of_cons in Hk as [->|Hk]); unfold row_of; simpl;
        rewrite ?length_replicate; auto.
      apply elem_of_nil in Hk. contradiction.
    + simpl. rewrite length_replicate. auto.
  - reflexivity.
  - exists rows. rewrite Hrun. split; [reflexivity|].
    split; [|auto]. rewrite Hlen. unfold steps.
    rewrite length_map, length_seq. reflexivity.
Qed.

End WriteImageDecodes.

Lemma writeImage_NRGBA_decodes_witness :
  bytes [10; 20; 30; 255; 40; 50; 60; 128; 1; 2; 3; 4; 5; 6; 7; 8] /\
  1 <= Dx (mkRect 0 0 2 2) /\
  exists rows,
    writeImage paeth_predict record_Write [] four_pixels cbTCA8 true
    = Some (rows, None) /\
    length rows = 2%nat /\
    decode_rows paeth_predict 4 (replicate 8 0) rows
    = [[10; 20; 30; 255; 40; 50; 60; 128]; [1; 2; 3; 4; 5; 6; 7; 8]].
Proof.
  assert (bytes [10; 20; 30; 255; 40; 50; 60; 128; 1; 2; 3; 4; 5; 6; 7; 8])
    as Hb by (repeat constructor; unfold is_byte; lia).
  assert (1 <= Dx (mkRect 0 0 2 2)) as HDx by (unfold Dx; simpl; lia).
  split; [exact Hb|]. split; [exact HDx|].
  destruct (writeImage_NRGBA_decodes paeth_predict paeth_predict_first_pixel
              _ 8 (mkRect 0 0 2 2) true Hb HDx)
    as (rows & Hrun & Hlen & _ & Hdec).
  - intros y Hy. unfold row_in_storage, Dx. simpl in *.
    assert (y = 0 \/ y = 1) as [-> | ->] by lia; simpl; lia.
  - exists rows. split; [exact Hrun|]. split; [exact Hlen|exact Hdec].
Defined.

(** The rows written for that image: the first with the average filter,
    the second with the sub filter. *)
Example writeImage_four_pixels :
  writeImage paeth_predict record_Write [] four_pixels cbTCA8 true
  = Some ([[3; 10; 20; 30; 255; 35; 40; 45; 1];
           [1; 1; 2; 3; 4; 4; 4; 4; 4]], None).
Proof. vm_compute. reflexivity. Qed.

(* ================================================================== *)
(** * Properties of images without columns *)

Lemma copy_nil (d : list Z) : copy d [] = d.
Proof. unfold copy. rewrite take_nil. reflexivity. Qed.

Lemma slice_int_empty pix lo :
  slice_int pix lo (lo + 0) = None \/ slice_int pix lo (lo + 0) = Some [].
Proof.
  unfold slice_int. destruct (_ && _); [right|left; reflexivity].
  replace (lo + 0 - lo) with 0 by lia. reflexivity.
Qed.

Lemma copy_from1_nil cr0 :
  copy_from1 cr0 [] = None \/ copy_from1 cr0 [] = Some cr0.
Proof.
  destruct cr0 as [|t d]; [left; reflexivity|right].
  unfold copy_from1. simpl. rewrite copy_nil. reflexivity.
Qed.

(** Converting a row of an image without columns either panics or leaves
    the buffer as it is. *)
Lemma convert_row_zero_width m cb y cr0 :
  Dx (Bounds m) = 0 ->
  convert_row m cb y cr0 = None \/ convert_row m cb y cr0 = Some cr0.
Proof.
  intros HDx.
  assert (forall pix lo, 
            (src ← slice_int pix lo (lo + 0); copy_from1 cr0 src) = None \/
            (src ← slice_int pix lo (lo + 0); copy_from1 cr0 src) = Some cr0)
    as Hcopy.
  { intros pix lo. destruct (slice_int_empty pix lo) as [-> | ->];
      [left; reflexivity|apply copy_from1_nil]. }
  unfold convert_row, sample_row, steps. rewrite HDx.
  replace (0 * 4) with 0 by lia.
  cbn [Z.to_nat seq map for_each mbind option_bind fst].
  repeat case_match; auto.
Qed.

Section ZeroWidth.

Variable paeth : Z -> Z -> Z -> Z.
Context {W : Type}.
Variable w_Write : W -> list Z -> W * option error.

(** X14. [writeImage] with filtering panics on an image that has rows but
    no columns, whatever the image type, under every layout of one byte
    per pixel or more: the row buffers hold the tag byte only, and
    [filter] indexes the first pixel of the first row. No call of [Write]
    is made. *)
Theorem writeImage_zero_width_panics (w : W) (m : Image) (cb : Z) :
  Dx (Bounds m) = 0 -> 1 <= Dy (Bounds m) ->
  (1 <= bytes_per_pixel cb)%nat ->
  writeImage paeth w_Write w m cb true = None.
Proof.
  intros HDx HDy Hbpp. unfold writeImage.
  rewrite !make_row_ok by (unfold is_byte; lia).
  cbn [mbind option_bind]. unfold make.
  rewrite (proj2 (Z.ltb_ge _ _)) by lia. cbn [mbind option_bind].
  rewrite HDx. rewrite Z.mul_0_r, Nat.mul_0_r.
  change (replicate (Z.to_nat (1 + 0)) 0) with [0].
  change (replicate (Z.to_nat 0) 0) with (@nil Z).
  change (replicate 0 0) with (@nil Z).
  unfold steps. destruct (Z.to_nat (Dy (Bounds m))) as [|k] eqn:Hk; [lia|].
  cbn [seq map row_loop]. unfold write_row. cbn [cr0].
  destruct (convert_row_zero_width m cb (MinY (Bounds m) + 1 * Z.of_nat 0) [0]
              HDx) as [-> | ->]; [reflexivity|].
  cbn [mbind option_bind].
  rewrite filter_short_row by (simpl; lia). reflexivity.
Qed.

End ZeroWidth.

Lemma writeImage_zero_width_panics_witness :
  writeImage paeth_predict record_Write []
             (ImageNRGBA [] 0 (mkRect 0 0 0 1)) cbTCA8 true = None.
Proof.
  apply writeImage_zero_width_panics.
  - reflexivity.
  - unfold Dy. simpl. lia.
  - change (bytes_per_pixel cbTCA8) with 4%nat. lia.
Defined.

(** Without filtering the same image is written as one row that holds the
    tag byte only. *)
Example writeImage_zero_width_unfiltered :
  writeImage paeth_predict record_Write []
             (ImageNRGBA [] 0 (mkRect 0 0 0 1)) cbTCA8 false
  = Some ([[0]], None).
Proof. reflexivity. Qed.

(* ================================================================== *)
(** * Properties of a destination that fails *)

Section FailedWrite.

Variable paeth : Z -> Z -> Z -> Z.
Variable m : Image.
Variable cb : Z.
Variable applyFilter : bool.

Lemma row_loop_record_prefix bpp :
  forall ys cr pr w rows r,
    row_loop paeth record_Write m cb applyFilter bpp ys (cr, pr, w)
    = Some (rows, r) ->
    r = None /\ exists more, rows = w ++ more /\ length more = length ys.
Proof.
  induction ys as [|y ys IH]; intros cr pr w rows r Hrun.
  - simpl in Hrun. injection Hrun as <- <-. split; [reflexivity|].
    exists []. rewrite app_nil_r. split; reflexivity.
  - cbn [row_loop] in Hrun. unfold write_row in Hrun.
    destruct (convert_row m cb y (cr0 cr)) as [row|];
      cbn [mbind option_bind] in Hrun; [|discriminate].
    destruct (if applyFilter then _ else _) as [[cr' f]|];
      cbn [mbind option_bind] in Hrun; [|discriminate].
    unfold record_Write in Hrun. cbn [mbind option_bind] in Hrun.
    apply IH in Hrun as (-> & more & -> & Hlen). split; [reflexivity|].
    exists (row_of cr' f :: more). rewrite <- app_assoc. simpl.
    split; [reflexivity|lia].
Qed.

Variable wr : Writer.
Variable k : nat.
Variable e : error.

Lemma row_loop_first_error bpp :
  forall ys cr pr w rows,
    row_loop paeth record_Write m cb applyFilter bpp ys (cr, pr, w)
    = Some (rows, None) ->
    (length w <= k < length rows)%nat ->
    (forall j r, (length w <= j < k)%nat -> rows !! j = Some r ->
       (wr (take j rows) r).2 = None) ->
    (forall r, rows !! k = Some r -> (wr (take k rows) r).2 = Some e) ->
    row_loop paeth (log_Write wr) m cb applyFilter bpp ys (cr, pr, w)
    = Some (take (S k) rows, Some e).
Proof.
  induction ys as [|y ys IH]; intros cr pr w rows Hrun Hk Hok Hfail.
  - simpl in Hrun. injection Hrun as <-. lia.
  - cbn [row_loop] in Hrun |- *. unfold write_row in Hrun |- *.
    destruct (convert_row m cb y (cr0 cr)) as [row|];
      cbn [mbind option_bind] in Hrun |- *; [|discriminate].
    destruct (if applyFilter then _ else _) as [[cr' f]|];
      cbn [mbind option_bind] in Hrun |- *; [|discriminate].
    unfold record_Write in Hrun. cbn [mbind option_bind] in Hrun.
    unfold log_Write.
    pose proof (row_loop_record_prefix _ _ _ _ _ _ _ Hrun)
      as (_ & more & Hrows & Hmore).
    assert (rows !! length w = Some (row_of cr' f)) as Hat.
    { rewrite Hrows, <- app_assoc. rewrite lookup_app_r by lia.
      rewrite Nat.sub_diag. reflexivity. }
    assert (take (length w) rows = w) as Htake.
    { rewrite Hrows, <- app_assoc. apply take_app_length. }
    destruct (decide (length w = k)) as [Heq|Hne].
    + subst k. rewrite <- Htake at 1. rewrite (Hfail _ Hat).
      cbn [mbind option_bind]. f_equal. f_equal.
      rewrite Hrows.
      replace (S (length w)) with (length (w ++ [row_of cr' f]))
        by (rewrite length_app; simpl; lia).
      rewrite take_app_length. reflexivity.
    + rewrite <- Htake at 1. rewrite (Hok (length w) _ ltac:(lia) Hat).
      apply IH; [exact Hrun| | |exact Hfail].
      * rewrite length_app. simpl. lia.
      * intros j r Hj. apply Hok. rewrite length_app in Hj. simpl in Hj. lia.
Qed.

(** X15. [writeImage] returns the first error its destination returns and
    makes no call of [Write] after it. With [rows] the rows a destination
    that never fails is handed: when the destination accepts the first
    [k] of them and answers the next one with an error, [writeImage]
    returns that error, and the destination has been handed the first
    [k + 1] rows and nothing else. *)
Theorem writeImage_stops_at_first_error (rows : list (list Z)) :
  writeImage paeth record_Write [] m cb applyFilter = Some (rows, None) ->
  (k < length rows)%nat ->
  (forall j r, (j < k)%nat -> rows !! j = Some r ->
     (wr (take j rows) r).2 = None) ->
  (forall r, rows !! k = Some r -> (wr (take k rows) r).2 = Some e) ->
  writeImage paeth (log_Write wr) [] m cb applyFilter
  = Some (take (S k) rows, Some e).
Proof.
  unfold writeImage. intros Hrun Hk Hok Hfail.
  destruct (make_row _ _ 0) as [c0|]; cbn [mbind option_bind] in *;
    [|discriminate].
  destruct (make_row _ _ 1) as [c1|]; cbn [mbind option_bind] in *;
    [|discriminate].
  destruct (make_row _ _ 2) as [c2|]; cbn [mbind option_bind] in *;
    [|discriminate].
  destruct (make_row _ _ 3) as [c3|]; cbn [mbind option_bind] in *;
    [|discriminate].
  destruct (make_row _ _ 4) as [c4|]; cbn [mbind option_bind] in *;
    [|discriminate].
  destruct (make _) as [pr|]; cbn [mbind option_bind] in *; [|discriminate].
  apply row_loop_first_error; [exact Hrun|simpl; lia| |exact Hfail].
  intros j r Hj. apply Hok. lia.
Qed.

End FailedWrite.

Lemma writeImage_stops_at_first_error_witness :
  writeImage paeth_predict (log_Write second_call_fails) [] four_pixels
             cbTCA8 true
  = Some (take 2 [[3; 10; 20; 30; 255; 35; 40; 45; 1];
                  [1; 1; 2; 3; 4; 4; 4; 4; 4]], Some (mkError 5)).
Proof.
  apply (writeImage_stops_at_first_error paeth_predict four_pixels cbTCA8
           true second_call_fails 1 (mkError 5)).
  - vm_compute. reflexivity.
  - simpl. lia.
  - intros j r Hj _. assert (j = 0)%nat as -> by lia. reflexivity.
  - intros r _. reflexivity.
Defined.

(** The same image with three rows of one pixel: the third row is never
    handed over. *)
Example writeImage_second_call_fails :
  writeImage paeth_predict (log_Write second_call_fails) []
             (ImageNRGBA [10; 20; 30; 255; 40; 50; 60; 128; 1; 2; 3; 4]
                         4 (mkRect 0 0 1 3)) cbTCA8 false
  = Some ([[0; 10; 20; 30; 255]; [0; 40; 50; 60; 128]], Some (mkError 5)).
Proof. vm_compute. reflexivity. Qed.
